(** * Waitlist signup API: a shallow embedding of the worker and its properties

    The development follows the request pipeline of the worker
    (the [app.post('/api/waitlist')] handler and its helper functions):
    body parsing, field normalisation, schema validation, the honeypot
    filter, the per-IP daily rate limiter, metadata assembly and the
    upsert with its [ip_hash] fallback.

    JavaScript strings are sequences of UTF-16 code units, so [length],
    [slice] and [trim] below count and inspect code units exactly as the
    source does. *)

From Stdlib Require Import ZArith NArith List Ascii String Decimal DecimalString Lia Bool.
From stdpp Require Import base option list strings gmap fin_maps.

Import ListNotations.
Local Open Scope Z_scope.
Local Open Scope list_scope.

(** ** JavaScript strings *)

Module JsString.

(** A string is the list of its UTF-16 code units. *)
Definition jsstring : Type := list N.

(** Literals of the source, written as ASCII text. *)
Definition js (s : string) : jsstring :=
  map N_of_ascii (list_ascii_of_string s).

(** [WhiteSpace] and [LineTerminator] code points of ECMAScript, the set
    stripped by [String.prototype.trim] and skipped by [parseInt]. *)
Definition isWhiteSpace (c : N) : bool :=
  ((9 <=? c) && (c <=? 13) || (c =? 32) || (c =? 160) || (c =? 5760)
   || (8192 <=? c) && (c <=? 8202) || (c =? 8232) || (c =? 8233)
   || (c =? 8239) || (c =? 8287) || (c =? 12288) || (c =? 65279))%N.

Fixpoint dropWhile {A} (p : A -> bool) (l : list A) : list A :=
  match l with
  | [] => []
  | x :: l' => if p x then dropWhile p l' else l
  end.

Definition trimStart (s : jsstring) : jsstring := dropWhile isWhiteSpace s.
Definition trimEnd (s : jsstring) : jsstring :=
  rev (dropWhile isWhiteSpace (rev s)).

(** [s.trim()] *)
Definition trim (s : jsstring) : jsstring := trimEnd (trimStart s).

(** [s.slice(0, n)] for a non-negative literal [n]. *)
Definition slice0 (n : nat) (s : jsstring) : jsstring := firstn n s.

Fixpoint startsWith (needle hay : jsstring) : bool :=
  match needle, hay with
  | [], _ => true
  | _ :: _, [] => false
  | a :: needle', b :: hay' => (a =? b)%N && startsWith needle' hay'
  end.

(** [hay.includes(needle)] *)
Fixpoint includes (needle hay : jsstring) : bool :=
  startsWith needle hay ||
  match hay with
  | [] => false
  | _ :: hay' => includes needle hay'
  end.

(** [s.split(',')[0]]: the text before the first comma. *)
Fixpoint beforeComma (s : jsstring) : jsstring :=
  match s with
  | [] => []
  | c :: s' => if (c =? 44)%N then [] else c :: beforeComma s'
  end.

(** Truthiness of a string: non-empty. *)
Definition nonEmpty (s : jsstring) : bool :=
  match s with [] => false | _ => true end.

(** Decimal rendering of a non-negative integer, as [String(n)] gives it
    for integers below 10^21. *)
Definition decimal (z : Z) : jsstring :=
  js (NilEmpty.string_of_uint (N.to_uint (Z.to_N z))).

Definition isDigit (c : N) : bool := ((48 <=? c) && (c <=? 57))%N.

Fixpoint takeWhile {A} (p : A -> bool) (l : list A) : list A :=
  match l with
  | [] => []
  | x :: l' => if p x then x :: takeWhile p l' else []
  end.

(** Value of a run of decimal digits, most significant first. *)
Definition digitsValue (ds : list N) : Z :=
  fold_left (fun acc d => 10 * acc + Z.of_N (d - 48)) ds 0.

End JsString.
Export JsString.

(** ** JavaScript values and the platform *)

(** Values of type [unknown] that reach the handler: what [JSON.parse]
    produces. [num] is the type of JavaScript numbers. An object is the
    list of its own properties in enumeration order. *)
#[warnings="-register-all"]
Inductive json (num : Type) : Type :=
| JNull
| JBool (b : bool)
| JNum (n : num)
| JStr (s : jsstring)
| JArr (items : list (json num))
| JObj (props : list (jsstring * json num)).

Arguments JNull {num}.
Arguments JBool {num} b.
Arguments JNum {num} n.
Arguments JStr {num} s.
Arguments JArr {num} items.
Arguments JObj {num} props.

(** What the worker takes from the JavaScript platform and from the zod
    library rather than from this repository: number arithmetic, the
    format checks of [z.email()] and [z.url()], [JSON.parse],
    [JSON.stringify], [String.prototype.toLowerCase], [TextEncoder] and
    [crypto.subtle.digest('SHA-256', _)]. *)
Class Runtime := {
  num : Type;
  num_of_Z : Z -> num;                        (* an integer literal *)
  num_isFinite : num -> bool;                 (* Number.isFinite *)
  num_isSafeInteger : num -> bool;            (* Number.isSafeInteger *)
  num_trunc : num -> num;                     (* Math.trunc *)
  num_leb : num -> num -> bool;               (* a <= b *)
  Number_of_string : jsstring -> num;         (* Number(s) *)
  String_of_num : num -> jsstring;            (* String(n) *)
  zod_email : jsstring -> bool;               (* format check of z.email() *)
  zod_url : jsstring -> bool;                 (* format check of z.url() *)
  JSON_parse : jsstring -> option (json num); (* None: JSON.parse throws *)
  JSON_stringify : json num -> jsstring;
  toLowerCase : jsstring -> jsstring;
  TextEncoder_encode : jsstring -> list N;    (* UTF-8 bytes *)
  SHA256 : list N -> list N;                  (* digest bytes *)
}.

(** ** Ordinary objects *)

Module Obj.
Section Obj.
Context {V : Type}.

Definition obj : Type := list (jsstring * V).

Definition key_eqb (a b : jsstring) : bool := bool_decide (a = b).

(** [o[k]] for an own property; [None] is [undefined]. *)
Fixpoint get (k : jsstring) (o : obj) : option V :=
  match o with
  | [] => None
  | (k', v) :: o' => if key_eqb k k' then Some v else get k o'
  end.

Definition has (k : jsstring) (o : obj) : bool :=
  match get k o with Some _ => true | None => false end.

Fixpoint replace (k : jsstring) (v : V) (o : obj) : obj :=
  match o with
  | [] => []
  | (k', v') :: o' =>
      if key_eqb k k' then (k', v) :: o' else (k', v') :: replace k v o'
  end.

(** [delete o[k]] *)
Definition delete (k : jsstring) (o : obj) : obj :=
  List.filter (fun kv => negb (key_eqb k (fst kv))) o.

(** An array index is a canonical numeric string below 2^32 - 1; own
    properties with such keys enumerate first, in ascending order. *)
Definition arrayIndex (k : jsstring) : option N :=
  match k with
  | [] => None
  | c :: rest =>
      if forallb isDigit k && (negb (c =? 48)%N || negb (nonEmpty rest)) then
        let n := Z.to_N (digitsValue k) in
        if (n <? 4294967295)%N then Some n else None
      else None
  end.

Fixpoint insertIndexed (i : N) (k : jsstring) (v : V) (o : obj) : obj :=
  match o with
  | [] => [(k, v)]
  | (k', v') :: o' =>
      match arrayIndex k' with
      | Some j => if (j <? i)%N then (k', v') :: insertIndexed i k v o'
                  else (k, v) :: o
      | None => (k, v) :: o
      end
  end.

(** Creation of, or assignment to, the own data property [k]
    (what [Object.fromEntries] does for each entry). *)
Definition define (k : jsstring) (v : V) (o : obj) : obj :=
  if has k o then replace k v o
  else match arrayIndex k with
       | Some i => insertIndexed i k v o
       | None => o ++ [(k, v)]
       end.

End Obj.
Arguments obj V : clear implicits.
End Obj.

Definition proto_key : jsstring := js "__proto__".

(** [o[k] = v] where [v] is a string and [o] was created by an object
    literal: assigning a primitive to ["__proto__"] goes to the inherited
    setter, which ignores it; any other key becomes an own property. *)
Definition assign {V} (k : jsstring) (v : V) (o : Obj.obj V) : Obj.obj V :=
  if Obj.key_eqb k proto_key then o else Obj.define k v o.

(** ** Thrown values *)

(** A thrown value, as far as the handler inspects it: whether it is an
    instance of [Error], and its [message]. *)
Record jserror := { instanceofError : bool; message : jsstring }.

(** ** Helper functions of the worker *)

Section Helpers.
Context `{R : Runtime}.

Abbreviation value := (json num).

(** Property read [v.k] on a value known to be an object or an array.
    None of the names the worker reads is an array index, [length] or an
    inherited property, so on an array every such read is [undefined]. *)
Definition prop (v : value) (k : string) : option value :=
  match v with
  | JObj props => Obj.get (js k) props
  | _ => None
  end.

(** [a ?? b] on values that may be [undefined] or [null]. *)
Definition orElse (a b : option value) : option value :=
  match a with
  | None | Some JNull => b
  | Some _ => a
  end.

Definition isRecord (v : option value) : bool :=
  match v with
  | Some (JObj _) | Some (JArr _) => true
  | _ => false
  end.

Definition toOptionalString (v : option value) : option jsstring :=
  match v with
  | Some (JStr s) =>
      let trimmed := trim s in
      if (0 <? length trimmed)%nat then Some trimmed else None
  | _ => None
  end.

Definition toOptionalNumber (v : option value) : option num :=
  match v with
  | Some (JNum n) => if num_isFinite n then Some n else None
  | Some (JStr s) =>
      if (length (trim s) =? 0)%nat then None
      else let parsed := Number_of_string s in
           if num_isFinite parsed then Some parsed else None
  | _ => None
  end.

Definition toOptionalInteger (v : option value) : option num :=
  match toOptionalNumber v with
  | None => None
  | Some parsed => Some (num_trunc parsed)
  end.

Definition str_eqb (a : jsstring) (b : string) : bool :=
  bool_decide (a = js b).

Definition toOptionalBoolean (v : option value) : option bool :=
  match v with
  | Some (JBool b) => Some b
  | Some (JStr s) =>
      let normalized := toLowerCase (trim s) in
      if str_eqb normalized "true" || str_eqb normalized "1"
         || str_eqb normalized "yes" then Some true
      else if str_eqb normalized "false" || str_eqb normalized "0"
              || str_eqb normalized "no" then Some false
      else None
  | _ => None
  end.

Definition parseMetadata (v : option value) : option value :=
  if isRecord v then v
  else match v with
       | Some (JStr s) =>
           if (length (trim s) =? 0)%nat then None
           else match JSON_parse s with
                | Some parsedValue =>
                    if isRecord (Some parsedValue) then Some parsedValue
                    else None
                | None => None
                end
       | _ => None
       end.

(** The argument that [sanitizeLooseRecord] hands to [toOptionalString]:
    a string as it is, a number through [String], anything else
    [undefined]. *)
Definition looseString (rawValue : value) : option value :=
  match rawValue with
  | JStr s => Some (JStr s)
  | JNum n => Some (JStr (String_of_num n))
  | _ => None
  end.

(** The loop of [sanitizeLooseRecord] over [Object.entries(value)],
    with its [break] at 24 writes and its two [continue]s. *)
Fixpoint sanitizeLoop (entries : list (jsstring * value))
    (output : Obj.obj jsstring) (count : nat) : Obj.obj jsstring :=
  match entries with
  | [] => output
  | (rawKey, rawValue) :: rest =>
      if (24 <=? count)%nat then output
      else
        let key := slice0 64 (trim rawKey) in
        if negb (nonEmpty key) then sanitizeLoop rest output count
        else match toOptionalString (looseString rawValue) with
             | None => sanitizeLoop rest output count
             | Some valueString =>
                 if negb (nonEmpty valueString)
                 then sanitizeLoop rest output count
                 else sanitizeLoop rest
                        (assign key (slice0 1200 valueString) output)
                        (S count)
             end
  end.

Definition sanitizeLooseRecord (v : option (Obj.obj value))
  : Obj.obj jsstring :=
  match v with
  | None => []
  | Some entries => sanitizeLoop entries [] 0
  end.

(** Nearest double of a non-negative integer (ties to even); [None]
    when it overflows to [Infinity]. Below 2^53 nothing is lost. *)
Definition toDouble (z : Z) : option Z :=
  let k := Z.log2 z in
  if k <? 53 then Some z
  else
    let sh := k - 52 in
    let q := z / 2 ^ sh in
    let r := z mod 2 ^ sh in
    let half := 2 ^ (sh - 1) in
    let q' := if (half <? r) || ((r =? half) && Z.odd q) then q + 1 else q in
    let d := q' * 2 ^ sh in
    if d <? 2 ^ 1024 then Some d else None.

(** Result of [Number.parseInt(value, 10)]. *)
Inductive parsed_int := PNaN | PInfinity (negative : bool) | PFinite (z : Z).

Definition parseInt10 (s : jsstring) : parsed_int :=
  let s1 := trimStart s in
  let '(negative, s2) :=
    match s1 with
    | c :: rest => if (c =? 45)%N then (true, rest)
                   else if (c =? 43)%N then (false, rest)
                   else (false, s1)
    | [] => (false, s1)
    end in
  match takeWhile isDigit s2 with
  | [] => PNaN
  | ds => match toDouble (digitsValue ds) with
          | Some d => PFinite (if negative then - d else d)
          | None => PInfinity negative
          end
  end.

Definition parsePositiveInt (v : option jsstring) (fallbackValue : Z) : Z :=
  match v with
  | None => fallbackValue
  | Some s =>
      if negb (nonEmpty s) then fallbackValue
      else match parseInt10 s with
           | PFinite parsedValue =>
               if parsedValue <? 1 then fallbackValue else parsedValue
           | _ => fallbackValue
           end
  end.

(** [Headers] is a map from lower-cased names to values; a missing name
    reads as [null]. *)
Definition getConnectingIp (headers : gmap string jsstring) : jsstring :=
  match headers !! "cf-connecting-ip" with
  | Some ((_ :: _) as connectingIp) => connectingIp
  | _ =>
      match headers !! "x-forwarded-for" with
      | Some ((_ :: _) as forwardedFor) => trim (beforeComma forwardedFor)
      | _ => js "unknown"
      end
  end.

(** *** Instants
    A [Date] is its time value, the milliseconds since the epoch. For
    instants from 1970 to the end of year 9999 the UTC day of [t] starts
    at [t / msPerDay * msPerDay], and [toISOString] yields fixed-width
    text whose order is the order of the instants. *)
Definition msPerDay : Z := 86400000.

Definition utcDay (t : Z) : Z := t / msPerDay.

Definition startOfUtcDay (date : Z) : Z := utcDay date * msPerDay.

Definition endOfUtcDay (date : Z) : Z :=
  startOfUtcDay date + (23 * 3600000 + 59 * 60000 + 59 * 1000 + 999).

(** [Math.ceil(a / b)] for integers [a] and [b > 0]. On the operands met
    here (at most 86400000 over 1000) the double division and the exact
    one have the same ceiling. *)
Definition ceilDiv (a b : Z) : Z := - ((- a) / b).

Definition secondsUntilNextUtcDay (now : Z) : Z :=
  let nextDay := (utcDay now + 1) * msPerDay in
  Z.max 1 (ceilDiv (nextDay - now) 1000).

Definition isIpHashConstraintError (error : jserror) : bool :=
  if negb (instanceofError error) then false
  else includes (js "NOT NULL constraint failed: waitlist_entries.ip_hash")
                (message error).

Definition hexDigit (d : N) : N :=
  (if d <? 10 then 48 + d else 87 + d)%N.

(** [byte.toString(16).padStart(2, '0')] *)
Definition hexByte (b : N) : jsstring :=
  [hexDigit (b / 16)%N; hexDigit (b mod 16)%N].

Definition sha256Hex (input : jsstring) : jsstring :=
  let encodedInput := TextEncoder_encode input in
  let hashBytes := SHA256 encodedInput in
  concat (map hexByte hashBytes).

Definition pickHeaders (headers : gmap string jsstring) (allowed : list string)
  : Obj.obj jsstring :=
  fold_left
    (fun output key =>
       match headers !! key with
       | Some ((_ :: _) as v) => assign (js key) v output
       | _ => output
       end)
    allowed [].

End Helpers.

(** ** Requests, payloads and the schema *)

(** A field of a [FormData]: text, or a file reduced to its name. *)
Inductive FormEntry := FormString (s : jsstring) | FormFile (name : jsstring).

Record URL := {
  href : jsstring;                             (* url.toString() *)
  pathname : jsstring;
  searchParams : list (jsstring * jsstring);   (* in order of appearance *)
}.

Section Pipeline.
Context `{R : Runtime}.

Abbreviation value := (json num).

(** The request as the handler sees it through the Fetch interface.
    [req_json] is the outcome of [request.json()] ([None] when the
    promise rejects) and [req_formData] the outcome of
    [request.formData()], which rejects with a [TypeError] when the body
    cannot be decoded under the declared content type. *)
Record Request := {
  req_method : jsstring;
  req_url : URL;
  req_headers : gmap string jsstring;
  req_cf : option value;
  req_json : option value;
  req_formData : jserror + list (jsstring * FormEntry);
}.

Definition formEntryValue (v : FormEntry) : value :=
  match v with
  | FormString s => JStr s
  | FormFile name => JStr name
  end.

(** [request.headers.get('content-type') ?? ''] *)
Definition contentTypeOf (request : Request) : jsstring :=
  default [] (req_headers request !! "content-type").

Definition parseRequestBody (request : Request) : jserror + value :=
  let contentType := contentTypeOf request in
  if includes (js "application/json") contentType then
    let jsonBody := req_json request in
    inr (if isRecord jsonBody then default (JObj []) jsonBody else JObj [])
  else if includes (js "application/x-www-form-urlencoded") contentType
          || includes (js "multipart/form-data") contentType then
    match req_formData request with
    | inl e => inl e
    | inr formData =>
        inr (JObj (fold_left
                     (fun output kv => assign (fst kv) (formEntryValue (snd kv)) output)
                     formData []))
    end
  else inr (JObj []).

(** The object returned by [normalizePayload]; [None] is [undefined]. *)
Record Normalized := {
  n_email : option jsstring;
  n_qualifier : option jsstring;
  n_useCase : option jsstring;
  n_website : option jsstring;
  n_source : option jsstring;
  n_landingPath : option jsstring;
  n_utmSource : option jsstring;
  n_utmMedium : option jsstring;
  n_utmCampaign : option jsstring;
  n_utmTerm : option jsstring;
  n_utmContent : option jsstring;
  n_locale : option jsstring;
  n_timezone : option jsstring;
  n_timezoneOffsetMinutes : option num;
  n_screen : option jsstring;
  n_viewport : option jsstring;
  n_platform : option jsstring;
  n_colorScheme : option jsstring;
  n_reducedMotion : option jsstring;
  n_cookieEnabled : option bool;
  n_doNotTrack : option jsstring;
  n_deviceMemory : option num;
  n_hardwareConcurrency : option num;
  n_maxTouchPoints : option num;
  n_additionalFields : option value;
  n_metadata : option value;
}.

Definition normalizePayload (raw : value) : Normalized :=
  let metadata := parseMetadata (prop raw "metadata") in
  {| n_email := toOptionalString (prop raw "email");
     n_qualifier := toOptionalString
       (orElse (prop raw "qualifier") (orElse (prop raw "segment") (prop raw "role")));
     n_useCase := toOptionalString
       (orElse (prop raw "useCase") (orElse (prop raw "use_case")
          (orElse (prop raw "intent") (prop raw "description"))));
     n_website := toOptionalString (orElse (prop raw "website") (prop raw "company"));
     n_source := toOptionalString (orElse (prop raw "source") (prop raw "source_url"));
     n_landingPath := toOptionalString
       (orElse (prop raw "landingPath") (prop raw "landing_path"));
     n_utmSource := toOptionalString (orElse (prop raw "utmSource") (prop raw "utm_source"));
     n_utmMedium := toOptionalString (orElse (prop raw "utmMedium") (prop raw "utm_medium"));
     n_utmCampaign := toOptionalString
       (orElse (prop raw "utmCampaign") (prop raw "utm_campaign"));
     n_utmTerm := toOptionalString (orElse (prop raw "utmTerm") (prop raw "utm_term"));
     n_utmContent := toOptionalString
       (orElse (prop raw "utmContent") (prop raw "utm_content"));
     n_locale := toOptionalString (prop raw "locale");
     n_timezone := toOptionalString (prop raw "timezone");
     n_timezoneOffsetMinutes := toOptionalInteger
       (orElse (prop raw "timezoneOffsetMinutes") (prop raw "timezone_offset_minutes"));
     n_screen := toOptionalString (prop raw "screen");
     n_viewport := toOptionalString (prop raw "viewport");
     n_platform := toOptionalString (prop raw "platform");
     n_colorScheme := toOptionalString
       (orElse (prop raw "colorScheme") (prop raw "color_scheme"));
     n_reducedMotion := toOptionalString
       (orElse (prop raw "reducedMotion") (prop raw "reduced_motion"));
     n_cookieEnabled := toOptionalBoolean
       (orElse (prop raw "cookieEnabled") (prop raw "cookie_enabled"));
     n_doNotTrack := toOptionalString
       (orElse (prop raw "doNotTrack") (prop raw "do_not_track"));
     n_deviceMemory := toOptionalNumber
       (orElse (prop raw "deviceMemory") (prop raw "device_memory"));
     n_hardwareConcurrency := toOptionalInteger
       (orElse (prop raw "hardwareConcurrency") (prop raw "hardware_concurrency"));
     n_maxTouchPoints := toOptionalInteger
       (orElse (prop raw "maxTouchPoints") (prop raw "max_touch_points"));
     n_additionalFields := parseMetadata
       (orElse (prop raw "additionalFields")
          (orElse (prop raw "additional_fields") (prop raw "fields")));
     n_metadata := metadata |}.

(** *** The schema [waitlistPayloadSchema]
    Each field parser returns [None] on an issue; [.optional()] lets
    [undefined] through. *)

(** [z.preprocess(trim, z.email().max(320))] *)
Definition zEmail (v : option jsstring) : option jsstring :=
  match v with
  | None => None
  | Some s =>
      let t := trim s in
      if zod_email t && (length t <=? 320)%nat then Some t else None
  end.

(** [z.string().trim().max(n).optional()] *)
Definition zString (n : nat) (v : option jsstring) : option (option jsstring) :=
  match v with
  | None => Some None
  | Some s =>
      let t := trim s in
      if (length t <=? n)%nat then Some (Some t) else None
  end.

(** [z.preprocess(trim, z.url().max(2048)).optional()] *)
Definition zUrl (v : option jsstring) : option (option jsstring) :=
  match v with
  | None => Some None
  | Some s =>
      let t := trim s in
      if zod_url t && (length t <=? 2048)%nat then Some (Some t) else None
  end.

(** [z.number().min(lo).max(hi).optional()] *)
Definition zNumber (lo hi : Z) (v : option num) : option (option num) :=
  match v with
  | None => Some None
  | Some n =>
      if num_isFinite n && num_leb (num_of_Z lo) n && num_leb n (num_of_Z hi)
      then Some (Some n) else None
  end.

(** [z.number().int().min(lo).max(hi).optional()] *)
Definition zInt (lo hi : Z) (v : option num) : option (option num) :=
  match v with
  | None => Some None
  | Some n =>
      if num_isFinite n && num_isSafeInteger n
         && num_leb (num_of_Z lo) n && num_leb n (num_of_Z hi)
      then Some (Some n) else None
  end.

(** [z.enum(literals).optional()] *)
Definition zEnum (literals : list string) (v : option jsstring)
  : option (option jsstring) :=
  match v with
  | None => Some None
  | Some s => if existsb (str_eqb s) literals then Some (Some s) else None
  end.

(** [z.record(z.string(), z.unknown()).optional()]: a plain object
    passes and is copied key by key, the key ["__proto__"] skipped;
    an array is an issue. *)
Definition zRecord (v : option value) : option (option (Obj.obj value)) :=
  match v with
  | None => Some None
  | Some (JObj props) => Some (Some (Obj.delete proto_key props))
  | Some _ => None
  end.

(** [parsedPayload.data] *)
Record Payload := {
  email : jsstring;
  qualifier : option jsstring;
  useCase : option jsstring;
  website : option jsstring;
  source : option jsstring;
  landingPath : option jsstring;
  utmSource : option jsstring;
  utmMedium : option jsstring;
  utmCampaign : option jsstring;
  utmTerm : option jsstring;
  utmContent : option jsstring;
  locale : option jsstring;
  timezone : option jsstring;
  timezoneOffsetMinutes : option num;
  screen : option jsstring;
  viewport : option jsstring;
  platform : option jsstring;
  colorScheme : option jsstring;
  reducedMotion : option jsstring;
  cookieEnabled : option bool;
  doNotTrack : option jsstring;
  deviceMemory : option num;
  hardwareConcurrency : option num;
  maxTouchPoints : option num;
  additionalFields : option (Obj.obj value);
  metadata : option (Obj.obj value);
}.

(** The fields after [email], in the order of the schema. *)
Definition safeParseOthers (n : Normalized) (email : jsstring) : option Payload :=
  qualifier ← zString 80 (n_qualifier n);
  useCase ← zString 1200 (n_useCase n);
  website ← zString 200 (n_website n);
  source ← zUrl (n_source n);
  landingPath ← zString 512 (n_landingPath n);
  utmSource ← zString 120 (n_utmSource n);
  utmMedium ← zString 120 (n_utmMedium n);
  utmCampaign ← zString 120 (n_utmCampaign n);
  utmTerm ← zString 120 (n_utmTerm n);
  utmContent ← zString 120 (n_utmContent n);
  locale ← zString 32 (n_locale n);
  timezone ← zString 64 (n_timezone n);
  timezoneOffsetMinutes ← zInt (-840) 840 (n_timezoneOffsetMinutes n);
  screen ← zString 32 (n_screen n);
  viewport ← zString 32 (n_viewport n);
  platform ← zString 120 (n_platform n);
  colorScheme ← zEnum ["light"; "dark"; "no-preference"]%string (n_colorScheme n);
  reducedMotion ← zEnum ["reduce"; "no-preference"]%string (n_reducedMotion n);
  doNotTrack ← zString 24 (n_doNotTrack n);
  deviceMemory ← zNumber 0 128 (n_deviceMemory n);
  hardwareConcurrency ← zInt 1 256 (n_hardwareConcurrency n);
  maxTouchPoints ← zInt 0 64 (n_maxTouchPoints n);
  additionalFields ← zRecord (n_additionalFields n);
  metadata ← zRecord (n_metadata n);
  Some {| email := email; qualifier := qualifier; useCase := useCase;
          website := website; source := source; landingPath := landingPath;
          utmSource := utmSource; utmMedium := utmMedium;
          utmCampaign := utmCampaign; utmTerm := utmTerm;
          utmContent := utmContent; locale := locale; timezone := timezone;
          timezoneOffsetMinutes := timezoneOffsetMinutes; screen := screen;
          viewport := viewport; platform := platform;
          colorScheme := colorScheme; reducedMotion := reducedMotion;
          cookieEnabled := n_cookieEnabled n; doNotTrack := doNotTrack;
          deviceMemory := deviceMemory;
          hardwareConcurrency := hardwareConcurrency;
          maxTouchPoints := maxTouchPoints;
          additionalFields := additionalFields; metadata := metadata |}.

(** [waitlistPayloadSchema.safeParse(n)]: [None] when [success] is
    false. *)
Definition safeParse (n : Normalized) : option Payload :=
  email ← zEmail (n_email n);
  safeParseOthers n email.

End Pipeline.

(** ** Values bound to statements, responses, handler programs *)

(** A value bound to a statement parameter or held in a column.
    [SqlTime t] stands for the ISO-8601 text [new Date(t).toISOString()];
    the store compares such texts, which orders them as the instants. *)
Inductive sqlvalue (num : Type) :=
| SqlNull
| SqlText (s : jsstring)
| SqlNum (n : num)
| SqlTime (t : Z).

Arguments SqlNull {num}.
Arguments SqlText {num} s.
Arguments SqlNum {num} n.
Arguments SqlTime {num} t.

(** The two [INSERT ... ON CONFLICT(email) DO UPDATE] statements of the
    handler: the one of the [try] block and the one of the [catch] block. *)
Inductive statement := UpsertEntry | UpsertEntryWithIpHash.

(** [c.json(body, status)] with the headers set before it:
    [res_headers] lists the headers that the handler sets itself through
    [c.header]. The [Content-Type] that [c.json] puts on every answer is
    the framework's and is not listed. *)
Record Response := {
  res_status : Z;
  res_headers : list (string * jsstring);
  body_ok : bool;
  body_error : option string;
  body_message : string;
}.

(** The handler as a program over the store: it returns, throws, or
    issues a statement and continues with the store's outcome. *)
Inductive prog (num A : Type) : Type :=
| Ret (a : A)
| Throw (e : jserror)
| CountEntries (ipAddress : jsstring) (dayStart dayEnd : Z)
    (k : jserror + option Z -> prog num A)
| Run (s : statement) (values : list (sqlvalue num))
    (k : jserror + unit -> prog num A).

Arguments Ret {num A} a.
Arguments Throw {num A} e.
Arguments CountEntries {num A} ipAddress dayStart dayEnd k.
Arguments Run {num A} s values k.

(** [env]: the binding read by the handler. *)
Record Bindings := { WAITLIST_RATE_LIMIT_PER_DAY : option jsstring }.

Section Handler.
Context `{R : Runtime}.

Abbreviation value := (json num).
Abbreviation sqlv := (sqlvalue num).

Record CfSnapshot := {
  cf_country : option jsstring;
  cf_region : option jsstring;
  cf_regionCode : option jsstring;
  cf_city : option jsstring;
  cf_postalCode : option jsstring;
  cf_continent : option jsstring;
  cf_timezone : option jsstring;
  cf_colo : option jsstring;
  cf_asn : option num;
  cf_asOrganization : option jsstring;
  cf_latitude : option num;
  cf_longitude : option num;
  cf_metroCode : option jsstring;
  cf_botScore : option num;
  cf_tlsVersion : option jsstring;
  cf_httpProtocol : option jsstring;
}.

Definition readCfString (input : option value) (key : string) : option jsstring :=
  match input with
  | None => None
  | Some o =>
      match prop o key with
      | Some (JStr ((_ :: _) as s)) => Some s
      | _ => None
      end
  end.

Definition readCfFloat (input : option value) (key : string) : option num :=
  match input with
  | None => None
  | Some o =>
      match prop o key with
      | Some (JNum n) => if num_isFinite n then Some n else None
      | Some (JStr s) =>
          if (0 <? length (trim s))%nat then
            let parsed := Number_of_string s in
            if num_isFinite parsed then Some parsed else None
          else None
      | _ => None
      end
  end.

Definition readCfInteger (input : option value) (key : string) : option num :=
  match readCfFloat input key with
  | None => None
  | Some v => Some (num_trunc v)
  end.

Definition getCfSnapshot (request : Request) : CfSnapshot :=
  let cf := req_cf request in
  let bm := match cf with Some o => prop o "botManagement" | None => None end in
  let botManagement := if isRecord bm then bm else None in
  {| cf_country := readCfString cf "country";
     cf_region := readCfString cf "region";
     cf_regionCode := readCfString cf "regionCode";
     cf_city := readCfString cf "city";
     cf_postalCode := readCfString cf "postalCode";
     cf_continent := readCfString cf "continent";
     cf_timezone := readCfString cf "timezone";
     cf_colo := readCfString cf "colo";
     cf_asn := readCfInteger cf "asn";
     cf_asOrganization := readCfString cf "asOrganization";
     cf_latitude := readCfFloat cf "latitude";
     cf_longitude := readCfFloat cf "longitude";
     cf_metroCode := readCfString cf "metroCode";
     cf_botScore := readCfInteger botManagement "score";
     cf_tlsVersion := readCfString cf "tlsVersion";
     cf_httpProtocol := readCfString cf "httpProtocol" |}.

(** [x ?? null] inside an object literal. *)
Definition jstr (s : option jsstring) : value :=
  match s with Some s => JStr s | None => JNull end.
Definition jnum (n : option num) : value :=
  match n with Some n => JNum n | None => JNull end.
Definition jbool (b : option bool) : value :=
  match b with Some b => JBool b | None => JNull end.

(** [x ?? null] among the bound values. *)
Definition text (s : option jsstring) : sqlv :=
  match s with Some s => SqlText s | None => SqlNull end.
Definition number (n : option num) : sqlv :=
  match n with Some n => SqlNum n | None => SqlNull end.

Definition strings (o : Obj.obj jsstring) : value :=
  JObj (map (fun kv => (fst kv, JStr (snd kv))) o).

(** [Object.fromEntries(requestUrl.searchParams.entries())] *)
Definition fromEntries (entries : list (jsstring * jsstring)) : Obj.obj jsstring :=
  fold_left (fun o kv => Obj.define (fst kv) (snd kv) o) entries [].

Definition allowedHeaders : list string :=
  ["accept"; "accept-encoding"; "accept-language"; "origin"; "host";
   "priority"; "sec-ch-ua"; "sec-ch-ua-mobile"; "sec-ch-ua-platform";
   "sec-fetch-dest"; "sec-fetch-mode"; "sec-fetch-site"; "user-agent";
   "x-forwarded-proto"]%string.

(** [sanitizeLooseRecord(payload.additionalFields)] followed by
    [delete additionalFields.useCase]. *)
Definition sanitizedAdditionalFields (payload : Payload) : Obj.obj jsstring :=
  Obj.delete (js "useCase") (sanitizeLooseRecord (additionalFields payload)).

Definition resolvedSource (payload : Payload) (requestUrl : URL) : jsstring :=
  default (href requestUrl) (source payload).

Definition buildMetadata (c : Request) (payload : Payload)
    (cfSnapshot : CfSnapshot) : value :=
  let requestUrl := req_url c in
  let hdr := req_headers c in
  JObj [
    (js "provided", JObj (default [] (metadata payload)));
    (js "additionalFields", strings (sanitizedAdditionalFields payload));
    (js "request", JObj [
       (js "method", JStr (req_method c));
       (js "path", JStr (pathname requestUrl));
       (js "query", strings (fromEntries (searchParams requestUrl)));
       (js "source", JStr (resolvedSource payload requestUrl));
       (js "cfRay", jstr (hdr !! "cf-ray")) ]);
    (js "client", JObj [
       (js "locale", jstr (locale payload));
       (js "timezone", jstr (timezone payload));
       (js "timezoneOffsetMinutes", jnum (timezoneOffsetMinutes payload));
       (js "screen", jstr (screen payload));
       (js "viewport", jstr (viewport payload));
       (js "platform", jstr (platform payload));
       (js "colorScheme", jstr (colorScheme payload));
       (js "reducedMotion", jstr (reducedMotion payload));
       (js "cookieEnabled", jbool (cookieEnabled payload));
       (js "doNotTrack", jstr (doNotTrack payload));
       (js "deviceMemory", jnum (deviceMemory payload));
       (js "hardwareConcurrency", jnum (hardwareConcurrency payload));
       (js "maxTouchPoints", jnum (maxTouchPoints payload));
       (js "referrer", jstr (hdr !! "referer")) ]);
    (js "headers", strings (pickHeaders hdr allowedHeaders));
    (js "cloudflare", JObj [
       (js "country", jstr (cf_country cfSnapshot));
       (js "region", jstr (cf_region cfSnapshot));
       (js "regionCode", jstr (cf_regionCode cfSnapshot));
       (js "city", jstr (cf_city cfSnapshot));
       (js "postalCode", jstr (cf_postalCode cfSnapshot));
       (js "continent", jstr (cf_continent cfSnapshot));
       (js "timezone", jstr (cf_timezone cfSnapshot));
       (js "colo", jstr (cf_colo cfSnapshot));
       (js "asn", jnum (cf_asn cfSnapshot));
       (js "asOrganization", jstr (cf_asOrganization cfSnapshot));
       (js "latitude", jnum (cf_latitude cfSnapshot));
       (js "longitude", jnum (cf_longitude cfSnapshot));
       (js "metroCode", jstr (cf_metroCode cfSnapshot));
       (js "botScore", jnum (cf_botScore cfSnapshot));
       (js "tlsVersion", jstr (cf_tlsVersion cfSnapshot));
       (js "httpProtocol", jstr (cf_httpProtocol cfSnapshot)) ]) ].

(** The array [upsertValues], bound to [?1 .. ?47]. *)
Definition upsertValues (c : Request) (payload : Payload) (now : Z) : list sqlv :=
  let requestUrl := req_url c in
  let hdr := req_headers c in
  let cfSnapshot := getCfSnapshot c in
  [ SqlText (toLowerCase (email payload));
    text (qualifier payload);
    text (useCase payload);
    SqlText (resolvedSource payload requestUrl);
    SqlText (default (pathname requestUrl) (landingPath payload));
    SqlText (getConnectingIp hdr);
    text (hdr !! "user-agent");
    text (hdr !! "referer");
    text (hdr !! "accept-language");
    text (hdr !! "origin");
    text (hdr !! "host");
    text (screen payload);
    text (viewport payload);
    text (platform payload);
    text (timezone payload);
    number (timezoneOffsetMinutes payload);
    text (colorScheme payload);
    text (reducedMotion payload);
    match cookieEnabled payload with
    | None => SqlNull
    | Some b => SqlNum (num_of_Z (if b then 1 else 0))
    end;
    text (doNotTrack payload);
    number (deviceMemory payload);
    number (hardwareConcurrency payload);
    number (maxTouchPoints payload);
    text (cf_country cfSnapshot);
    text (cf_region cfSnapshot);
    text (cf_regionCode cfSnapshot);
    text (cf_city cfSnapshot);
    text (cf_postalCode cfSnapshot);
    text (cf_continent cfSnapshot);
    text (cf_timezone cfSnapshot);
    text (cf_colo cfSnapshot);
    number (cf_asn cfSnapshot);
    text (cf_asOrganization cfSnapshot);
    number (cf_latitude cfSnapshot);
    number (cf_longitude cfSnapshot);
    text (cf_metroCode cfSnapshot);
    number (cf_botScore cfSnapshot);
    text (cf_tlsVersion cfSnapshot);
    text (cf_httpProtocol cfSnapshot);
    text (utmSource payload);
    text (utmMedium payload);
    text (utmCampaign payload);
    text (utmTerm payload);
    text (utmContent payload);
    SqlText (JSON_stringify (buildMetadata c payload cfSnapshot));
    SqlTime now;
    SqlTime now ].

(** [[...upsertValues.slice(0, 5), await sha256Hex(ipAddress),
     ...upsertValues.slice(5)]] *)
Definition upsertValuesWithIpHash (values : list sqlv) (ipAddress : jsstring)
  : list sqlv :=
  firstn 5 values ++ [SqlText (sha256Hex ipAddress)] ++ skipn 5 values.

Definition invalidPayload : Response :=
  {| res_status := 400; res_headers := [];
     body_ok := false; body_error := Some "invalid_payload"%string;
     body_message := "Please submit a valid email address." |}.

Definition thanks : Response :=
  {| res_status := 200; res_headers := [];
     body_ok := true; body_error := None;
     body_message := "Thanks for your interest." |}.

Definition rateLimited (retryAfterSeconds : Z) : Response :=
  {| res_status := 429;
     res_headers := [("Retry-After"%string, decimal retryAfterSeconds)];
     body_ok := false; body_error := Some "rate_limited"%string;
     body_message := "Rate limit reached. Please try again tomorrow." |}.

Definition onWaitlist : Response :=
  {| res_status := 201; res_headers := [];
     body_ok := true; body_error := None;
     body_message := "You are on the waitlist." |}.

(** [payload.website && payload.website.length > 0] *)
Definition honeypot (payload : Payload) : bool :=
  match website payload with
  | Some (_ :: _) => true
  | _ => false
  end.

(** The [try]/[catch] around the upsert. *)
Definition writeEntry (values : list sqlv) (ipAddress : jsstring)
  : prog num Response :=
  Run UpsertEntry values (fun outcome =>
    match outcome with
    | inr _ => Ret onWaitlist
    | inl error =>
        if negb (isIpHashConstraintError error) then Throw error
        else
          Run UpsertEntryWithIpHash (upsertValuesWithIpHash values ipAddress)
            (fun outcome' =>
               match outcome' with
               | inr _ => Ret onWaitlist
               | inl error' => Throw error'
               end)
    end).

(** What follows the honeypot check, for a parsed payload. *)
Definition submit (env : Bindings) (c : Request) (now : Z) (payload : Payload)
  : prog num Response :=
  let rateLimitPerDay := parsePositiveInt (WAITLIST_RATE_LIMIT_PER_DAY env) 10 in
  let dayStart := startOfUtcDay now in
  let dayEnd := endOfUtcDay now in
  let ipAddress := getConnectingIp (req_headers c) in
  CountEntries ipAddress dayStart dayEnd (fun outcome =>
    match outcome with
    | inl error => Throw error
    | inr rateRow =>
        let submissionCount := default 0 rateRow in
        if rateLimitPerDay <=? submissionCount then
          Ret (rateLimited (secondsUntilNextUtcDay now))
        else writeEntry (upsertValues c payload now) ipAddress
    end).

(** [app.post('/api/waitlist', ...)], for a request received at [now]. *)
Definition postWaitlist (env : Bindings) (c : Request) (now : Z)
  : prog num Response :=
  match parseRequestBody c with
  | inl error => Throw error
  | inr rawPayload =>
      let normalizedPayload := normalizePayload rawPayload in
      match safeParse normalizedPayload with
      | None => Ret invalidPayload
      | Some payload =>
          if honeypot payload then Ret thanks
          else submit env c now payload
      end
  end.

End Handler.

(** ** The store: table [waitlist_entries] *)

(** Columns of the statement of the [try] block, in the order of its
    [INSERT] list. *)
Definition insertColumnsPlain : list string :=
  [ "email"; "qualifier"; "use_case"; "source_url"; "landing_path";
    "ip_address"; "user_agent"; "referrer"; "accept_language"; "origin";
    "host"; "screen_size"; "viewport_size"; "platform"; "timezone";
    "timezone_offset_minutes"; "color_scheme"; "reduced_motion";
    "cookie_enabled"; "do_not_track"; "device_memory_gb";
    "hardware_concurrency"; "max_touch_points"; "cf_country"; "cf_region";
    "cf_region_code"; "cf_city"; "cf_postal_code"; "cf_continent";
    "cf_timezone"; "cf_colo"; "cf_asn"; "cf_as_organization"; "cf_latitude";
    "cf_longitude"; "cf_metro_code"; "cf_bot_score"; "cf_tls_version";
    "cf_http_protocol"; "utm_source"; "utm_medium"; "utm_campaign";
    "utm_term"; "utm_content"; "metadata_json"; "created_at"; "updated_at"
  ]%string.

(** Columns assigned by its [DO UPDATE SET] list. *)
Definition updateColumnsPlain : list string :=
  [ "qualifier"; "use_case"; "source_url"; "landing_path";
    "ip_address"; "user_agent"; "referrer"; "accept_language"; "origin";
    "host"; "screen_size"; "viewport_size"; "platform"; "timezone";
    "timezone_offset_minutes"; "color_scheme"; "reduced_motion";
    "cookie_enabled"; "do_not_track"; "device_memory_gb";
    "hardware_concurrency"; "max_touch_points"; "cf_country"; "cf_region";
    "cf_region_code"; "cf_city"; "cf_postal_code"; "cf_continent";
    "cf_timezone"; "cf_colo"; "cf_asn"; "cf_as_organization"; "cf_latitude";
    "cf_longitude"; "cf_metro_code"; "cf_bot_score"; "cf_tls_version";
    "cf_http_protocol"; "utm_source"; "utm_medium"; "utm_campaign";
    "utm_term"; "utm_content"; "metadata_json"; "updated_at"
  ]%string.

(** Columns of the statement of the [catch] block, in the order of its
    [INSERT] list. *)
Definition insertColumnsWithIpHash : list string :=
  [
    "email"; "qualifier"; "use_case"; "source_url"; "landing_path"; "ip_hash";
    "ip_address"; "user_agent"; "referrer"; "accept_language"; "origin";
    "host"; "screen_size"; "viewport_size"; "platform"; "timezone";
    "timezone_offset_minutes"; "color_scheme"; "reduced_motion";
    "cookie_enabled"; "do_not_track"; "device_memory_gb";
    "hardware_concurrency"; "max_touch_points"; "cf_country"; "cf_region";
    "cf_region_code"; "cf_city"; "cf_postal_code"; "cf_continent";
    "cf_timezone"; "cf_colo"; "cf_asn"; "cf_as_organization"; "cf_latitude";
    "cf_longitude"; "cf_metro_code"; "cf_bot_score"; "cf_tls_version";
    "cf_http_protocol"; "utm_source"; "utm_medium"; "utm_campaign";
    "utm_term"; "utm_content"; "metadata_json"; "created_at"; "updated_at"
  ]%string.

(** Columns assigned by its [DO UPDATE SET] list. *)
Definition updateColumnsWithIpHash : list string :=
  [
    "qualifier"; "use_case"; "source_url"; "landing_path"; "ip_hash";
    "ip_address"; "user_agent"; "referrer"; "accept_language"; "origin";
    "host"; "screen_size"; "viewport_size"; "platform"; "timezone";
    "timezone_offset_minutes"; "color_scheme"; "reduced_motion";
    "cookie_enabled"; "do_not_track"; "device_memory_gb";
    "hardware_concurrency"; "max_touch_points"; "cf_country"; "cf_region";
    "cf_region_code"; "cf_city"; "cf_postal_code"; "cf_continent";
    "cf_timezone"; "cf_colo"; "cf_asn"; "cf_as_organization"; "cf_latitude";
    "cf_longitude"; "cf_metro_code"; "cf_bot_score"; "cf_tls_version";
    "cf_http_protocol"; "utm_source"; "utm_medium"; "utm_campaign";
    "utm_term"; "utm_content"; "metadata_json"; "updated_at"
  ]%string.

Definition insertColumns (s : statement) : list string :=
  match s with
  | UpsertEntry => insertColumnsPlain
  | UpsertEntryWithIpHash => insertColumnsWithIpHash
  end.

Definition updateColumns (s : statement) : list string :=
  match s with
  | UpsertEntry => updateColumnsPlain
  | UpsertEntryWithIpHash => updateColumnsWithIpHash
  end.

(** Shape of the table: the one of [migrations/0001_initial.sql], which
    has no [ip_hash] column, or the earlier one in which [ip_hash] is
    [NOT NULL] without a default. *)
Inductive generation := Current | LegacyIpHash.

(** Columns of the table besides [id]: those of the migration, and
    [ip_hash] on the earlier shape. *)
Definition tableColumns (g : generation) : list string :=
  match g with
  | Current => insertColumnsPlain
  | LegacyIpHash => "ip_hash"%string :: insertColumnsPlain
  end.


Section Store.
Context `{R : Runtime}.

Abbreviation sqlv := (sqlvalue num).

(** A row maps column names to values; a column without entry is NULL.
    The [id] column, which no statement of the handler reads or
    writes, is left out. *)
Record Table := {
  shape : generation;
  rows : list (gmap string sqlv);
}.

Definition rowEmail (r : gmap string sqlv) : option jsstring :=
  match r !! "email" with
  | Some (SqlText e) => Some e
  | _ => None
  end.

Definition hasEmail (e : jsstring) (r : gmap string sqlv) : bool :=
  bool_decide (rowEmail r = Some e).

Definition isNull (v : option sqlv) : bool :=
  match v with
  | None | Some SqlNull => true
  | _ => false
  end.

(** [WHERE ip_address = ?1 AND created_at >= ?2 AND created_at <= ?3] *)
Definition inWindow (ipAddress : jsstring) (dayStart dayEnd : Z)
    (r : gmap string sqlv) : bool :=
  match r !! "ip_address", r !! "created_at" with
  | Some (SqlText a), Some (SqlTime t) =>
      bool_decide (a = ipAddress) && (dayStart <=? t) && (t <=? dayEnd)
  | _, _ => false
  end.

(** [SELECT COUNT( * ) AS count FROM waitlist_entries WHERE ...] *)
Definition countEntries (ipAddress : jsstring) (dayStart dayEnd : Z)
    (db : Table) : Z :=
  Z.of_nat (length (List.filter (inWindow ipAddress dayStart dayEnd) (rows db))).

(** [NOT NULL] columns that have no default to fall back on. *)
Definition requiredColumns (g : generation) : list string :=
  match g with
  | Current => ["email"; "created_at"; "updated_at"]%string
  | LegacyIpHash => ["email"; "ip_hash"; "created_at"; "updated_at"]%string
  end.

Definition storeError (text : string) : jserror :=
  {| instanceofError := true; message := js text |}.

Definition notNullFailure (column : string) : jserror :=
  storeError ("D1_ERROR: NOT NULL constraint failed: waitlist_entries."
              ++ column ++ ": SQLITE_CONSTRAINT").

Definition noSuchColumn (column : string) : jserror :=
  storeError ("D1_ERROR: table waitlist_entries has no column named "
              ++ column ++ ": SQLITE_ERROR").

(** The row proposed by [INSERT (columns) VALUES (?1, ...)]:
    [excluded] in the [DO UPDATE] clause. *)
Definition bindRow (columns : list string) (values : list sqlv)
  : gmap string sqlv :=
  list_to_map (zip columns values).

(** [DO UPDATE SET c = excluded.c] for each listed column. *)
Definition applyUpdate (columns : list string)
    (excluded old : gmap string sqlv) : gmap string sqlv :=
  fold_right (fun c r => partial_alter (fun _ => excluded !! c) c r)
    old columns.

Definition upsertRows (s : statement) (excluded : gmap string sqlv)
    (table : list (gmap string sqlv)) : list (gmap string sqlv) :=
  match rowEmail excluded with
  | Some e =>
      if existsb (hasEmail e) table
      then map (fun r => if hasEmail e r
                         then applyUpdate (updateColumns s) excluded r
                         else r) table
      else table ++ [excluded]
  | None => table ++ [excluded]
  end.

(** One [prepare(...).bind(...).run()]: the statement is refused when it
    names a column the table lacks, then the [NOT NULL] constraints are
    checked, then the row is inserted or, on a conflicting [email],
    updated. *)
Definition runStatement (s : statement) (values : list sqlv) (db : Table)
  : (jserror + unit) * Table :=
  let excluded := bindRow (insertColumns s) values in
  match shape db, s with
  | Current, UpsertEntryWithIpHash => (inl (noSuchColumn "ip_hash"), db)
  | g, _ =>
      match List.filter (fun c => isNull (excluded !! c)) (requiredColumns g) with
      | c :: _ => (inl (notNullFailure c), db)
      | [] => (inr tt, {| shape := g; rows := upsertRows s excluded (rows db) |})
      end
  end.

(** Running a handler program against the table. *)
Fixpoint exec {A} (p : prog num A) (db : Table) : (jserror + A) * Table :=
  match p with
  | Ret a => (inr a, db)
  | Throw e => (inl e, db)
  | CountEntries ipAddress dayStart dayEnd k =>
      exec (k (inr (Some (countEntries ipAddress dayStart dayEnd db)))) db
  | Run s values k =>
      let '(outcome, db') := runStatement s values db in
      exec (k outcome) db'
  end.

(** The statements a program issues, in order, when the store answers
    as [db] does. *)
Fixpoint statementsRun {A} (p : prog num A) (db : Table) : list statement :=
  match p with
  | Ret _ | Throw _ => []
  | CountEntries ipAddress dayStart dayEnd k =>
      statementsRun (k (inr (Some (countEntries ipAddress dayStart dayEnd db)))) db
  | Run s values k =>
      let '(outcome, db') := runStatement s values db in
      s :: statementsRun (k outcome) db'
  end.

(** Running a program against an arbitrary store: the count query is
    answered by [count] and the [i]-th statement issued by [answers i].
    The result comes with the statements issued, in order, each with the
    values bound to it. *)
Fixpoint attempts {A} (count : jserror + option Z)
    (answers : nat -> jserror + unit) (i : nat) (p : prog num A)
  : (jserror + A) * list (statement * list sqlv) :=
  match p with
  | Ret a => (inr a, [])
  | Throw e => (inl e, [])
  | CountEntries _ _ _ k => attempts count answers i (k count)
  | Run s values k =>
      let '(outcome, issued) := attempts count answers (S i) (k (answers i)) in
      (outcome, (s, values) :: issued)
  end.

End Store.

(** ** A small runtime to evaluate the handler on examples

    Numbers are integers, an address is accepted when it has characters
    on both sides of a single [@], a URL when it starts with [http],
    lower-casing is ASCII, and the digest is a fixed 32-byte block. *)
Module Sample.

Definition lowerAscii (c : N) : N :=
  (if (65 <=? c) && (c <=? 90) then c + 32 else c)%N.

Definition simpleEmail (s : jsstring) : bool :=
  match takeWhile (fun c => negb (c =? 64)%N) s,
        dropWhile (fun c => negb (c =? 64)%N) s with
  | _ :: _, _ :: ((_ :: _) as domain) => forallb (fun c => negb (c =? 64)%N) domain
  | _, _ => false
  end.

#[global] Instance runtime : Runtime := {|
  num := Z;
  num_of_Z := fun z => z;
  num_isFinite := fun _ => true;
  num_isSafeInteger := fun _ => true;
  num_trunc := fun z => z;
  num_leb := Z.leb;
  Number_of_string := fun s => digitsValue (takeWhile isDigit s);
  String_of_num := decimal;
  zod_email := simpleEmail;
  zod_url := startsWith (js "http");
  JSON_parse := fun _ => None;
  JSON_stringify := fun _ => js "{}";
  toLowerCase := map lowerAscii;
  TextEncoder_encode := fun s => s;
  SHA256 := fun _ => repeat 0%N 32;
|}.

Definition jsonRequest (body : json Z) (ip : string) : Request :=
  {| req_method := js "POST";
     req_url := {| href := js "https://example.com/api/waitlist";
                   pathname := js "/api/waitlist";
                   searchParams := [] |};
     req_headers := {[ "content-type"%string := js "application/json";
                       "cf-connecting-ip"%string := js ip ]};
     req_cf := None;
     req_json := Some body;
     req_formData := inl {| instanceofError := true; message := js "TypeError" |} |}.

Definition emptyTable (g : generation) : Table := {| shape := g; rows := [] |}.

Definition env (limit : option string) : Bindings :=
  {| WAITLIST_RATE_LIMIT_PER_DAY := js <$> limit |}.

(** 2024-01-01T12:00:00.000Z *)
Definition noon : Z := 1704110400000.

(** The raw body and the parsed payload of a request that passes
    validation. *)
Definition bodyOf (c : Request) : json Z :=
  match parseRequestBody c with
  | inr raw => raw
  | inl _ => JNull
  end.

Definition blank : Payload :=
  Build_Payload [] None None None None None None None None None None None
    None None None None None None None None None None None None None None.

Definition payloadOf (c : Request) : Payload :=
  default blank (safeParse (normalizePayload (bodyOf c))).

Definition signup (address : string) : Request :=
  jsonRequest (JObj [(js "email", JStr (js address))]) "1.2.3.4".

(** A body that fills the honeypot and gives no email. *)
Definition honeypotOnly : Request :=
  jsonRequest (JObj [(js "website", JStr (js "http://spam.example"))]) "1.2.3.4".

(** A body that fills the honeypot and gives a valid email. *)
Definition honeypotFilled : Request :=
  jsonRequest (JObj [(js "email", JStr (js "bot@spam.example"));
                     (js "company", JStr (js " Spam Inc "))]) "1.2.3.4".

(** A body declared as multipart without a boundary: [formData()]
    rejects with a [TypeError]. *)
Definition typeError : jserror :=
  {| instanceofError := true;
     message := js "No boundary string in Content-Type header." |}.

Definition malformedForm : Request :=
  {| req_method := js "POST";
     req_url := {| href := js "https://example.com/api/waitlist";
                   pathname := js "/api/waitlist";
                   searchParams := [] |};
     req_headers := {[ "content-type"%string := js "multipart/form-data" ]};
     req_cf := None;
     req_json := None;
     req_formData := inl typeError |}.

(** An address of 320 characters. *)
Definition longAddress : jsstring := repeat 97%N 314 ++ js "@b.com".

Definition longSignup : Request :=
  jsonRequest (JObj [(js "email", JStr longAddress)]) "1.2.3.4".

(** Answers of a store that refuses the first statement for the missing
    [ip_hash] and accepts the next. *)
Definition legacyAnswers (i : nat) : jserror + unit :=
  match i with
  | O => inl (notNullFailure "ip_hash")
  | _ => inr tt
  end.

(** The submission of the README: a team size among the additional
    fields, here with a stray use case beside it. *)
Definition teamSizeSignup : Request :=
  jsonRequest
    (JObj [(js "email", JStr (js "a@b.com"));
           (js "additionalFields",
            JObj [(js "teamSize", JStr (js "3-10"));
                  (js "useCase", JStr (js "billing"))])])
    "1.2.3.4".

Definition teamSizeOnly : Payload :=
  Build_Payload (js "a@b.com") None None None None None None None None None
    None None None None None None None None None None None None None None
    (Some [(js "teamSize", JStr (js "3-10"))]) None.

(** A form-encoded submission under legacy field names. *)
Definition formSignup : Request :=
  {| req_method := js "POST";
     req_url := {| href := js "https://example.com/api/waitlist?ref=hn";
                   pathname := js "/api/waitlist";
                   searchParams := [(js "ref", js "hn")] |};
     req_headers := {[ "content-type"%string := js "application/x-www-form-urlencoded";
                       "x-forwarded-for"%string := js " 9.9.9.9 , 10.0.0.1";
                       "user-agent"%string := js "curl/8" ]};
     req_cf := Some (JObj [(js "country", JStr (js "BE"));
                           (js "asn", JNum 64512);
                           (js "botManagement", JObj [(js "score", JStr (js "30"))])]);
     req_json := None;
     req_formData := inr [(js "email", FormString (js "  Jo@Example.COM "));
                          (js "role", FormString (js "founder_exec"));
                          (js "cookie_enabled", FormString (js "YES"));
                          (js "landing_path", FormString (js "/pricing"))] |}.



(** Answers of a store that refuses the first statement for a column
    whose name begins like [ip_hash], and accepts the next. *)
Definition lookalikeAnswers (i : nat) : jserror + unit :=
  match i with
  | O => inl (notNullFailure "ip_hash_v2")
  | _ => inr tt
  end.

(** The table after one more submission from 1.2.3.4 at noon. *)
Definition submitted (db : Table) (address : string) : Table :=
  (exec (postWaitlist (env None) (signup address) noon) db).2.

(** The table after ten submissions of distinct addresses from 1.2.3.4
    at noon, under the default ceiling. *)
Definition tenEntries : Table :=
  fold_left submitted
    ["a0@x.io"; "a1@x.io"; "a2@x.io"; "a3@x.io"; "a4@x.io";
     "a5@x.io"; "a6@x.io"; "a7@x.io"; "a8@x.io"; "a9@x.io"]%string
    (emptyTable Current).

End Sample.

(** The HTTP status a run ends with; [None] when the handler throws. *)
Definition statusOf {A} (outcome : (jserror + Response) * A) : option Z :=
  match outcome.1 with
  | inr response => Some (res_status response)
  | inl _ => None
  end.

(** ** Reading of the rate-limit rule by calendar day *)

Section Window.
Context `{R : Runtime}.

(** The entries whose [ip_address] is the given one and whose
    [created_at] falls on the given UTC calendar day. *)
Definition onUtcDay (ipAddress : jsstring) (day : Z)
    (r : gmap string (sqlvalue num)) : bool :=
  match r !! "ip_address", r !! "created_at" with
  | Some (SqlText a), Some (SqlTime t) =>
      bool_decide (a = ipAddress) && (utcDay t =? day)
  | _, _ => false
  end.

Definition entriesOnUtcDay (ipAddress : jsstring) (day : Z) (db : Table) : Z :=
  Z.of_nat (length (List.filter (onUtcDay ipAddress day) (rows db))).

End Window.

(** ** The row a submission writes *)

Section Entry.
Context `{R : Runtime}.

(** The daily ceiling read from the binding. *)
Definition ceiling (env : Bindings) : Z :=
  parsePositiveInt (WAITLIST_RATE_LIMIT_PER_DAY env) 10.

(** The statement that a table of the given shape accepts. *)
Definition acceptedStatement (g : generation) : statement :=
  match g with
  | Current => UpsertEntry
  | LegacyIpHash => UpsertEntryWithIpHash
  end.

(** The values bound to it. *)
Definition entryValues (g : generation) (c : Request) (payload : Payload)
    (now : Z) : list (sqlvalue num) :=
  match g with
  | Current => upsertValues c payload now
  | LegacyIpHash =>
      upsertValuesWithIpHash (upsertValues c payload now)
        (getConnectingIp (req_headers c))
  end.

(** The proposed row, [excluded] in the update clause. *)
Definition entryRow (g : generation) (c : Request) (payload : Payload)
    (now : Z) : gmap string (sqlvalue num) :=
  bindRow (insertColumns (acceptedStatement g)) (entryValues g c payload now).

End Entry.

(** ** Reading of the configured ceiling *)

(** The text begins with no decimal digit. *)
Definition noDigitAhead (s : jsstring) : bool :=
  match s with
  | [] => true
  | c :: _ => negb (isDigit c)
  end.

(** The leading decimal integer of a configured text: white space, an
    optional sign, then the longest run of digits; whatever follows the
    digits is ignored. [None] when the variable is unset or no digit
    stands in that place. *)
Inductive leadingInteger : option jsstring -> option Z -> Prop :=
| leading_unset : leadingInteger None None
| leading_blank ws :
    forallb isWhiteSpace ws = true ->
    leadingInteger (Some ws) None
| leading_other ws c rest :
    forallb isWhiteSpace ws = true ->
    isWhiteSpace c = false -> isDigit c = false -> c <> 43%N -> c <> 45%N ->
    leadingInteger (Some (ws ++ c :: rest)) None
| leading_sign ws sign rest :
    forallb isWhiteSpace ws = true ->
    sign = 43%N \/ sign = 45%N -> noDigitAhead rest = true ->
    leadingInteger (Some (ws ++ sign :: rest)) None
| leading_digits ws digits rest :
    forallb isWhiteSpace ws = true ->
    digits <> [] -> forallb isDigit digits = true -> noDigitAhead rest = true ->
    leadingInteger (Some (ws ++ digits ++ rest)) (Some (digitsValue digits))
| leading_plus ws digits rest :
    forallb isWhiteSpace ws = true ->
    digits <> [] -> forallb isDigit digits = true -> noDigitAhead rest = true ->
    leadingInteger (Some (ws ++ 43%N :: digits ++ rest)) (Some (digitsValue digits))
| leading_minus ws digits rest :
    forallb isWhiteSpace ws = true ->
    digits <> [] -> forallb isDigit digits = true -> noDigitAhead rest = true ->
    leadingInteger (Some (ws ++ 45%N :: digits ++ rest)) (Some (- digitsValue digits)).

(** A numeric text in the everyday sense: an optional sign and decimal
    digits, with an optional fraction, and nothing else around them but
    white space. *)
Definition numericText (s : jsstring) : bool :=
  let t := trim s in
  let unsigned :=
    match t with
    | c :: rest => if (c =? 43)%N || (c =? 45)%N then rest else t
    | [] => t
    end in
  let whole := takeWhile isDigit unsigned in
  let after := dropWhile isDigit unsigned in
  nonEmpty whole &&
  match after with
  | [] => true
  | c :: fraction => (c =? 46)%N && nonEmpty fraction && forallb isDigit fraction
  end.

(** *** Double precision

    A non-negative integer that a double holds exactly, were its exponent
    unbounded: a significand of 53 bits times a power of two. *)
Definition representable (d : Z) : Prop :=
  exists m e, 0 <= m < 2 ^ 53 /\ 0 <= e /\ d = m * 2 ^ e.

(** The 53-bit significand of such a number from [2^52] on. *)
Definition significand (d : Z) : Z := d / 2 ^ (Z.log2 d - 52).

(** [d] is [z] rounded to the nearest representable number, a tie going
    to the one with the even significand. The double nearest to [z] is
    [d] when [d < 2^1024] and [Infinity] otherwise. *)
Definition nearestDouble (z d : Z) : Prop :=
  representable d
  /\ (forall d', representable d' -> Z.abs (z - d) <= Z.abs (z - d'))
  /\ (forall d', representable d' -> d' <> d ->
        Z.abs (z - d') = Z.abs (z - d) -> Z.even (significand d) = true).

(** ** Reading of the fallback *)

(** The text [hay] contains the text [needle]. *)
Definition containsText (needle hay : jsstring) : Prop :=
  exists before after, hay = before ++ needle ++ after.

(** The sixteen hexadecimal digits, lower case. *)
Definition hexDigits : jsstring := js "0123456789abcdef".

(** A byte sequence in hexadecimal: each byte as two digits, the higher
    one first. *)
Definition hexadecimal (bytes : list N) : jsstring :=
  flat_map (fun b => [nth (N.to_nat (b / 16)) hexDigits 0%N;
                      nth (N.to_nat (b mod 16)) hexDigits 0%N]) bytes.

(** ** Reading of a stored row *)

Section StoredRow.
Context `{R : Runtime}.


End StoredRow.

(** ** Reading of the retry hint *)

(** [m] is the first UTC midnight strictly after the instant [t]. *)
Definition nextUtcMidnight (t m : Z) : Prop :=
  m mod msPerDay = 0 /\ t < m /\
  forall m', m' mod msPerDay = 0 -> t < m' -> m <= m'.

(** [v] is the ceiling of [a / 1000]. *)
Definition ceilingOfThousandth (a v : Z) : Prop :=
  a <= 1000 * v /\ 1000 * (v - 1) < a.

(** ** Language cookie *)

(** The codes of the alternation [(en|nl|fr|de)], in its order. *)
Definition localeCodes : list jsstring := [js "en"; js "nl"; js "fr"; js "de"].

(** The pattern [/locale=(en|nl|fr|de)/] tried at the start of a text:
    the alternatives in order; the result is the capture group. *)
Definition matchLocaleHere (s : jsstring) : option jsstring :=
  find (fun code => startsWith (js "locale=" ++ code) s) localeCodes.

(** [cookieStr.match(/locale=(en|nl|fr|de)/)]: the leftmost position at
    which the pattern matches. *)
Fixpoint matchLocale (s : jsstring) : option jsstring :=
  match matchLocaleHere s with
  | Some code => Some code
  | None =>
      match s with
      | [] => None
      | _ :: s' => matchLocale s'
      end
  end.

Definition getLangFromCookie (cookieStr : option jsstring) : option jsstring :=
  match cookieStr with
  | None => None
  | Some s =>
      if negb (nonEmpty s) then None
      else match matchLocale s with
           | Some code => if nonEmpty code then Some code else None
           | None => None
           end
  end.

(** ** Endings of a request *)

Section Endings.
Context `{R : Runtime}.

(** The ways a request can end, whatever the store answers. *)
Inductive ending (c : Request) (now : Z)
  : (jserror + Response) * list (statement * list (sqlvalue num)) -> Prop :=
| ends_thrown error : ending c now (inl error, [])
| ends_invalid : ending c now (inr invalidPayload, [])
| ends_thanks : ending c now (inr thanks, [])
| ends_limited :
    ending c now (inr (rateLimited (secondsUntilNextUtcDay now)), [])
| ends_written p outcome :
    (outcome = inr onWaitlist \/ exists error, outcome = inl error) ->
    ending c now (outcome, [(UpsertEntry, upsertValues c p now)])
| ends_retried p outcome :
    (outcome = inr onWaitlist \/ exists error, outcome = inl error) ->
    ending c now
      (outcome,
       [(UpsertEntry, upsertValues c p now);
        (UpsertEntryWithIpHash,
         upsertValuesWithIpHash (upsertValues c p now)
           (getConnectingIp (req_headers c)))]).

End Endings.

(** ** Table invariants *)

Section TableInvariants.
Context `{R : Runtime}.

(** No email is held by two rows: what [UNIQUE(email)] demands. *)
Definition uniqueEmails (table : list (gmap string (sqlvalue num))) : Prop :=
  forall e, (length (List.filter (hasEmail e) table) <= 1)%nat.

(** The row was created on the given UTC calendar day. *)
Definition createdOn (day : Z) (r : gmap string (sqlvalue num)) : bool :=
  match r !! "created_at" with
  | Some (SqlTime t) => utcDay t =? day
  | _ => false
  end.

(** The row holds the given connecting address. *)
Definition heldBy (ipAddress : jsstring) (r : gmap string (sqlvalue num)) : bool :=
  match r !! "ip_address" with
  | Some (SqlText a) => bool_decide (a = ipAddress)
  | _ => false
  end.

End TableInvariants.

(** ** A table holding one entry of the day before *)

Module Stored.

(** 2023-12-31T12:00:00.000Z *)
Definition yesterday : Z := Sample.noon - 86400000.

Definition first : Request :=
  Sample.jsonRequest (JObj [(js "email", JStr (js "a@x.io"))]) "9.9.9.9".

Definition table : Table :=
  (exec (postWaitlist (Sample.env None) first yesterday)
     (Sample.emptyTable Current)).2.

Definition entry : gmap string (sqlvalue Z) :=
  entryRow Current first (Sample.payloadOf first) yesterday.

End Stored.

(** ** The request headers that the handler reads *)

(** Besides [x-forwarded-for], which [getConnectingIp] reads when
    [cf-connecting-ip] is absent or empty. *)
Definition headersRead : list string :=
  ["content-type"; "cf-connecting-ip"; "cf-ray"; "referer"]%string
  ++ allowedHeaders.

(** A request with a cookie and a forwarded address added to the headers
    of [Sample.signup]. *)
Module Decorated.

Definition signup (address : string) : Request :=
  let c := Sample.signup address in
  {| req_method := req_method c;
     req_url := req_url c;
     req_headers := <["cookie"%string := js "session=1"]>
                      (<["x-forwarded-for"%string := js "6.6.6.6"]> (req_headers c));
     req_cf := req_cf c;
     req_json := req_json c;
     req_formData := req_formData c |}.

End Decorated.

(** ** Bounds of the schema *)

(** An optional text that, when present, is trimmed, not empty and at most
    [n] code units long. *)
Definition within (n : nat) (field : option jsstring) : Prop :=
  forall t, field = Some t -> (0 < length t <= n)%nat /\ trim t = t.

(** An optional number that, when present, lies between two integers. *)
Definition between `{R : Runtime} (lo hi : Z) (field : option num) : Prop :=
  forall n, field = Some n ->
    num_leb (num_of_Z lo) n = true /\ num_leb n (num_of_Z hi) = true.

(** A lower-case hexadecimal digit. *)
Definition isLowerHex (c : N) : bool :=
  ((48 <=? c) && (c <=? 57) || (97 <=? c) && (c <=? 102))%N.

(** * Properties *)

(** Closed side conditions are settled by evaluation. *)
Ltac computed :=
  vm_compute; first [reflexivity | lia | discriminate | intro; discriminate].

(** ** Strings *)

Lemma dropWhile_head {A} (p : A -> bool) (l : list A) x l' :
  dropWhile p l = x :: l' -> p x = false.
Proof.
  induction l as [|y l IH]; simpl; [discriminate|].
  destruct (p y) eqn:Hy; [exact IH|].
  intros [= <- _]. exact Hy.
Qed.

Lemma dropWhile_stable {A} (p : A -> bool) x (l : list A) :
  p x = false -> dropWhile p (x :: l) = x :: l.
Proof. intros H. simpl. now rewrite H. Qed.

Lemma dropWhile_all {A} (p : A -> bool) (l : list A) :
  forallb p l = true -> dropWhile p l = [].
Proof.
  induction l as [|y l IH]; simpl; [reflexivity|].
  intros H. apply andb_prop in H as [Hy Hl]. rewrite Hy. auto.
Qed.

Lemma dropWhile_suffix {A} (p : A -> bool) (l : list A) :
  exists pre, l = pre ++ dropWhile p l.
Proof.
  induction l as [|y l [pre IH]]; simpl.
  - now exists [].
  - destruct (p y).
    + exists (y :: pre). simpl. now rewrite <- IH.
    + now exists [].
Qed.

Lemma dropWhile_length {A} (p : A -> bool) (l : list A) :
  (length (dropWhile p l) <= length l)%nat.
Proof.
  destruct (dropWhile_suffix p l) as [pre H].
  rewrite H at 2. rewrite length_app. lia.
Qed.

(** [trimEnd] leaves a prefix of its argument. *)
Lemma trimEnd_prefix (s : jsstring) : exists suf, s = trimEnd s ++ suf.
Proof.
  unfold trimEnd.
  destruct (dropWhile_suffix isWhiteSpace (rev s)) as [pre H].
  exists (rev pre).
  rewrite <- rev_app_distr, <- H. symmetry. apply rev_involutive.
Qed.

Lemma trimEnd_stable (s : jsstring) x :
  isWhiteSpace x = false -> trimEnd (s ++ [x]) = s ++ [x].
Proof.
  intros H. unfold trimEnd. rewrite rev_app_distr. simpl.
  rewrite H. simpl. now rewrite rev_involutive.
Qed.

(** A non-empty result of [trimEnd] ends with a character that is not
    white space. *)
Lemma trimEnd_last (s : jsstring) :
  trimEnd s = [] \/ exists s' x, trimEnd s = s' ++ [x] /\ isWhiteSpace x = false.
Proof.
  unfold trimEnd.
  destruct (dropWhile isWhiteSpace (rev s)) as [|x l] eqn:E; [now left|].
  right. exists (rev l), x. split; [reflexivity|].
  exact (dropWhile_head _ _ _ _ E).
Qed.

Lemma trim_idempotent (s : jsstring) : trim (trim s) = trim s.
Proof.
  unfold trim.
  destruct (trimEnd_last (trimStart s)) as [E | (s' & x & E & Hx)].
  - rewrite E. reflexivity.
  - assert (Hstart : trimStart (trimEnd (trimStart s)) = trimEnd (trimStart s)).
    { destruct (trimEnd_prefix (trimStart s)) as [suf Hsuf].
      destruct (trimEnd (trimStart s)) as [|y t] eqn:Et; [reflexivity|].
      unfold trimStart at 1. apply dropWhile_stable.
      unfold trimStart in Hsuf. simpl in Hsuf.
      exact (dropWhile_head _ _ _ _ Hsuf). }
    rewrite Hstart, E. now apply trimEnd_stable.
Qed.

Lemma trim_blank (s : jsstring) : forallb isWhiteSpace s = true -> trim s = [].
Proof.
  intros H. unfold trim, trimStart. now rewrite (dropWhile_all _ _ H).
Qed.

Lemma trim_length (s : jsstring) : (length (trim s) <= length s)%nat.
Proof.
  unfold trim, trimEnd, trimStart. rewrite length_rev.
  etransitivity; [apply dropWhile_length|]. rewrite length_rev.
  apply dropWhile_length.
Qed.


(** ** The schema *)

Section SchemaFacts.
Context `{R : Runtime}.

(** What a successful parse says about the fields the handler branches on. *)
Lemma safeParse_fields (n : Normalized) (p : Payload) :
  safeParse n = Some p ->
  zEmail (n_email n) = Some (email p)
  /\ zString 200 (n_website n) = Some (website p)
  /\ zUrl (n_source n) = Some (source p)
  /\ zString 512 (n_landingPath n) = Some (landingPath p)
  /\ zRecord (n_additionalFields n) = Some (additionalFields p)
  /\ zRecord (n_metadata n) = Some (metadata p).
Proof.
  unfold safeParse, safeParseOthers. intros H.
  repeat match type of H with
         | mbind _ ?m = Some _ =>
             let E := fresh "E" in
             destruct m eqn:E; simpl in H; [|discriminate H]
         | (?m ≫= _) = Some _ =>
             let E := fresh "E" in
             destruct m eqn:E; simpl in H; [|discriminate H]
         end.
  injection H as <-. simpl. repeat split; assumption.
Qed.

Lemma safeParse_split (n : Normalized) :
  safeParse n = match zEmail (n_email n) with
                | Some e => safeParseOthers n e
                | None => None
                end.
Proof. unfold safeParse. now destruct (zEmail (n_email n)). Qed.

Lemma safeParseOthers_keeps_email (n : Normalized) (e : jsstring) (p : Payload) :
  safeParseOthers n e = Some p -> email p = e.
Proof.
  unfold safeParseOthers. intros H.
  repeat match type of H with
         | (?m ≫= _) = Some _ =>
             let E := fresh "E" in
             destruct m eqn:E; simpl in H; [|discriminate H]
         end.
  now injection H as <-.
Qed.

(** The normalised honeypot of a raw body whose [website] (or, failing
    that, [company]) is a string that is not blank. *)
Lemma toOptionalString_text (s : jsstring) :
  trim s <> [] -> toOptionalString (Some (JStr s)) = Some (trim s).
Proof.
  intros H. unfold toOptionalString.
  destruct (trim s); [congruence|reflexivity].
Qed.

Lemma toOptionalString_blank (s : jsstring) :
  trim s = [] -> toOptionalString (Some (JStr s)) = None.
Proof. intros H. unfold toOptionalString. now rewrite H. Qed.

Lemma toOptionalString_trimmed (v : option (json num)) (t : jsstring) :
  toOptionalString v = Some t -> trim t = t /\ t <> [].
Proof.
  unfold toOptionalString. destruct v as [[| | |s| |]|]; try discriminate.
  destruct (trim s) eqn:E; simpl; [discriminate|].
  intros [= <-]. rewrite <- E. split; [apply trim_idempotent|].
  rewrite E. discriminate.
Qed.

End SchemaFacts.

(** ** The daily window *)

Section WindowFacts.
Context `{R : Runtime}.

Lemma window_is_utc_day (now t : Z) :
  (startOfUtcDay now <=? t) && (t <=? endOfUtcDay now) = (utcDay t =? utcDay now).
Proof.
  unfold endOfUtcDay, startOfUtcDay, utcDay, msPerDay.
  pose proof (Z.div_mod now 86400000 ltac:(lia)) as Hn.
  pose proof (Z.mod_pos_bound now 86400000 ltac:(lia)) as Bn.
  pose proof (Z.div_mod t 86400000 ltac:(lia)) as Ht.
  pose proof (Z.mod_pos_bound t 86400000 ltac:(lia)) as Bt.
  destruct (Z.eqb_spec (t / 86400000) (now / 86400000)) as [E|E].
  - apply andb_true_iff. split; apply Z.leb_le; lia.
  - apply andb_false_iff.
    destruct (Z.lt_total (t / 86400000) (now / 86400000)) as [L|[L|L]];
      [left | contradiction | right]; apply Z.leb_gt; lia.
Qed.

Lemma inWindow_onUtcDay (ipAddress : jsstring) (now : Z) (r : gmap string (sqlvalue num)) :
  inWindow ipAddress (startOfUtcDay now) (endOfUtcDay now) r
  = onUtcDay ipAddress (utcDay now) r.
Proof.
  unfold inWindow, onUtcDay.
  destruct (r !! "ip_address") as [[]|]; try reflexivity.
  destruct (r !! "created_at") as [[]|]; try reflexivity.
  now rewrite <- andb_assoc, window_is_utc_day.
Qed.

Lemma countEntries_utc_day (ipAddress : jsstring) (now : Z) (db : Table) :
  countEntries ipAddress (startOfUtcDay now) (endOfUtcDay now) db
  = entriesOnUtcDay ipAddress (utcDay now) db.
Proof.
  unfold countEntries, entriesOnUtcDay. do 2 f_equal.
  induction (rows db) as [|r l IH]; [reflexivity|].
  simpl. rewrite inWindow_onUtcDay.
  destruct (onUtcDay ipAddress (utcDay now) r); simpl; now rewrite IH.
Qed.

End WindowFacts.

(** ** The store *)

Section StoreFacts.
Context `{R : Runtime}.

Lemma exec_Run {A} s values (k : jserror + unit -> prog num A) db :
  exec (Run s values k) db
  = exec (k (runStatement s values db).1) (runStatement s values db).2.
Proof. simpl. now destruct (runStatement s values db). Qed.

Lemma exec_CountEntries {A} ip dayStart dayEnd
    (k : jserror + option Z -> prog num A) db :
  exec (CountEntries ip dayStart dayEnd k) db
  = exec (k (inr (Some (countEntries ip dayStart dayEnd db)))) db.
Proof. reflexivity. Qed.

Lemma runStatement_accepted (g : generation) values table :
  List.filter (fun col => isNull (bindRow (insertColumns (acceptedStatement g)) values !! col))
         (requiredColumns g) = [] ->
  runStatement (acceptedStatement g) values {| shape := g; rows := table |}
  = (inr tt,
     {| shape := g;
        rows := upsertRows (acceptedStatement g)
                  (bindRow (insertColumns (acceptedStatement g)) values) table |}).
Proof.
  intros H. unfold runStatement. cbn [shape rows].
  destruct g; cbn [acceptedStatement] in *; now rewrite H.
Qed.

Lemma runStatement_refused values table col rest :
  List.filter (fun col => isNull (bindRow (insertColumns UpsertEntry) values !! col))
         (requiredColumns LegacyIpHash) = col :: rest ->
  runStatement UpsertEntry values {| shape := LegacyIpHash; rows := table |}
  = (inl (notNullFailure col), {| shape := LegacyIpHash; rows := table |}).
Proof.
  intros H. unfold runStatement. cbn [shape rows]. now rewrite H.
Qed.

Lemma entryRow_email g c p now :
  entryRow g c p now !! "email" = Some (SqlText (toLowerCase (email p))).
Proof. destruct g; vm_compute; reflexivity. Qed.

Lemma entryRow_required g c p now :
  List.filter (fun col => isNull (entryRow g c p now !! col)) (requiredColumns g) = [].
Proof. destruct g; vm_compute; reflexivity. Qed.

Lemma plain_row_lacks_ip_hash c p now :
  List.filter (fun col => isNull (bindRow (insertColumns UpsertEntry)
                               (upsertValues c p now) !! col))
         (requiredColumns LegacyIpHash) = ["ip_hash"%string].
Proof. vm_compute; reflexivity. Qed.

Lemma ip_hash_failure_recognised :
  isIpHashConstraintError (notNullFailure "ip_hash") = true.
Proof. vm_compute; reflexivity. Qed.

(** On either shape of the table the write goes through: at once on the
    current shape, through the fallback on the earlier one. *)
Lemma exec_writeEntry c p now (db : Table) :
  exec (writeEntry (upsertValues c p now) (getConnectingIp (req_headers c))) db
  = (inr onWaitlist,
     {| shape := shape db;
        rows := upsertRows (acceptedStatement (shape db))
                  (entryRow (shape db) c p now) (rows db) |}).
Proof.
  destruct db as [g table]. cbn [shape rows].
  unfold writeEntry. rewrite exec_Run. destruct g.
  - rewrite (runStatement_accepted Current) by apply (entryRow_required Current).
    reflexivity.
  - rewrite (runStatement_refused _ _ _ _ (plain_row_lacks_ip_hash c p now)).
    cbn [fst snd]. rewrite ip_hash_failure_recognised. cbn [negb].
    rewrite exec_Run.
    rewrite (runStatement_accepted LegacyIpHash)
      by apply (entryRow_required LegacyIpHash).
    reflexivity.
Qed.

End StoreFacts.

(** *** Rows after an upsert *)

Section UpsertFacts.
Context `{R : Runtime}.

Lemma applyUpdate_assigned columns (excluded old : gmap string (sqlvalue num)) col :
  col ∈ columns -> applyUpdate columns excluded old !! col = excluded !! col.
Proof.
  unfold applyUpdate. induction columns as [|c l IH]; simpl.
  - intros H. inversion H.
  - intros H. destruct (decide (c = col)) as [->|Hne].
    + now rewrite lookup_partial_alter_eq.
    + rewrite lookup_partial_alter_ne by exact Hne.
      apply IH. apply elem_of_cons in H as [->|H]; [contradiction|exact H].
Qed.

Lemma applyUpdate_kept columns (excluded old : gmap string (sqlvalue num)) col :
  col ∉ columns -> applyUpdate columns excluded old !! col = old !! col.
Proof.
  unfold applyUpdate. induction columns as [|c l IH]; simpl; [reflexivity|].
  intros H. apply not_elem_of_cons in H as [Hne H].
  rewrite lookup_partial_alter_ne by congruence. now apply IH.
Qed.

Lemma email_not_updated s : "email"%string ∉ updateColumns s.
Proof. destruct s; compute_done. Qed.

Lemma created_at_not_updated s : "created_at"%string ∉ updateColumns s.
Proof. destruct s; compute_done. Qed.

Lemma updated_at_updated s : "updated_at"%string ∈ updateColumns s.
Proof. destruct s; compute_done. Qed.


Lemma hasEmail_applyUpdate s e (excluded old : gmap string (sqlvalue num)) :
  hasEmail e (applyUpdate (updateColumns s) excluded old) = hasEmail e old.
Proof.
  unfold hasEmail, rowEmail.
  now rewrite (applyUpdate_kept _ _ _ _ (email_not_updated s)).
Qed.

Lemma filter_none {A} (P : A -> bool) (l : list A) :
  existsb P l = false -> List.filter P l = [].
Proof.
  induction l as [|x l IH]; simpl; [reflexivity|].
  intros H. apply orb_false_iff in H as [Hx Hl]. rewrite Hx. auto.
Qed.

Lemma filter_some {A} (P : A -> bool) (l : list A) :
  existsb P l = true -> List.filter P l <> [].
Proof.
  induction l as [|x l IH]; simpl; [discriminate|].
  destruct (P x); [discriminate|exact IH].
Qed.

Lemma filter_map_update (P : gmap string (sqlvalue num) -> bool) f
    (l : list (gmap string (sqlvalue num))) :
  (forall r, P (f r) = P r) ->
  List.filter P (map (fun r => if P r then f r else r) l)
  = map f (List.filter P l).
Proof.
  intros Hf. induction l as [|x l IH]; [reflexivity|].
  simpl. destruct (P x) eqn:E.
  - rewrite Hf, E. simpl. now rewrite IH.
  - rewrite E. exact IH.
Qed.

(** The rows that hold a given email after the upsert of a row with that
    email: the proposed row when there was none, otherwise the former rows
    updated in place. *)
Lemma upsertRows_email s (excluded : gmap string (sqlvalue num)) e table :
  rowEmail excluded = Some e ->
  List.filter (hasEmail e) (upsertRows s excluded table)
  = if existsb (hasEmail e) table
    then map (applyUpdate (updateColumns s) excluded)
           (List.filter (hasEmail e) table)
    else [excluded].
Proof.
  intros He. unfold upsertRows. rewrite He.
  destruct (existsb (hasEmail e) table) eqn:Ex.
  - apply (filter_map_update (hasEmail e)). intros r. apply hasEmail_applyUpdate.
  - rewrite List.filter_app, (filter_none _ _ Ex). simpl.
    unfold hasEmail at 1. rewrite He.
    rewrite bool_decide_eq_true_2 by reflexivity. reflexivity.
Qed.

Lemma entryRow_rowEmail g c p now :
  rowEmail (entryRow g c p now) = Some (toLowerCase (email p)).
Proof. unfold rowEmail. now rewrite entryRow_email. Qed.

End UpsertFacts.

Section EntryFacts.
Context `{R : Runtime}.

Lemma entryRow_created_at g c p now :
  entryRow g c p now !! "created_at" = Some (SqlTime now).
Proof. destruct g; vm_compute; reflexivity. Qed.

Lemma entryRow_updated_at g c p now :
  entryRow g c p now !! "updated_at" = Some (SqlTime now).
Proof. destruct g; vm_compute; reflexivity. Qed.

Lemma entryRow_source_url g c p now :
  entryRow g c p now !! "source_url"
  = Some (SqlText (resolvedSource p (req_url c))).
Proof. destruct g; vm_compute; reflexivity. Qed.

Lemma entryRow_landing_path g c p now :
  entryRow g c p now !! "landing_path"
  = Some (SqlText (default (pathname (req_url c)) (landingPath p))).
Proof. destruct g; vm_compute; reflexivity. Qed.

Lemma entryRow_ip_address g c p now :
  entryRow g c p now !! "ip_address"
  = Some (SqlText (getConnectingIp (req_headers c))).
Proof. destruct g; vm_compute; reflexivity. Qed.

Lemma existsb_of_filter {A} (P : A -> bool) (l : list A) :
  List.filter P l <> [] -> existsb P l = true.
Proof.
  intros H. destruct (existsb P l) eqn:E; [reflexivity|].
  now rewrite (filter_none P l E) in H.
Qed.

End EntryFacts.

Section WrittenRow.
Context `{R : Runtime}.

(** Positional binding: the [i]-th column receives the [i]-th value. *)
Lemma bindRow_lookup (columns : list string) (values : list (sqlvalue num))
    i col v :
  NoDup columns -> length columns = length values ->
  columns !! i = Some col -> values !! i = Some v ->
  bindRow columns values !! col = Some v.
Proof.
  intros Hnd Hlen Hc Hv. unfold bindRow.
  apply elem_of_list_to_map_1.
  - rewrite fst_zip by lia. exact Hnd.
  - apply (list_elem_of_lookup_2 _ i).
    rewrite lookup_zip_with, Hc, Hv. reflexivity.
Qed.

Lemma insertColumns_NoDup s : NoDup (insertColumns s).
Proof. destruct s; compute_done. Qed.

Lemma entryRow_metadata_json g c p now :
  entryRow g c p now !! "metadata_json"
  = Some (SqlText (JSON_stringify (buildMetadata c p (getCfSnapshot c)))).
Proof.
  unfold entryRow. destruct g.
  - now apply (bindRow_lookup _ _ 44%nat); [apply insertColumns_NoDup|..].
  - now apply (bindRow_lookup _ _ 45%nat); [apply insertColumns_NoDup|..].
Qed.

(** After the upsert of a row with email [e], every row with that email
    holds, in each column of the update clause, the proposed value. *)
Lemma upsertRows_written s (excluded : gmap string (sqlvalue num)) e table r col :
  rowEmail excluded = Some e ->
  In r (upsertRows s excluded table) -> hasEmail e r = true ->
  col ∈ updateColumns s ->
  r !! col = excluded !! col.
Proof.
  intros He Hin Hr Hcol.
  assert (In r (List.filter (hasEmail e) (upsertRows s excluded table))) as Hf
    by (apply List.filter_In; split; assumption).
  rewrite (upsertRows_email s excluded e table He) in Hf.
  destruct (existsb (hasEmail e) table).
  - apply in_map_iff in Hf as (r0 & <- & _). now apply applyUpdate_assigned.
  - destruct Hf as [<-|[]]. reflexivity.
Qed.

Lemma upsertRows_present s (excluded : gmap string (sqlvalue num)) e table :
  rowEmail excluded = Some e ->
  exists r, In r (upsertRows s excluded table) /\ hasEmail e r = true.
Proof.
  intros He.
  assert (List.filter (hasEmail e) (upsertRows s excluded table) <> []) as Hne.
  { rewrite (upsertRows_email s excluded e table He).
    destruct (existsb (hasEmail e) table) eqn:Ex; [|discriminate].
    pose proof (filter_some _ _ Ex).
    destruct (List.filter (hasEmail e) table); [congruence|discriminate]. }
  destruct (List.filter (hasEmail e) (upsertRows s excluded table)) as [|r l] eqn:E;
    [congruence|].
  exists r. apply List.filter_In. rewrite E. now left.
Qed.

Lemma written_columns_updated s :
  "source_url"%string ∈ updateColumns s
  /\ "landing_path"%string ∈ updateColumns s
  /\ "metadata_json"%string ∈ updateColumns s.
Proof. destruct s; repeat split; compute_done. Qed.

End WrittenRow.

Section BoundRows.
Context `{R : Runtime}.

Lemma bindRow_app (cols1 cols2 : list string) (v1 v2 : list (sqlvalue num)) :
  length cols1 = length v1 ->
  bindRow (cols1 ++ cols2) (v1 ++ v2) = bindRow cols1 v1 ∪ bindRow cols2 v2.
Proof.
  intros H. unfold bindRow. rewrite zip_with_app by exact H.
  apply list_to_map_app.
Qed.

Lemma leading_columns_lookup (values : list (sqlvalue num)) :
  bindRow (firstn 5 (insertColumns UpsertEntry)) values !! "ip_hash"%string = None.
Proof.
  unfold bindRow. apply not_elem_of_list_to_map.
  intros Hin. apply list_elem_of_fmap in Hin as ([col v] & Heq & Hin).
  cbn [fst] in Heq. subst col.
  apply elem_of_zip_l in Hin. revert Hin. compute_done.
Qed.

End BoundRows.

(** ** Reading what was assigned *)

Section ObjectReads.
Context {V : Type}.
Implicit Types (o : Obj.obj V) (k : jsstring) (v : V).

Lemma key_eqb_eq k k' : Obj.key_eqb k k' = true <-> k = k'.
Proof. unfold Obj.key_eqb. apply bool_decide_eq_true. Qed.

Lemma key_eqb_refl k : Obj.key_eqb k k = true.
Proof. now apply key_eqb_eq. Qed.

Lemma key_eqb_neq k k' : k <> k' -> Obj.key_eqb k k' = false.
Proof. unfold Obj.key_eqb. apply bool_decide_eq_false_2. Qed.

Lemma get_None_keys k o : Obj.get k o = None <-> ~ In k (map fst o).
Proof.
  induction o as [|[k0 v0] o IH]; cbn [Obj.get map fst In]; [tauto|].
  destruct (Obj.key_eqb k k0) eqn:E.
  - apply key_eqb_eq in E. subst. split; [discriminate|tauto].
  - assert (k <> k0) by (intros ->; now rewrite key_eqb_refl in E).
    rewrite IH. intuition congruence.
Qed.

Lemma get_app k o1 o2 :
  Obj.get k (o1 ++ o2)
  = match Obj.get k o1 with Some v => Some v | None => Obj.get k o2 end.
Proof.
  induction o1 as [|[k0 v0] o1 IH]; cbn [Obj.get app]; [reflexivity|].
  now destruct (Obj.key_eqb k k0).
Qed.

Lemma get_replace k' k v o :
  Obj.get k o <> None ->
  Obj.get k' (Obj.replace k v o)
  = if Obj.key_eqb k' k then Some v else Obj.get k' o.
Proof.
  induction o as [|[k0 v0] o IH]; cbn [Obj.get Obj.replace]; [congruence|].
  destruct (Obj.key_eqb k k0) eqn:E; cbn [Obj.get].
  - intros _. apply key_eqb_eq in E. subst k0.
    now destruct (Obj.key_eqb k' k).
  - intros H. rewrite (IH H).
    destruct (Obj.key_eqb k' k0) eqn:E'; [|reflexivity].
    apply key_eqb_eq in E'. subst k0.
    rewrite key_eqb_neq; [reflexivity|].
    intros ->. now rewrite key_eqb_refl in E.
Qed.

Lemma get_insertIndexed k' i k v o :
  Obj.get k o = None ->
  Obj.get k' (Obj.insertIndexed i k v o)
  = if Obj.key_eqb k' k then Some v else Obj.get k' o.
Proof.
  induction o as [|[k0 v0] o IH]; cbn [Obj.get Obj.insertIndexed];
    [reflexivity|].
  destruct (Obj.key_eqb k k0) eqn:E; [discriminate|]. intros H.
  destruct (Obj.arrayIndex k0) as [j|]; [|reflexivity].
  destruct (j <? i)%N; [|reflexivity]. cbn [Obj.get]. rewrite (IH H).
  destruct (Obj.key_eqb k' k0) eqn:E'; [|reflexivity].
  apply key_eqb_eq in E'. subst k0.
  rewrite key_eqb_neq; [reflexivity|].
  intros ->. now rewrite key_eqb_refl in E.
Qed.

(** After [o[k] = v] the property [k] reads [v] and every other property
    reads as before. *)
Lemma get_define k' k v o :
  Obj.get k' (Obj.define k v o)
  = if Obj.key_eqb k' k then Some v else Obj.get k' o.
Proof.
  unfold Obj.define, Obj.has. destruct (Obj.get k o) as [v0|] eqn:E.
  - apply get_replace. congruence.
  - destruct (Obj.arrayIndex k) as [i|]; [now apply get_insertIndexed|].
    rewrite get_app. cbn [Obj.get].
    destruct (Obj.key_eqb k' k) eqn:E'.
    + apply key_eqb_eq in E'. subst k'. now rewrite E.
    + now destruct (Obj.get k' o).
Qed.

Lemma get_assign k' k v o :
  k <> proto_key ->
  Obj.get k' (assign k v o)
  = if Obj.key_eqb k' k then Some v else Obj.get k' o.
Proof.
  intros H. unfold assign. rewrite (key_eqb_neq _ _ H). apply get_define.
Qed.

Lemma assign_proto k v o :
  Obj.get proto_key o = None -> Obj.get proto_key (assign k v o) = None.
Proof.
  intros H. unfold assign. destruct (Obj.key_eqb k proto_key) eqn:E; [exact H|].
  rewrite get_define, H.
  rewrite key_eqb_neq; [reflexivity|].
  intros <-. now rewrite key_eqb_refl in E.
Qed.

Lemma keys_replace k v o : map fst (Obj.replace k v o) = map fst o.
Proof.
  induction o as [|[k0 v0] o IH]; cbn [Obj.replace map fst]; [reflexivity|].
  destruct (Obj.key_eqb k k0); cbn [map fst]; congruence.
Qed.

Lemma keys_insertIndexed i k v o :
  Permutation (map fst (Obj.insertIndexed i k v o)) (k :: map fst o).
Proof.
  induction o as [|[k0 v0] o IH]; cbn [Obj.insertIndexed map fst]; [reflexivity|].
  destruct (Obj.arrayIndex k0) as [j|]; [|reflexivity].
  destruct (j <? i)%N; [|reflexivity]. cbn [map fst].
  rewrite IH. apply perm_swap.
Qed.

(** An object never has two properties of one name. *)
Lemma define_NoDup k v o :
  NoDup (map fst o) -> NoDup (map fst (Obj.define k v o)).
Proof.
  intros Hnd. unfold Obj.define, Obj.has.
  destruct (Obj.get k o) as [v0|] eqn:E.
  - now rewrite keys_replace.
  - apply get_None_keys in E.
    assert (NoDup (k :: map fst o)) as Hk.
    { constructor; [|exact Hnd]. intros Hin. apply E.
      now apply list_elem_of_In. }
    destruct (Obj.arrayIndex k) as [i|].
    + now rewrite keys_insertIndexed.
    + rewrite map_app. cbn [map fst].
      now rewrite <- Permutation_cons_append.
Qed.

Lemma assign_NoDup k v o :
  NoDup (map fst o) -> NoDup (map fst (assign k v o)).
Proof.
  intros H. unfold assign. destruct (Obj.key_eqb k proto_key); [exact H|].
  now apply define_NoDup.
Qed.

Lemma get_delete k' k o :
  Obj.get k' (Obj.delete k o)
  = if Obj.key_eqb k' k then None else Obj.get k' o.
Proof.
  unfold Obj.delete.
  induction o as [|[k0 v0] o IH]; cbn [List.filter Obj.get fst].
  - now destruct (Obj.key_eqb k' k).
  - destruct (Obj.key_eqb k k0) eqn:E; cbn [negb Obj.get].
    + apply key_eqb_eq in E. subst k0. rewrite IH.
      now destruct (Obj.key_eqb k' k).
    + rewrite IH. destruct (Obj.key_eqb k' k0) eqn:E'; [|reflexivity].
      apply key_eqb_eq in E'. subst k0.
      rewrite key_eqb_neq; [reflexivity|].
      intros ->. now rewrite key_eqb_refl in E.
Qed.

End ObjectReads.

(** ** Texts *)

Lemma startsWith_spec (needle hay : jsstring) :
  startsWith needle hay = true <-> exists after, hay = needle ++ after.
Proof.
  revert hay. induction needle as [|a needle IH]; intros hay; cbn [startsWith].
  - split; [intros _; now exists hay|reflexivity].
  - destruct hay as [|b hay].
    + split; [discriminate|]. intros [after H]. discriminate H.
    + rewrite andb_true_iff, N.eqb_eq, IH. split.
      * intros [-> [after ->]]. now exists after.
      * intros [after [= -> ->]]. split; [reflexivity|now exists after].
Qed.

(** [includes] finds the needle exactly when the text contains it. *)
Lemma includes_spec (needle hay : jsstring) :
  includes needle hay = true <-> containsText needle hay.
Proof.
  unfold containsText. split.
  - induction hay as [|x hay IH]; cbn [includes].
    + rewrite orb_false_r. intros H. apply startsWith_spec in H as [after H].
      now exists [], after.
    + intros H. apply orb_true_iff in H as [H|H].
      * apply startsWith_spec in H as [after H]. now exists [], after.
      * destruct (IH H) as (before & after & ->). now exists (x :: before), after.
  - intros (before & after & ->). induction before as [|x before IH].
    + cbn [app]. assert (startsWith needle (needle ++ after) = true) as H
        by (apply startsWith_spec; now exists after).
      destruct (needle ++ after); cbn [includes]; now rewrite H.
    + cbn [app includes]. rewrite IH. apply orb_true_r.
Qed.

(** ** Hexadecimal *)

Lemma hexDigit_digit d :
  (d < 16)%N -> hexDigit d = nth (N.to_nat d) hexDigits 0%N.
Proof.
  intros H. rewrite <- (N2Nat.id d) at 1.
  assert (N.to_nat d < 16)%nat as Hn by lia.
  revert Hn. generalize (N.to_nat d). clear. intros n Hn.
  do 16 (destruct n as [|n]; [reflexivity|]). lia.
Qed.

(** On bytes, the writing of the source is the hexadecimal writing. *)
Lemma hexByte_hexadecimal (bytes : list N) :
  Forall (fun b => (b < 256)%N) bytes ->
  concat (map hexByte bytes) = hexadecimal bytes.
Proof.
  induction 1 as [|b bytes Hb _ IH]; [reflexivity|].
  cbn [map concat hexadecimal flat_map]. fold (hexadecimal bytes). rewrite IH.
  unfold hexByte.
  assert (b / 16 < 16)%N by (apply N.Div0.div_lt_upper_bound; lia).
  pose proof (N.mod_upper_bound b 16 ltac:(lia)).
  now rewrite !hexDigit_digit.
Qed.

(** ** What a row carries *)

Section Carried.
Context `{R : Runtime}.



(** A value put sixth among the values, under a name put sixth among the
    columns, adds that column to the row and changes no other. *)
Lemma bindRow_sixth (cols : list string) (vals : list (sqlvalue num)) h x :
  length cols = length vals -> h ∉ firstn 5 cols ->
  bindRow (firstn 5 cols ++ [h] ++ skipn 5 cols)
          (firstn 5 vals ++ [x] ++ skipn 5 vals)
  = <[h := x]> (bindRow cols vals).
Proof.
  intros Hlen Hh.
  rewrite <- (firstn_skipn 5 cols) at 3. rewrite <- (firstn_skipn 5 vals) at 3.
  assert (length (firstn 5 cols) = length (firstn 5 vals)) as Hl
    by (rewrite !length_firstn; lia).
  rewrite !bindRow_app by (exact Hl || reflexivity).
  rewrite insert_union_r.
  - f_equal.
    change (bindRow [h] [x]) with (<[h := x]> (∅ : gmap string (sqlvalue num))).
    now rewrite <- insert_union_l, (left_id ∅ (∪)).
  - unfold bindRow. apply not_elem_of_list_to_map.
    intros Hin. apply list_elem_of_fmap in Hin as ([col v] & Heq & Hin).
    cbn [fst] in Heq. subst col. apply elem_of_zip_l in Hin. contradiction.
Qed.

End Carried.

(** ** The handler on a valid submission *)

Section HandlerFacts.
Context `{R : Runtime}.

Lemma postWaitlist_invalid env c now raw :
  parseRequestBody c = inr raw ->
  safeParse (normalizePayload raw) = None ->
  postWaitlist env c now = Ret invalidPayload.
Proof. intros Hb Hs. unfold postWaitlist. now rewrite Hb, Hs. Qed.

Lemma postWaitlist_parsed env c now raw p :
  parseRequestBody c = inr raw ->
  safeParse (normalizePayload raw) = Some p ->
  postWaitlist env c now
  = if honeypot p then Ret thanks else submit env c now p.
Proof. intros Hb Hs. unfold postWaitlist. now rewrite Hb, Hs. Qed.

Lemma exec_submit env c now p db :
  exec (submit env c now p) db
  = if ceiling env <=? entriesOnUtcDay (getConnectingIp (req_headers c)) (utcDay now) db
    then (inr (rateLimited (secondsUntilNextUtcDay now)), db)
    else (inr onWaitlist,
          {| shape := shape db;
             rows := upsertRows (acceptedStatement (shape db))
                       (entryRow (shape db) c p now) (rows db) |}).
Proof.
  unfold submit. rewrite exec_CountEntries. cbn [default].
  rewrite countEntries_utc_day. fold (ceiling env).
  destruct (ceiling env <=? _); [reflexivity|]. apply exec_writeEntry.
Qed.

End HandlerFacts.

(** ** The configured ceiling *)

Lemma digit_is_no_space c : isDigit c = true -> isWhiteSpace c = false.
Proof.
  unfold isDigit, isWhiteSpace. intros H.
  apply andb_true_iff in H as [H1 H2].
  apply N.leb_le in H1, H2.
  repeat (apply orb_false_iff; split);
    try (apply andb_false_iff; first [left; apply N.leb_gt; lia | right; apply N.leb_gt; lia]);
    apply N.eqb_neq; lia.
Qed.

Lemma digit_is_no_sign c : isDigit c = true -> (c =? 45)%N = false /\ (c =? 43)%N = false.
Proof.
  unfold isDigit. intros H. apply andb_true_iff in H as [H1 H2].
  apply N.leb_le in H1, H2. split; apply N.eqb_neq; lia.
Qed.

Lemma trimStart_blank_app ws c rest :
  forallb isWhiteSpace ws = true -> isWhiteSpace c = false ->
  trimStart (ws ++ c :: rest) = c :: rest.
Proof.
  intros Hws Hc. unfold trimStart. induction ws as [|w ws IH]; simpl.
  - now rewrite Hc.
  - simpl in Hws. apply andb_true_iff in Hws as [Hw Hws]. rewrite Hw. auto.
Qed.

Lemma trimStart_blank ws : forallb isWhiteSpace ws = true -> trimStart ws = [].
Proof. apply dropWhile_all. Qed.

Lemma takeWhile_run {A} (p : A -> bool) run rest :
  forallb p run = true ->
  match rest with [] => true | c :: _ => negb (p c) end = true ->
  takeWhile p (run ++ rest) = run.
Proof.
  intros Hrun Hrest. induction run as [|d run IH]; simpl.
  - destruct rest as [|c rest]; [reflexivity|]. simpl.
    apply negb_true_iff in Hrest. now rewrite Hrest.
  - simpl in Hrun. apply andb_true_iff in Hrun as [Hd Hrun].
    rewrite Hd. f_equal. auto.
Qed.

Lemma digitsValue_fold ds acc :
  0 <= acc -> 0 <= fold_left (fun a d => 10 * a + Z.of_N (d - 48)) ds acc.
Proof.
  revert acc. induction ds as [|d ds IH]; simpl; intros acc H; [exact H|].
  apply IH. lia.
Qed.

Lemma digitsValue_nonneg ds : 0 <= digitsValue ds.
Proof. apply digitsValue_fold. lia. Qed.

Lemma toDouble_exact z : 0 <= z < 2 ^ 53 -> toDouble z = Some z.
Proof.
  intros [H0 H]. unfold toDouble.
  assert (Z.log2 z < 53) as Hlog.
  { destruct (Z.eq_dec z 0) as [->|Hz]; [reflexivity|].
    apply Z.log2_lt_pow2; lia. }
  apply Z.ltb_lt in Hlog. now rewrite Hlog.
Qed.

Lemma toDouble_nonneg z d : 0 <= z -> toDouble z = Some d -> 0 <= d.
Proof.
  intros H0. unfold toDouble.
  destruct (Z.log2 z <? 53) eqn:E; [intros [= <-]; exact H0|].
  apply Z.ltb_ge in E.
  set (sh := Z.log2 z - 52).
  assert (0 < 2 ^ sh) by (apply Z.pow_pos_nonneg; unfold sh; lia).
  assert (0 <= z / 2 ^ sh) by (apply Z.div_pos; lia).
  destruct (_ || _); destruct (_ <? 2 ^ 1024); intros [= <-]; nia.
Qed.

(** *** Rounding to a double *)

Lemma representable_small z : 0 <= z < 2 ^ 53 -> representable z.
Proof. intros H. exists z, 0. change (2 ^ 0) with 1. lia. Qed.

Lemma representable_nonneg d : representable d -> 0 <= d.
Proof.
  intros (m & e & Hm & He & ->).
  pose proof (Z.pow_pos_nonneg 2 e ltac:(lia) He). nia.
Qed.

(** From [2^(52+sh)] on, the representable numbers are multiples of [2^sh]. *)
Lemma representable_grid d sh :
  0 <= sh -> representable d -> 2 ^ (52 + sh) <= d -> exists j, d = j * 2 ^ sh.
Proof.
  intros Hsh (m & e & Hm & He & ->) Hd.
  destruct (Z_lt_le_dec e sh) as [Hlt|Hge].
  - exfalso.
    assert (2 ^ (53 + e) <= 2 ^ (52 + sh)) by (apply Z.pow_le_mono_r; lia).
    rewrite Z.pow_add_r in H by lia.
    pose proof (Z.pow_pos_nonneg 2 e ltac:(lia) He). nia.
  - exists (m * 2 ^ (e - sh)).
    rewrite <- Z.mul_assoc, <- Z.pow_add_r by lia. do 2 f_equal. lia.
Qed.

Lemma significand_grid q sh :
  0 <= sh -> 2 ^ 52 <= q < 2 ^ 53 -> significand (q * 2 ^ sh) = q.
Proof.
  intros Hsh Hq. unfold significand.
  pose proof (Z.pow_pos_nonneg 2 sh ltac:(lia) Hsh) as HS.
  assert (Z.log2 (q * 2 ^ sh) = 52 + sh) as ->.
  { apply Z.log2_unique; [lia|].
    replace (Z.succ (52 + sh)) with (53 + sh) by lia.
    rewrite !Z.pow_add_r by lia. split.
    - apply Z.mul_le_mono_nonneg_r; lia.
    - apply Z.mul_lt_mono_pos_r; lia. }
  replace (52 + sh - 52) with sh by lia. apply Z.div_mul. lia.
Qed.


(** Rounding to a multiple of [S = 2 * half]: the choice of [toDouble]
    is nearest among the multiples, and a tie leaves an even quotient. *)
Lemma round_grid S half q r j :
  0 < half -> S = 2 * half -> 0 <= r < S ->
  let q' := if (half <? r) || ((r =? half) && Z.odd q) then q + 1 else q in
  Z.abs (q * S + r - q' * S) <= Z.abs (q * S + r - j * S)
  /\ (j <> q' -> Z.abs (q * S + r - j * S) = Z.abs (q * S + r - q' * S) ->
      Z.even q' = true /\ (j = q' + 1 \/ j = q' - 1) /\ (j = q \/ j = q + 1)).
Proof.
  intros Hh HS Hr q'.
  assert (q * S + r - j * S = (q - j) * S + r) as Ej by ring.
  assert (q * S + r - q * S = r) as Eq by ring.
  assert (q * S + r - (q + 1) * S = r - S) as Eq1 by ring.
  assert (j <= q - 1 -> (q - j) * S >= S) as Hlo by (intros; nia).
  assert (q + 2 <= j -> (q - j) * S <= - 2 * S) as Hhi by (intros; nia).
  assert (j = q + 1 -> (q - j) * S = - S) as Hj1 by (intros ->; ring).
  assert (j = q -> (q - j) * S = 0) as Hj0 by (intros ->; ring).
  assert (j <= q - 1 \/ j = q \/ j = q + 1 \/ q + 2 <= j) as Hcases by lia.
  unfold q'. rewrite Ej.
  destruct (Z.ltb_spec half r) as [Hgt|Hle]; cbn [orb].
  - rewrite Eq1. split; [lia|]. intros Hne Hd. lia.
  - destruct (Z.eqb_spec r half) as [Hrh|Hrh]; cbn [andb].
    + destruct (Z.odd q) eqn:Hodd.
      * rewrite Eq1. split; [lia|]. intros Hne Hd.
        split; [|lia]. rewrite Z.add_1_r, Z.even_succ. exact Hodd.
      * rewrite Eq. split; [lia|]. intros Hne Hd.
        split; [|lia]. rewrite <- Z.negb_odd, Hodd. reflexivity.
    + rewrite Eq. split; [lia|]. intros Hne Hd. lia.
Qed.

Lemma pow2_1024 : 2 ^ 53 < 2 ^ 1024.
Proof. apply Z.pow_lt_mono_r; lia. Qed.

(** [toDouble] rounds to the nearest double, ties to even, and overflows
    from [2^1024] on; the nearest double is unique. *)
Lemma toDouble_nearest z :
  1 <= z ->
  exists d,
    nearestDouble z d
    /\ (forall d', nearestDouble z d' -> d' = d)
    /\ 1 <= d
    /\ toDouble z = (if d <? 2 ^ 1024 then Some d else None)
    /\ (z < 2 ^ 53 -> d = z).
Proof.
  intros Hz. destruct (Z.log2_spec z ltac:(lia)) as [Hlo Hhi].
  destruct (Z_lt_le_dec (Z.log2 z) 53) as [Hk|Hk].
  - assert (z < 2 ^ 53) as Hsmall.
    { eapply Z.lt_le_trans; [exact Hhi|]. apply Z.pow_le_mono_r; lia. }
    exists z. split; [|split; [|split; [|split]]].
    + split; [apply representable_small; lia|]. split.
      * intros d' _. lia.
      * intros d' _ Hne Hd. lia.
    + intros d' (_ & Hnear & _).
      specialize (Hnear z (representable_small z ltac:(lia))). lia.
    + exact Hz.
    + rewrite toDouble_exact by lia.
      pose proof pow2_1024.
      destruct (Z.ltb_spec z (2 ^ 1024)); [reflexivity|lia].
    + reflexivity.
  - set (sh := Z.log2 z - 52) in *.
    assert (1 <= sh) as Hsh by (unfold sh; lia).
    set (S := 2 ^ sh). set (half := 2 ^ (sh - 1)).
    assert (0 < half) as Hhalf by (apply Z.pow_pos_nonneg; lia).
    assert (S = 2 * half) as HS.
    { unfold S, half. replace sh with (1 + (sh - 1)) at 1 by lia.
      rewrite Z.pow_add_r by lia. reflexivity. }
    set (q := z / S). set (r := z mod S).
    assert (z = q * S + r) as Ez
      by (unfold q, r; rewrite (Z.div_mod z S) at 1 by lia; ring).
    assert (0 <= r < S) as Hr by (apply Z.mod_pos_bound; lia).
    assert (2 ^ Z.log2 z = 2 ^ 52 * S) as Ek.
    { unfold S. rewrite <- Z.pow_add_r by lia. f_equal. unfold sh. lia. }
    assert (2 ^ Z.succ (Z.log2 z) = 2 ^ 53 * S) as Ek1.
    { unfold S. rewrite <- Z.pow_add_r by lia. f_equal. unfold sh. lia. }
    rewrite Ek in Hlo. rewrite Ek1 in Hhi.
    assert (2 ^ 52 <= q < 2 ^ 53) as Hq by nia.
    set (q' := if (half <? r) || ((r =? half) && Z.odd q) then q + 1 else q).
    assert (q <= q' <= q + 1) as Hq' by (unfold q'; destruct (_ || _); lia).
    set (d := q' * S).
    assert (forall j, Z.abs (z - d) <= Z.abs (z - j * S)
              /\ (j <> q' -> Z.abs (z - j * S) = Z.abs (z - d) ->
                  Z.even q' = true /\ (j = q' + 1 \/ j = q' - 1)
                  /\ (j = q \/ j = q + 1))) as Hgrid.
    { intros j. rewrite Ez. exact (round_grid S half q r j Hhalf HS Hr). }
    assert (forall d', representable d' -> d' < 2 ^ 52 * S ->
              Z.abs (z - d) < Z.abs (z - d')) as Hbelow.
    { intros d' _ Hd'. destruct (Hgrid (2 ^ 52)) as [H _]. lia. }
    assert (forall d', representable d' -> 2 ^ 52 * S <= d' ->
              exists j, d' = j * S) as Habove.
    { intros d' Hrep Hd'. apply (representable_grid d' sh); [lia|exact Hrep|].
      rewrite Z.pow_add_r by lia. exact Hd'. }
    assert (forall d', representable d' -> d' <> d ->
              Z.abs (z - d') = Z.abs (z - d) ->
              Z.even q' = true
              /\ exists j, d' = j * S /\ 2 ^ 52 <= j < 2 ^ 53 /\ Z.even j = false)
      as Htie.
    { intros d' Hrep Hne Hd.
      destruct (Z_lt_le_dec d' (2 ^ 52 * S)) as [Hlt|Hge].
      { pose proof (Hbelow d' Hrep Hlt). lia. }
      destruct (Habove d' Hrep Hge) as [j ->].
      destruct (Hgrid j) as [_ H].
      destruct (H ltac:(intros ->; now apply Hne) Hd) as (Heven & Hadj & Hj).
      split; [exact Heven|]. exists j. split; [reflexivity|].
      assert (Z.even j = false) as Hodd.
      { destruct Hadj as [-> | ->].
        - rewrite Z.add_1_r, Z.even_succ, <- Z.negb_even, Heven. reflexivity.
        - rewrite Z.sub_1_r, Z.even_pred, <- Z.negb_even, Heven. reflexivity. }
      split; [|exact Hodd].
      assert (j <> 2 ^ 53) by (intros ->; discriminate Hodd). lia. }
    assert (Z.even q' = true -> Z.even (significand d) = true) as Hsig.
    { intros Heven. unfold d.
      destruct (Z.eq_dec q' (2 ^ 53)) as [E|E].
      - rewrite E. replace (2 ^ 53 * S) with (2 ^ 52 * 2 ^ (sh + 1)).
        + rewrite significand_grid by lia. reflexivity.
        + unfold S. rewrite (Z.pow_add_r 2 sh 1) by lia. ring.
      - unfold S. rewrite significand_grid by lia. exact Heven. }
    exists d. split; [|split; [|split; [|split]]].
    + split; [|split].
      * unfold d. destruct (Z.eq_dec q' (2 ^ 53)) as [E|E].
        -- exists (2 ^ 52), (sh + 1). split; [lia|]. split; [lia|].
           rewrite E. unfold S. rewrite (Z.pow_add_r 2 sh 1) by lia. ring.
        -- exists q', sh. split; [lia|]. split; [lia|]. reflexivity.
      * intros d' Hrep. destruct (Z_lt_le_dec d' (2 ^ 52 * S)) as [Hlt|Hge].
        -- pose proof (Hbelow d' Hrep Hlt). lia.
        -- destruct (Habove d' Hrep Hge) as [j ->]. apply Hgrid.
      * intros d' Hrep Hne Hd. apply Hsig. now destruct (Htie d' Hrep Hne Hd).
    + intros d' (Hrep' & Hnear' & Htie').
      destruct (Z.eq_dec d' d) as [E|E]; [exact E|]. exfalso.
      assert (representable d) as Hrepd.
      { unfold d. destruct (Z.eq_dec q' (2 ^ 53)) as [E'|E'].
        - exists (2 ^ 52), (sh + 1). split; [lia|]. split; [lia|].
          rewrite E'. unfold S. rewrite (Z.pow_add_r 2 sh 1) by lia. ring.
        - exists q', sh. split; [lia|]. split; [lia|]. reflexivity. }
      assert (Z.abs (z - d') = Z.abs (z - d)) as Hd.
      { pose proof (Hnear' d Hrepd).
        destruct (Z_lt_le_dec d' (2 ^ 52 * S)) as [Hlt|Hge].
        - pose proof (Hbelow d' Hrep' Hlt). lia.
        - destruct (Habove d' Hrep' Hge) as [j ->].
          destruct (Hgrid j) as [Hg _]. lia. }
      destruct (Htie d' Hrep' E Hd) as (_ & j & -> & Hj & Hodd).
      specialize (Htie' d Hrepd ltac:(congruence) ltac:(lia)).
      unfold S in Htie'. rewrite significand_grid in Htie' by lia. congruence.
    + unfold d. nia.
    + unfold toDouble.
      assert ((Z.log2 z <? 53) = false) as -> by (apply Z.ltb_ge; lia).
      reflexivity.
    + intros Hsmall. exfalso. nia.
Qed.

(** *** Every text has a reading *)

Lemma span {A} (p : A -> bool) (l : list A) :
  l = takeWhile p l ++ dropWhile p l /\ forallb p (takeWhile p l) = true.
Proof.
  induction l as [|x l [IH1 IH2]]; cbn [takeWhile dropWhile]; [now split|].
  destruct (p x) eqn:E; [|now split].
  cbn [app forallb]. rewrite E, IH2. split; [now rewrite <- IH1|reflexivity].
Qed.

Lemma digits_span (s : jsstring) :
  exists digits rest,
    s = digits ++ rest /\ forallb isDigit digits = true
    /\ noDigitAhead rest = true /\ (digits = [] -> noDigitAhead s = true).
Proof.
  destruct (span isDigit s) as [Hs Hd].
  exists (takeWhile isDigit s), (dropWhile isDigit s).
  split; [exact Hs|]. split; [exact Hd|].
  assert (noDigitAhead (dropWhile isDigit s) = true) as Hr.
  { destruct (dropWhile isDigit s) as [|c r] eqn:E; [reflexivity|].
    cbn [noDigitAhead]. now rewrite (dropWhile_head _ _ _ _ E). }
  split; [exact Hr|]. intros E. rewrite E in Hs. cbn [app] in Hs.
  now rewrite Hs.
Qed.

Lemma leadingInteger_total x : exists v, leadingInteger x v.
Proof.
  destruct x as [s|]; [|exists None; constructor].
  destruct (span isWhiteSpace s) as [Hs Hws].
  destruct (dropWhile isWhiteSpace s) as [|c rest] eqn:E.
  { rewrite app_nil_r in Hs. exists None. rewrite Hs. now constructor. }
  pose proof (dropWhile_head _ _ _ _ E) as Hc. rewrite Hs.
  destruct (isDigit c) eqn:Hd.
  - destruct (digits_span (c :: rest)) as (ds & tl & Hsplit & Hds & Htl & Hnil).
    exists (Some (digitsValue ds)). rewrite Hsplit.
    apply leading_digits; try assumption.
    intros ->. specialize (Hnil eq_refl). cbn [noDigitAhead] in Hnil.
    now rewrite Hd in Hnil.
  - destruct (digits_span rest) as (ds & tl & Hsplit & Hds & Htl & Hnil).
    destruct (N.eq_dec c 43%N) as [->|Hp]; [|destruct (N.eq_dec c 45%N) as [->|Hm]].
    + destruct ds as [|d ds].
      * exists None. apply leading_sign; [assumption|now left|now apply Hnil].
      * exists (Some (digitsValue (d :: ds))). rewrite Hsplit.
        now apply leading_plus.
    + destruct ds as [|d ds].
      * exists None. apply leading_sign; [assumption|now right|now apply Hnil].
      * exists (Some (- digitsValue (d :: ds))). rewrite Hsplit.
        now apply leading_minus.
    + exists None. now apply leading_other.
Qed.

Lemma parseInt10_digit_run digits rest :
  digits <> [] -> forallb isDigit digits = true -> noDigitAhead rest = true ->
  takeWhile isDigit (digits ++ rest) = digits.
Proof. intros _ Hd Hr. apply takeWhile_run; [exact Hd|]. now destruct rest. Qed.

(** [Number.parseInt] agrees with the reading above: the integer comes
    as a double, and a negative one stays below 1 whatever its size. *)
Lemma parseInt10_leading s v :
  leadingInteger (Some s) v ->
  match v with
  | None => parseInt10 s = PNaN
  | Some z =>
      (0 <= z -> parseInt10 s = match toDouble z with
                                | Some d => PFinite d
                                | None => PInfinity false
                                end)
      /\ (z <= 0 -> exists z', parseInt10 s = PFinite z' /\ z' <= 0
                     \/ parseInt10 s = PInfinity true)
  end.
Proof.
  intros H. inversion H as
    [ | ws Hws | ws c rest Hws Hc Hd Hp Hm | ws sg rest Hws Hsg Hr
      | ws ds rest Hws Hne Hds Hr | ws ds rest Hws Hne Hds Hr
      | ws ds rest Hws Hne Hds Hr ]; subst; unfold parseInt10.
  - now rewrite trimStart_blank.
  - rewrite trimStart_blank_app by assumption.
    apply N.eqb_neq in Hp, Hm. rewrite Hm, Hp. simpl. now rewrite Hd.
  - assert (isWhiteSpace sg = false) as Hsp by (destruct Hsg; subst; reflexivity).
    rewrite trimStart_blank_app by assumption.
    assert (takeWhile isDigit rest = []) as Ht.
    { destruct rest as [|c rest]; [reflexivity|]. simpl in *.
      apply negb_true_iff in Hr. now rewrite Hr. }
    destruct Hsg; subst; simpl; now rewrite Ht.
  - destruct ds as [|d ds]; [congruence|].
    assert (isDigit d = true) as Hd
      by (simpl in Hds; now apply andb_true_iff in Hds as [Hd _]).
    rewrite <- app_comm_cons, trimStart_blank_app
      by (try apply digit_is_no_space; assumption).
    destruct (digit_is_no_sign d Hd) as [-> ->].
    rewrite app_comm_cons, parseInt10_digit_run by assumption.
    split.
    + intros _. now destruct (toDouble (digitsValue (d :: ds))).
    + intros Hz. exists (digitsValue (d :: ds)). left.
      rewrite toDouble_exact; [auto|].
      pose proof (digitsValue_nonneg (d :: ds)). lia.
  - destruct ds as [|d ds]; [congruence|].
    rewrite trimStart_blank_app by (try reflexivity; assumption).
    cbv beta iota delta [N.eqb Pos.eqb].
    rewrite parseInt10_digit_run by assumption.
    split.
    + intros _. now destruct (toDouble (digitsValue (d :: ds))).
    + intros Hz. exists (digitsValue (d :: ds)). left.
      rewrite toDouble_exact; [auto|].
      pose proof (digitsValue_nonneg (d :: ds)). lia.
  - destruct ds as [|d ds]; [congruence|].
    rewrite trimStart_blank_app by (try reflexivity; assumption).
    cbv beta iota delta [N.eqb Pos.eqb].
    rewrite parseInt10_digit_run by assumption.
    pose proof (digitsValue_nonneg (d :: ds)) as Hnn.
    split.
    + intros Hz. assert (digitsValue (d :: ds) = 0) as E by lia.
      rewrite E. reflexivity.
    + intros _. destruct (toDouble (digitsValue (d :: ds))) as [x|] eqn:E.
      * exists (- x). left. split; [reflexivity|].
        pose proof (toDouble_nonneg _ _ Hnn E). lia.
      * exists 0. now right.
Qed.

Lemma ceiling_positive env : 1 <= ceiling env.
Proof.
  unfold ceiling, parsePositiveInt.
  destruct (WAITLIST_RATE_LIMIT_PER_DAY env) as [s|]; [|lia].
  destruct (negb (nonEmpty s)); [lia|].
  destruct (parseInt10 s) as [| |z]; try lia.
  destruct (z <? 1) eqn:E; [lia|]. apply Z.ltb_ge in E. exact E.
Qed.

Lemma ceiling_reading env v :
  leadingInteger (WAITLIST_RATE_LIMIT_PER_DAY env) v ->
  match v with
  | None => ceiling env = 10
  | Some z =>
      (z < 1 -> ceiling env = 10)
      /\ (1 <= z < 2 ^ 53 -> ceiling env = z)
      /\ (1 <= z ->
          exists d, nearestDouble z d
            /\ (forall d', nearestDouble z d' -> d' = d)
            /\ (d < 2 ^ 1024 -> ceiling env = d)
            /\ (2 ^ 1024 <= d -> ceiling env = 10))
  end.
Proof.
  unfold ceiling, parsePositiveInt.
  destruct (WAITLIST_RATE_LIMIT_PER_DAY env) as [s|].
  2:{ intros H. inversion H. reflexivity. }
  intros H. pose proof (parseInt10_leading s v H) as P.
  destruct (negb (nonEmpty s)) eqn:Es.
  { destruct s; [|discriminate Es].
    assert (v = None) as -> ; [|reflexivity].
    inversion H; subst; try reflexivity; exfalso;
      repeat match goal with
             | E : [] = _ ++ _ |- _ => symmetry in E
             | E : _ ++ _ = [] |- _ => apply app_eq_nil in E as [? ?]
             | E : _ :: _ = [] |- _ => discriminate E
             end; subst; cbn [app] in *; congruence. }
  destruct v as [z|]; [|now rewrite P].
  destruct P as [Ppos Pneg].
  assert (Hbig : 1 <= z ->
            exists d, nearestDouble z d
              /\ (forall d', nearestDouble z d' -> d' = d)
              /\ (z < 2 ^ 53 -> d = z)
              /\ (d < 2 ^ 1024 ->
                    match parseInt10 s with
                    | PFinite parsedValue =>
                        if parsedValue <? 1 then 10 else parsedValue
                    | _ => 10
                    end = d)
              /\ (2 ^ 1024 <= d ->
                    match parseInt10 s with
                    | PFinite parsedValue =>
                        if parsedValue <? 1 then 10 else parsedValue
                    | _ => 10
                    end = 10)).
  { intros Hz. destruct (toDouble_nearest z Hz) as (d & Hn & Hu & Hd & Ht & Hs).
    exists d. split; [exact Hn|]. split; [exact Hu|]. split; [exact Hs|].
    rewrite Ppos, Ht by lia. destruct (Z.ltb_spec d (2 ^ 1024)) as [Hf|Hf].
    - assert ((d <? 1) = false) as -> by (apply Z.ltb_ge; lia).
      split; [reflexivity|]. intros Hinf. exfalso. apply (Z.lt_irrefl d).
      eapply Z.lt_le_trans; eassumption.
    - split; [|reflexivity]. intros Hfin. exfalso. apply (Z.lt_irrefl d).
      eapply Z.lt_le_trans; eassumption. }
  split; [|split].
  - intros Hz. destruct Pneg as [z' [[-> Hz'] | ->]]; [lia| |reflexivity].
    assert ((z' <? 1) = true) as -> by (apply Z.ltb_lt; lia). reflexivity.
  - intros Hz. destruct (Hbig ltac:(lia)) as (d & _ & _ & Hs & Hfin & _).
    rewrite (Hs ltac:(lia)) in Hfin. apply Hfin.
    eapply Z.lt_trans; [apply Hz|apply pow2_1024].
  - intros Hz. destruct (Hbig Hz) as (d & Hn & Hu & _ & Hfin & Hinf).
    exists d. auto.
Qed.

(** C1 (amended). For every connecting address and every UTC calendar
    day, with N the ceiling read from the configuration. Every configured
    text has one reading: its leading decimal integer (white space and a
    sign may precede it, anything may follow it) or none. N is that
    integer as a double: the integer itself from 1 to below 2^53, above
    that the nearest double, the one with the even significand on a tie. N
    is the default 10 when the variable is unset or blank, when no digit
    stands there, when the integer is below 1, and when it is so large
    that it rounds to [Infinity], that is to 2^1024 or more. Every valid,
    non-bot submission from the address is accepted with 201 while the
    number of rows holding that address whose [created_at] lies on the day
    is below N; a valid, non-bot submission arriving when that number is at
    least N is answered 429 and the table is left as it was, whatever the
    emails. *)
Theorem C1_daily_ceiling `{R : Runtime} env c now db raw p :
  parseRequestBody c = inr raw ->
  safeParse (normalizePayload raw) = Some p ->
  honeypot p = false ->
  let N := ceiling env in
  let n := entriesOnUtcDay (getConnectingIp (req_headers c)) (utcDay now) db in
  1 <= N
  /\ (exists v, leadingInteger (WAITLIST_RATE_LIMIT_PER_DAY env) v)
  /\ (forall v, leadingInteger (WAITLIST_RATE_LIMIT_PER_DAY env) v ->
        match v with
        | None => N = 10
        | Some z =>
            (z < 1 -> N = 10)
            /\ (1 <= z < 2 ^ 53 -> N = z)
            /\ (1 <= z ->
                exists d, nearestDouble z d
                  /\ (forall d', nearestDouble z d' -> d' = d)
                  /\ (d < 2 ^ 1024 -> N = d)
                  /\ (2 ^ 1024 <= d -> N = 10))
        end)
  /\ (n < N -> (exec (postWaitlist env c now) db).1 = inr onWaitlist
               /\ res_status onWaitlist = 201)
  /\ (N <= n ->
      exec (postWaitlist env c now) db
      = (inr (rateLimited (secondsUntilNextUtcDay now)), db)
      /\ res_status (rateLimited (secondsUntilNextUtcDay now)) = 429).
Proof.
  intros Hb Hs Hh N n.
  split; [apply ceiling_positive|].
  split; [apply leadingInteger_total|].
  split; [apply ceiling_reading|].
  rewrite (postWaitlist_parsed env c now raw p Hb Hs), Hh, exec_submit.
  fold N n. split.
  - intros Hlt. assert ((N <=? n) = false) as -> by (apply Z.leb_gt; lia).
    split; reflexivity.
  - intros Hge. assert ((N <=? n) = true) as -> by (apply Z.leb_le; lia).
    split; reflexivity.
Qed.

Lemma C1_daily_ceiling_witness :
  (exec (postWaitlist (Sample.env (Some "3")) (Sample.signup "a@b.com") Sample.noon)
        (Sample.emptyTable Current)).1 = inr onWaitlist.
Proof.
  refine (proj1 (proj1 (proj2 (proj2 (proj2
    (C1_daily_ceiling (Sample.env (Some "3")) (Sample.signup "a@b.com") Sample.noon
       (Sample.emptyTable Current)
       (Sample.bodyOf (Sample.signup "a@b.com"))
       (Sample.payloadOf (Sample.signup "a@b.com"))
       _ _ _)))) _)); vm_compute; reflexivity.
Defined.

(** C1 as stated fails. The configured value [12abc] is not numeric, so
    the stated ceiling is the default 10; ten rows of the day hold the
    address 1.2.3.4; yet the next valid submission from it is accepted
    with 201 instead of being rejected with 429, because the worker reads
    the ceiling 12 from the text. Nor is every submission that arrives at
    the ceiling answered 429: under the default ceiling 10, with the same
    ten rows, a submission with the honeypot filled is answered 200 and
    one without an email 400, both standing before the limiter. *)
Lemma C1_counterexample :
  numericText (js "12abc") = false
  /\ entriesOnUtcDay (js "1.2.3.4") (utcDay Sample.noon) Sample.tenEntries = 10
  /\ ceiling (Sample.env (Some "12abc")) = 12
  /\ statusOf (exec (postWaitlist (Sample.env (Some "12abc"))
                       (Sample.signup "k@x.io") Sample.noon) Sample.tenEntries)
     = Some 201
  /\ ceiling (Sample.env None) = 10
  /\ getConnectingIp (req_headers Sample.honeypotFilled) = js "1.2.3.4"
  /\ statusOf (exec (postWaitlist (Sample.env None) Sample.honeypotFilled
                       Sample.noon) Sample.tenEntries)
     = Some 200
  /\ getConnectingIp (req_headers Sample.honeypotOnly) = js "1.2.3.4"
  /\ statusOf (exec (postWaitlist (Sample.env None) Sample.honeypotOnly
                       Sample.noon) Sample.tenEntries)
     = Some 400.
Proof. repeat split; vm_compute; reflexivity. Qed.

Lemma exec_accepted `{R : Runtime} env c now db raw p :
  parseRequestBody c = inr raw ->
  safeParse (normalizePayload raw) = Some p ->
  honeypot p = false ->
  entriesOnUtcDay (getConnectingIp (req_headers c)) (utcDay now) db < ceiling env ->
  exec (postWaitlist env c now) db
  = (inr onWaitlist,
     {| shape := shape db;
        rows := upsertRows (acceptedStatement (shape db))
                  (entryRow (shape db) c p now) (rows db) |}).
Proof.
  intros Hb Hs Hh Hlt.
  rewrite (postWaitlist_parsed env c now raw p Hb Hs), Hh, exec_submit.
  match goal with |- (if ?b then _ else _) = _ =>
    assert (b = false) as -> by (apply Z.leb_gt; lia) end.
  reflexivity.
Qed.



(** ** Validation and the honeypot *)

Section Validation.
Context `{R : Runtime}.

Lemma normalized_website raw :
  n_website (normalizePayload raw)
  = toOptionalString (orElse (prop raw "website") (prop raw "company")).
Proof. reflexivity. Qed.

Lemma normalized_email raw :
  n_email (normalizePayload raw) = toOptionalString (prop raw "email").
Proof. reflexivity. Qed.

(** A filled honeypot survives normalisation and the schema. *)
Lemma honeypot_filled raw p s :
  safeParse (normalizePayload raw) = Some p ->
  orElse (prop raw "website") (prop raw "company") = Some (JStr s) ->
  trim s <> [] ->
  website p = Some (trim s) /\ honeypot p = true.
Proof.
  intros Hs Hw Hne.
  destruct (safeParse_fields _ _ Hs) as (_ & Hweb & _).
  rewrite normalized_website, Hw, (toOptionalString_text s Hne) in Hweb.
  unfold zString in Hweb. rewrite trim_idempotent in Hweb.
  destruct (length (trim s) <=? 200)%nat; [|discriminate].
  injection Hweb as Hweb. split; [now rewrite <- Hweb|].
  unfold honeypot. rewrite <- Hweb. destruct (trim s); [congruence|reflexivity].
Qed.

Lemma overlong_website_rejected raw s :
  orElse (prop raw "website") (prop raw "company") = Some (JStr s) ->
  (200 < length (trim s))%nat ->
  safeParse (normalizePayload raw) = None.
Proof.
  intros Hw Hlen. destruct (safeParse (normalizePayload raw)) as [p|] eqn:Hs;
    [exfalso|reflexivity].
  destruct (safeParse_fields _ _ Hs) as (_ & Hweb & _).
  assert (trim s <> []) as Hne by (destruct (trim s); [simpl in Hlen; lia|discriminate]).
  rewrite normalized_website, Hw, (toOptionalString_text s Hne) in Hweb.
  unfold zString in Hweb. rewrite trim_idempotent in Hweb.
  assert ((length (trim s) <=? 200)%nat = false) as E by (apply Nat.leb_gt; lia).
  rewrite E in Hweb. discriminate.
Qed.

Lemma missing_email_rejected raw :
  toOptionalString (prop raw "email") = None ->
  safeParse (normalizePayload raw) = None.
Proof.
  intros He. rewrite safeParse_split, normalized_email, He. reflexivity.
Qed.

Lemma blank_email_rejected raw s :
  prop raw "email" = Some (JStr s) -> trim s = [] ->
  safeParse (normalizePayload raw) = None.
Proof.
  intros He Hs. apply missing_email_rejected.
  rewrite He. now apply toOptionalString_blank.
Qed.

Lemma email_check raw s :
  prop raw "email" = Some (JStr s) -> trim s <> [] ->
  zEmail (n_email (normalizePayload raw))
  = if zod_email (trim s) && (length (trim s) <=? 320)%nat
    then Some (trim s) else None.
Proof.
  intros He Hne. rewrite normalized_email, He, (toOptionalString_text s Hne).
  unfold zEmail. now rewrite trim_idempotent.
Qed.

Lemma malformed_email_rejected raw s :
  prop raw "email" = Some (JStr s) -> zod_email (trim s) = false ->
  safeParse (normalizePayload raw) = None.
Proof.
  intros He Hbad. destruct (trim s) eqn:E.
  - now apply (blank_email_rejected raw s).
  - rewrite safeParse_split, (email_check raw s He) by (rewrite E; discriminate).
    rewrite E in *. now rewrite Hbad.
Qed.

Lemma overlong_email_rejected raw s :
  prop raw "email" = Some (JStr s) -> (320 < length (trim s))%nat ->
  safeParse (normalizePayload raw) = None.
Proof.
  intros He Hlen.
  assert (trim s <> []) as Hne by (destruct (trim s); [simpl in Hlen; lia|discriminate]).
  rewrite safeParse_split, (email_check raw s He Hne).
  assert ((length (trim s) <=? 320)%nat = false) as -> by (apply Nat.leb_gt; lia).
  now rewrite andb_false_r.
Qed.

End Validation.

(** C3 as stated fails. The body fills the honeypot with text that is
    not blank and gives no email: the answer is 400, not the 200 of the
    bot filter. *)
Lemma C3_counterexample :
  prop (Sample.bodyOf Sample.honeypotOnly) "website"
    = Some (JStr (js "http://spam.example"))
  /\ trim (js "http://spam.example") <> []
  /\ postWaitlist (Sample.env None) Sample.honeypotOnly Sample.noon
     = Ret invalidPayload
  /\ res_status invalidPayload = 400.
Proof. repeat split; vm_compute; congruence. Qed.

(** C3 (amended). For every submitted payload that passes the schema and
    whose honeypot field ([website], or [company] in its place) is not
    empty after trimming, the handler answers 200 with [ok: true] and the
    generic thanks message without issuing any statement: no row is
    inserted or updated and, the filter standing before the rate limiter,
    the count the limiter reads is not touched. *)
Theorem C3_honeypot `{R : Runtime} env c now raw p s :
  parseRequestBody c = inr raw ->
  safeParse (normalizePayload raw) = Some p ->
  orElse (prop raw "website") (prop raw "company") = Some (JStr s) ->
  trim s <> [] ->
  postWaitlist env c now = Ret thanks
  /\ res_status thanks = 200
  /\ body_ok thanks = true
  /\ body_error thanks = None
  /\ body_message thanks = "Thanks for your interest."%string
  /\ forall db,
       exec (postWaitlist env c now) db = (inr thanks, db)
       /\ statementsRun (postWaitlist env c now) db = [].
Proof.
  intros Hb Hs Hw Hne.
  destruct (honeypot_filled raw p s Hs Hw Hne) as [_ Hh].
  assert (postWaitlist env c now = Ret thanks) as E
    by now rewrite (postWaitlist_parsed env c now raw p Hb Hs), Hh.
  rewrite E. repeat split.
Qed.

Lemma C3_honeypot_witness :
  exec (postWaitlist (Sample.env None) Sample.honeypotFilled Sample.noon)
       Sample.tenEntries
  = (inr thanks, Sample.tenEntries).
Proof.
  exact (proj1 (proj2 (proj2 (proj2 (proj2 (proj2
    (C3_honeypot (Sample.env None) Sample.honeypotFilled Sample.noon
       (Sample.bodyOf Sample.honeypotFilled)
       (Sample.payloadOf Sample.honeypotFilled)
       (js " Spam Inc ")
       ltac:(computed) ltac:(computed) ltac:(computed)
       ltac:(vm_compute; discriminate)))))) Sample.tenEntries)).
Defined.

(** C9. Validation stands before the bot filter: whatever the honeypot
    holds, a payload the schema refuses is answered 400 with
    [invalid_payload] — so when the honeypot content is longer than 200
    characters after trimming, when the email is missing, and when it is
    malformed — and the answer of the bot filter is given only to payloads
    the schema accepts. *)
Theorem C9_validation_first `{R : Runtime} env c now raw :
  parseRequestBody c = inr raw ->
  (safeParse (normalizePayload raw) = None ->
     postWaitlist env c now = Ret invalidPayload)
  /\ res_status invalidPayload = 400
  /\ body_error invalidPayload = Some "invalid_payload"%string
  /\ (postWaitlist env c now = Ret thanks ->
        exists p, safeParse (normalizePayload raw) = Some p /\ honeypot p = true)
  /\ (forall s, orElse (prop raw "website") (prop raw "company") = Some (JStr s) ->
        (200 < length (trim s))%nat ->
        postWaitlist env c now = Ret invalidPayload)
  /\ (toOptionalString (prop raw "email") = None ->
        postWaitlist env c now = Ret invalidPayload)
  /\ (forall s, prop raw "email" = Some (JStr s) -> zod_email (trim s) = false ->
        postWaitlist env c now = Ret invalidPayload).
Proof.
  intros Hb.
  pose proof (postWaitlist_invalid env c now raw Hb) as Hinv.
  split; [exact Hinv|]. split; [reflexivity|]. split; [reflexivity|].
  split.
  { destruct (safeParse (normalizePayload raw)) as [p|] eqn:Hs.
    - rewrite (postWaitlist_parsed env c now raw p Hb Hs).
      destruct (honeypot p) eqn:Hh; [eauto|]. unfold submit. discriminate.
    - rewrite (Hinv eq_refl). discriminate. }
  split.
  { intros s Hw Hlen. apply Hinv. now apply (overlong_website_rejected raw s). }
  split.
  { intros He. apply Hinv. now apply missing_email_rejected. }
  intros s He Hbad. apply Hinv. now apply (malformed_email_rejected raw s).
Qed.

Lemma C9_validation_first_witness :
  postWaitlist (Sample.env None) Sample.honeypotOnly Sample.noon = Ret invalidPayload.
Proof.
  exact (proj1 (C9_validation_first (Sample.env None) Sample.honeypotOnly Sample.noon
                  (Sample.bodyOf Sample.honeypotOnly) ltac:(computed))
               ltac:(computed)).
Defined.

(** C8. An email made of white space only counts as absent and the
    request is answered 400; an email of valid form whose trimmed text is
    exactly 320 characters long passes the schema (the other fields
    passing too), so the request is not answered 400; an email whose
    trimmed text is 321 characters long, or longer, is answered 400. *)
Theorem C8_email_bounds `{R : Runtime} env c now raw s :
  parseRequestBody c = inr raw ->
  prop raw "email" = Some (JStr s) ->
  (forallb isWhiteSpace s = true ->
     n_email (normalizePayload raw) = None
     /\ postWaitlist env c now = Ret invalidPayload)
  /\ (zod_email (trim s) = true -> length (trim s) = 320%nat ->
      is_Some (safeParseOthers (normalizePayload raw) (trim s)) ->
      exists p, safeParse (normalizePayload raw) = Some p
                /\ email p = trim s
                /\ postWaitlist env c now
                   = (if honeypot p then Ret thanks else submit env c now p)
                /\ postWaitlist env c now <> Ret invalidPayload)
  /\ ((320 < length (trim s))%nat ->
      postWaitlist env c now = Ret invalidPayload)
  /\ res_status invalidPayload = 400.
Proof.
  intros Hb He. split.
  { intros Hblank. pose proof (trim_blank s Hblank) as Ht. split.
    - rewrite normalized_email, He. now apply toOptionalString_blank.
    - apply (postWaitlist_invalid env c now raw Hb).
      now apply (blank_email_rejected raw s). }
  split.
  { intros Hform Hlen [p Hp].
    assert (trim s <> []) as Hne by (destruct (trim s); [discriminate|discriminate]).
    assert (safeParse (normalizePayload raw) = Some p) as Hs.
    { rewrite safeParse_split, (email_check raw s He Hne), Hform, Hlen. exact Hp. }
    exists p. split; [exact Hs|]. split.
    { now apply (safeParseOthers_keeps_email (normalizePayload raw)). }
    pose proof (postWaitlist_parsed env c now raw p Hb Hs) as E.
    split; [exact E|]. rewrite E.
    destruct (honeypot p); [|unfold submit]; discriminate. }
  split; [|reflexivity].
  intros Hlen. apply (postWaitlist_invalid env c now raw Hb).
  now apply (overlong_email_rejected raw s He).
Qed.

Lemma C8_email_bounds_witness :
  length (trim Sample.longAddress) = 320%nat
  /\ postWaitlist (Sample.env None) Sample.longSignup Sample.noon <> Ret invalidPayload.
Proof.
  split; [computed|].
  destruct (proj1 (proj2
    (C8_email_bounds (Sample.env None) Sample.longSignup Sample.noon
       (Sample.bodyOf Sample.longSignup) Sample.longAddress
       ltac:(computed) ltac:(computed)))
    ltac:(computed) ltac:(computed) ltac:(vm_compute; eauto))
    as (p & _ & _ & _ & H).
  exact H.
Defined.

(** ** The upsert and its fallback *)

Section Fallback.
Context `{R : Runtime}.

Lemma ip_hash_not_in_first_statement :
  ("ip_hash"%string ∉ insertColumns UpsertEntry)
  /\ ("ip_hash"%string ∉ updateColumns UpsertEntry).
Proof. split; compute_done. Qed.

(** The second statement is the first with [ip_hash] put in: sixth in
    the column list, where the retry binds the digest, and among the
    assignments of the update clause. *)
Lemma second_statement_adds_ip_hash :
  insertColumns UpsertEntryWithIpHash
  = firstn 5 (insertColumns UpsertEntry) ++ ["ip_hash"%string]
    ++ skipn 5 (insertColumns UpsertEntry)
  /\ updateColumns UpsertEntryWithIpHash
     = firstn 4 (updateColumns UpsertEntry) ++ ["ip_hash"%string]
       ++ skipn 4 (updateColumns UpsertEntry).
Proof. split; reflexivity. Qed.

(** The retry binds the digest to [ip_hash] and leaves the binding of
    the columns the handler reads back as it was. *)
Lemma retry_binds_ip_hash c p now :
  entryRow LegacyIpHash c p now !! "ip_hash"
  = Some (SqlText (sha256Hex (getConnectingIp (req_headers c)))).
Proof. vm_compute. reflexivity. Qed.

Lemma postWaitlist_writes env c now raw p count answers n :
  parseRequestBody c = inr raw ->
  safeParse (normalizePayload raw) = Some p ->
  honeypot p = false ->
  count = inr (Some n) -> n < ceiling env ->
  attempts count answers 0 (postWaitlist env c now)
  = attempts count answers 0
      (writeEntry (upsertValues c p now) (getConnectingIp (req_headers c))).
Proof.
  intros Hb Hs Hh -> Hn.
  rewrite (postWaitlist_parsed env c now raw p Hb Hs), Hh.
  unfold submit. cbn [attempts default]. fold (ceiling env).
  change (id n) with n.
  assert ((ceiling env <=? n) = false) as -> by (apply Z.leb_gt; lia).
  reflexivity.
Qed.

End Fallback.

Lemma recognised_store_errors g col :
  col ∈ tableColumns g ->
  isIpHashConstraintError (notNullFailure col) = bool_decide (col = "ip_hash"%string).
Proof.
  revert col. apply Forall_forall. destruct g; compute_done.
Qed.

(** The test of the [catch] block, read as a statement about the thrown
    value. *)
Lemma isIpHashConstraintError_spec (error : jserror) :
  isIpHashConstraintError error = true
  <-> instanceofError error = true
      /\ containsText (js "NOT NULL constraint failed: waitlist_entries.ip_hash")
           (message error).
Proof.
  unfold isIpHashConstraintError. rewrite <- includes_spec.
  destruct (instanceofError error); cbn [negb]; [tauto|].
  split; [discriminate|]. intros [H _]. discriminate H.
Qed.

(** C4 (amended). Whatever the store answers, the writer first issues the
    upsert whose column list has no [ip_hash]. If it is accepted the
    request ends with 201 after that one statement. If it is refused, the
    writer tries again exactly when the thrown value is an [Error] whose
    message contains the text
    [NOT NULL constraint failed: waitlist_entries.ip_hash]: so for the NOT
    NULL failure on [ip_hash], for no NOT NULL failure on another column
    of the table, for nothing that is not an [Error], but also for any
    other error whose message holds that text. It then issues exactly one
    more statement, the same upsert with [ip_hash] put sixth and bound to
    the SHA-256 digest of the connecting address written in lower-case
    hexadecimal, two digits a byte, every other column bound as before;
    the request ends with 201 or with the error of that second statement,
    unchanged. If the first statement is refused with any other error, no
    further statement is issued and that error is thrown unchanged. Never
    are more than two statements issued. *)
Theorem C4_ip_hash_fallback `{R : Runtime} count answers values ipAddress :
  let needle := js "NOT NULL constraint failed: waitlist_entries.ip_hash" in
  let recognised (error : jserror) :=
    instanceofError error = true /\ containsText needle (message error) in
  let bytes := SHA256 (TextEncoder_encode ipAddress) in
  let digest := hexadecimal bytes in
  let retry := firstn 5 values ++ [SqlText digest] ++ skipn 5 values in
  let run := attempts count answers 0 (writeEntry values ipAddress) in
  Forall (fun b => (b < 256)%N) bytes ->
  (forall accepted, answers 0%nat = inr accepted ->
     run = (inr onWaitlist, [(UpsertEntry, values)]))
  /\ (forall error, answers 0%nat = inl error -> recognised error ->
        run = (match answers 1%nat with
               | inr _ => inr onWaitlist
               | inl error' => inl error'
               end,
               [(UpsertEntry, values); (UpsertEntryWithIpHash, retry)]))
  /\ (forall error, answers 0%nat = inl error -> ~ recognised error ->
        run = (inl error, [(UpsertEntry, values)]))
  /\ (length (snd run) <= 2)%nat
  /\ ("ip_hash"%string ∉ insertColumns UpsertEntry)
  /\ insertColumns UpsertEntryWithIpHash
     = firstn 5 (insertColumns UpsertEntry) ++ ["ip_hash"%string]
       ++ skipn 5 (insertColumns UpsertEntry)
  /\ updateColumns UpsertEntryWithIpHash
     = firstn 4 (updateColumns UpsertEntry) ++ ["ip_hash"%string]
       ++ skipn 4 (updateColumns UpsertEntry)
  /\ (length values = length (insertColumns UpsertEntry) ->
        bindRow (insertColumns UpsertEntryWithIpHash) retry
        = <["ip_hash"%string := SqlText digest]>
            (bindRow (insertColumns UpsertEntry) values))
  /\ recognised (notNullFailure "ip_hash")
  /\ (forall g col, col ∈ tableColumns g -> col <> "ip_hash"%string ->
        ~ recognised (notNullFailure col))
  /\ (forall text, ~ recognised {| instanceofError := false; message := text |}).
Proof.
  intros needle recognised bytes digest retry run Hbytes.
  assert (Hrec : forall error,
            recognised error <-> isIpHashConstraintError error = true).
  { intros error. symmetry. apply isIpHashConstraintError_spec. }
  assert (Hrun : run
            = match answers 0%nat with
              | inr _ => (inr onWaitlist, [(UpsertEntry, values)])
              | inl error =>
                  if isIpHashConstraintError error
                  then (match answers 1%nat with
                        | inr _ => inr onWaitlist
                        | inl error' => inl error'
                        end,
                        [(UpsertEntry, values); (UpsertEntryWithIpHash, retry)])
                  else (inl error, [(UpsertEntry, values)])
              end).
  { unfold run, retry, digest. rewrite <- (hexByte_hexadecimal _ Hbytes).
    unfold bytes, writeEntry, upsertValuesWithIpHash, sha256Hex. cbn [attempts].
    destruct (answers 0%nat) as [error|[]]; [|reflexivity].
    destruct (isIpHashConstraintError error); cbn [negb attempts]; [|reflexivity].
    destruct (answers 1%nat) as [error'|[]]; reflexivity. }
  split; [|split; [|split; [|split]]].
  - intros accepted Ha. now rewrite Hrun, Ha.
  - intros error Ha Hr. apply Hrec in Hr. now rewrite Hrun, Ha, Hr.
  - intros error Ha Hr. rewrite Hrun, Ha.
    destruct (isIpHashConstraintError error) eqn:E; [|reflexivity].
    exfalso. apply Hr, Hrec, E.
  - rewrite Hrun. destruct (answers 0%nat) as [error|]; [|cbn; lia].
    destruct (isIpHashConstraintError error); cbn; lia.
  - split; [apply ip_hash_not_in_first_statement|].
    split; [apply second_statement_adds_ip_hash|].
    split; [apply second_statement_adds_ip_hash|].
    split.
    { intros Hlen. rewrite (proj1 second_statement_adds_ip_hash).
      apply bindRow_sixth; [now rewrite Hlen|compute_done]. }
    split; [apply Hrec; reflexivity|].
    split.
    + intros g col Hcol Hne Hr. apply Hrec in Hr.
      rewrite (recognised_store_errors g col Hcol) in Hr.
      apply bool_decide_eq_true_1 in Hr. contradiction.
    + intros text [Hr _]. discriminate Hr.
Qed.

Lemma C4_ip_hash_fallback_witness :
  let values := upsertValues (Sample.signup "a@b.com")
                  (Sample.payloadOf (Sample.signup "a@b.com")) Sample.noon in
  attempts (inr (Some 0)) Sample.legacyAnswers 0 (writeEntry values (js "1.2.3.4"))
  = (inr onWaitlist,
     [(UpsertEntry, values);
      (UpsertEntryWithIpHash,
       firstn 5 values ++ [SqlText (repeat 48%N 64)] ++ skipn 5 values)]).
Proof.
  intros values.
  pose proof (C4_ip_hash_fallback (inr (Some 0)) Sample.legacyAnswers values
                (js "1.2.3.4") ltac:(compute_done))
    as (_ & Hretry & _ & _ & _ & _ & _ & _ & Hrecognised & _).
  exact (Hretry (notNullFailure "ip_hash") eq_refl Hrecognised).
Defined.

(** C4 as stated fails on its "only if". The store refuses the first
    statement with the NOT NULL failure on a column named [ip_hash_v2]:
    this is not the failure on [waitlist_entries.ip_hash], yet its message
    holds the text the handler looks for, and the writer retries with the
    digest. *)
Lemma C4_counterexample :
  message (notNullFailure "ip_hash_v2")
  = js "D1_ERROR: NOT NULL constraint failed: waitlist_entries.ip_hash_v2: SQLITE_CONSTRAINT"
  /\ notNullFailure "ip_hash_v2" <> notNullFailure "ip_hash"
  /\ Sample.lookalikeAnswers 0%nat = inl (notNullFailure "ip_hash_v2")
  /\ isIpHashConstraintError (notNullFailure "ip_hash_v2") = true
  /\ map fst (attempts (inr (Some 0)) Sample.lookalikeAnswers 0
                (postWaitlist (Sample.env None) (Sample.signup "a@b.com")
                   Sample.noon)).2
     = [UpsertEntry; UpsertEntryWithIpHash]
  /\ (attempts (inr (Some 0)) Sample.lookalikeAnswers 0
        (postWaitlist (Sample.env None) (Sample.signup "a@b.com") Sample.noon)).1
     = inr onWaitlist.
Proof. repeat split; try (vm_compute; reflexivity). vm_compute. discriminate. Qed.

(** ** The body parser *)

Section BodyParser.
Context `{R : Runtime}.

(** Under a JSON content type the parser returns: the parsed value when
    it is an object (or an array), the empty object otherwise, a failed
    parse included. *)
Lemma parseRequestBody_json c :
  includes (js "application/json") (contentTypeOf c) = true ->
  parseRequestBody c
  = inr (match req_json c with
         | Some (JObj props) => JObj props
         | Some (JArr items) => JArr items
         | _ => JObj []
         end).
Proof.
  unfold parseRequestBody, contentTypeOf. intros ->.
  now destruct (req_json c) as [[]|].
Qed.

(** Under a content type that is none of the three, the parser returns
    the empty object. *)
Lemma parseRequestBody_other c :
  includes (js "application/json") (contentTypeOf c) = false ->
  includes (js "application/x-www-form-urlencoded") (contentTypeOf c) = false ->
  includes (js "multipart/form-data") (contentTypeOf c) = false ->
  parseRequestBody c = inr (JObj []).
Proof. unfold parseRequestBody, contentTypeOf. now intros -> -> ->. Qed.

(** Under a form content type the parser returns exactly when
    [formData()] does. *)
Lemma parseRequestBody_form c :
  includes (js "application/json") (contentTypeOf c) = false ->
  (includes (js "application/x-www-form-urlencoded") (contentTypeOf c)
   || includes (js "multipart/form-data") (contentTypeOf c)) = true ->
  match req_formData c with
  | inl error => parseRequestBody c = inl error
  | inr _ => exists raw, parseRequestBody c = inr raw
  end.
Proof.
  unfold parseRequestBody, contentTypeOf. intros -> ->.
  destruct (req_formData c); eauto.
Qed.

(** The empty object fails validation: the email is missing. *)
Lemma empty_body_invalid env c now :
  parseRequestBody c = inr (JObj []) ->
  postWaitlist env c now = Ret invalidPayload.
Proof.
  intros Hb. apply (postWaitlist_invalid env c now (JObj []) Hb).
  now apply missing_email_rejected.
Qed.

End BodyParser.

(** C5, at an input where the parser is not total: the body is
    declared [multipart/form-data] and cannot be decoded, [formData()]
    rejects, and the rejection leaves [parseRequestBody] and the handler
    as a thrown error; no key/value structure is returned and no 400 is
    sent. *)
Theorem C5_form_rejection_escapes :
  parseRequestBody Sample.malformedForm = inl Sample.typeError
  /\ postWaitlist (Sample.env None) Sample.malformedForm Sample.noon
     = Throw Sample.typeError.
Proof. split; vm_compute; reflexivity. Qed.

(** ** The retry hint *)

Lemma next_midnight_unique now m :
  nextUtcMidnight now m -> m = (utcDay now + 1) * msPerDay.
Proof.
  unfold nextUtcMidnight, utcDay, msPerDay. intros (Hmod & Hlt & Hmin).
  pose proof (Z.div_mod now 86400000 ltac:(lia)) as Hn.
  pose proof (Z.mod_pos_bound now 86400000 ltac:(lia)) as Bn.
  pose proof (Z.div_mod m 86400000 ltac:(lia)) as Hm.
  rewrite Hmod in Hm.
  assert (m <= (now / 86400000 + 1) * 86400000) as Hle.
  { apply Hmin; [|lia]. apply Z.mod_mul. lia. }
  lia.
Qed.

Lemma ceilDiv_spec a : ceilingOfThousandth a (ceilDiv a 1000).
Proof.
  unfold ceilingOfThousandth, ceilDiv.
  pose proof (Z.div_mod (- a) 1000 ltac:(lia)) as H.
  pose proof (Z.mod_pos_bound (- a) 1000 ltac:(lia)) as B.
  lia.
Qed.

Lemma secondsUntilNextUtcDay_spec now :
  let v := secondsUntilNextUtcDay now in
  ceilingOfThousandth ((utcDay now + 1) * msPerDay - now) v
  /\ 1 <= v <= 86400.
Proof.
  unfold secondsUntilNextUtcDay.
  set (a := (utcDay now + 1) * msPerDay - now).
  assert (1 <= a <= 86400000) as Ha.
  { unfold a, utcDay, msPerDay.
    pose proof (Z.div_mod now 86400000 ltac:(lia)).
    pose proof (Z.mod_pos_bound now 86400000 ltac:(lia)). lia. }
  pose proof (ceilDiv_spec a) as Hc. unfold ceilingOfThousandth in *.
  rewrite Z.max_r by lia. lia.
Qed.

(** C6. For every request that the limiter rejects at the instant T, the
    answer carries the header [Retry-After] whose value is the decimal
    text of the ceiling of (m - T) / 1000, where m is the first UTC
    midnight after T; the value is at least 1 (and at most 86400). *)
Theorem C6_retry_after `{R : Runtime} env c now db raw p m :
  parseRequestBody c = inr raw ->
  safeParse (normalizePayload raw) = Some p ->
  honeypot p = false ->
  ceiling env <= entriesOnUtcDay (getConnectingIp (req_headers c)) (utcDay now) db ->
  nextUtcMidnight now m ->
  exists response v,
    (exec (postWaitlist env c now) db).1 = inr response
    /\ res_status response = 429
    /\ res_headers response = [("Retry-After"%string, decimal v)]
    /\ v = secondsUntilNextUtcDay now
    /\ ceilingOfThousandth (m - now) v
    /\ 1 <= v <= 86400.
Proof.
  intros Hb Hs Hh Hlim Hm.
  exists (rateLimited (secondsUntilNextUtcDay now)), (secondsUntilNextUtcDay now).
  rewrite (postWaitlist_parsed env c now raw p Hb Hs), Hh, exec_submit.
  match goal with |- context [if ?b then _ else _] =>
    assert (b = true) as -> by (apply Z.leb_le; lia) end.
  rewrite (next_midnight_unique now m Hm).
  pose proof (secondsUntilNextUtcDay_spec now) as [Hc Hb'].
  repeat split; solve [reflexivity | apply Hc | apply Hb'].
Qed.

Lemma C6_retry_after_witness :
  exists response,
    (exec (postWaitlist (Sample.env None) (Sample.signup "k@x.io") Sample.noon)
          Sample.tenEntries).1 = inr response
    /\ res_headers response = [("Retry-After"%string, js "43200")].
Proof.
  assert (nextUtcMidnight Sample.noon 1704153600000) as Hm.
  { unfold nextUtcMidnight, msPerDay, Sample.noon. split; [reflexivity|].
    split; [lia|]. intros m' Hmod Hlt.
    pose proof (Z.div_mod m' 86400000 ltac:(lia)) as H. rewrite Hmod in H. lia. }
  destruct (C6_retry_after (Sample.env None) (Sample.signup "k@x.io") Sample.noon
              Sample.tenEntries
              (Sample.bodyOf (Sample.signup "k@x.io"))
              (Sample.payloadOf (Sample.signup "k@x.io"))
              1704153600000
              ltac:(computed) ltac:(computed) ltac:(computed) ltac:(computed) Hm)
    as (response & v & Hr & _ & Hh & Hv & _).
  exists response. split; [exact Hr|]. rewrite Hh, Hv. reflexivity.
Defined.

(** ** The sanitised additional fields *)

Section Objects.
Context {V : Type}.




Lemma replace_In k (v : V) o k' v' :
  In (k', v') (Obj.replace k v o) -> In (k', v') o \/ (k' = k /\ v' = v).
Proof.
  induction o as [|[k0 v0] o IH]; simpl; [tauto|].
  unfold Obj.key_eqb. case_bool_decide as E; simpl.
  - intros [[= <- <-]|H]; [right; now subst | left; now right].
  - intros [H|H]; [left; now left|]. destruct (IH H); tauto.
Qed.

Lemma insertIndexed_In i k (v : V) o k' v' :
  In (k', v') (Obj.insertIndexed i k v o) -> In (k', v') o \/ (k' = k /\ v' = v).
Proof.
  induction o as [|[k0 v0] o IH]; simpl.
  - intros [[= <- <-]|[]]. now right.
  - destruct (Obj.arrayIndex k0) as [j|].
    + destruct (j <? i)%N; simpl.
      * intros [H|H]; [left; now left|]. destruct (IH H); tauto.
      * intros [[= <- <-]|H]; [now right | now left].
    + simpl. intros [[= <- <-]|H]; [now right | now left].
Qed.

Lemma assign_In k (v : V) o k' v' :
  In (k', v') (assign k v o) -> In (k', v') o \/ (k' = k /\ v' = v).
Proof.
  unfold assign, Obj.define. destruct (Obj.key_eqb k proto_key); [tauto|].
  destruct (Obj.has k o); [apply replace_In|].
  destruct (Obj.arrayIndex k); [apply insertIndexed_In|].
  intros H. apply in_app_or in H as [H|[[= <- <-]|[]]]; [now left | now right].
Qed.



Lemma delete_get k (o : Obj.obj V) : Obj.get k (Obj.delete k o) = None.
Proof.
  unfold Obj.delete. induction o as [|[k' v'] o IH]; simpl; [reflexivity|].
  destruct (Obj.key_eqb k k') eqn:E; simpl; [exact IH|]. now rewrite E.
Qed.

End Objects.

Section Sanitizer.
Context `{R : Runtime}.











End Sanitizer.



(** ** Defaults of the source and of the landing path *)

(** C10. For every valid, non-bot submission below the ceiling, the row
    written for its email holds text, never NULL, in [source_url] and
    [landing_path]. When the submission gives no source, [source_url] and
    the [request.source] entry of the stored metadata are the full request
    URL; when it gives no landing path, [landing_path] is the path of the
    request URL. *)
Theorem C10_defaults `{R : Runtime} env c now db raw p :
  parseRequestBody c = inr raw ->
  safeParse (normalizePayload raw) = Some p ->
  honeypot p = false ->
  entriesOnUtcDay (getConnectingIp (req_headers c)) (utcDay now) db < ceiling env ->
  let db' := (exec (postWaitlist env c now) db).2 in
  let e := toLowerCase (email p) in
  let stored := buildMetadata c p (getCfSnapshot c) in
  (exists r, In r (rows db') /\ hasEmail e r = true)
  /\ forall r, In r (rows db') -> hasEmail e r = true ->
       r !! "metadata_json" = Some (SqlText (JSON_stringify stored))
       /\ (exists s, r !! "source_url" = Some (SqlText s))
       /\ (exists s, r !! "landing_path" = Some (SqlText s))
       /\ (n_source (normalizePayload raw) = None ->
             r !! "source_url" = Some (SqlText (href (req_url c)))
             /\ (prop stored "request" ≫= fun request => prop request "source")
                = Some (JStr (href (req_url c))))
       /\ (n_landingPath (normalizePayload raw) = None ->
             r !! "landing_path" = Some (SqlText (pathname (req_url c)))).
Proof.
  intros Hb Hs Hh Hlt db' e stored.
  assert (rows db' = upsertRows (acceptedStatement (shape db))
                       (entryRow (shape db) c p now) (rows db)) as Hrows.
  { unfold db'. now rewrite (exec_accepted env c now db raw p). }
  rewrite Hrows.
  pose proof (entryRow_rowEmail (shape db) c p now) as He. fold e in He.
  split; [now apply upsertRows_present|].
  intros r Hin Hr.
  destruct (written_columns_updated (acceptedStatement (shape db)))
    as (Hsrc & Hland & Hmeta).
  pose proof (upsertRows_written _ _ e _ r _ He Hin Hr Hsrc) as Esrc.
  pose proof (upsertRows_written _ _ e _ r _ He Hin Hr Hland) as Eland.
  pose proof (upsertRows_written _ _ e _ r _ He Hin Hr Hmeta) as Emeta.
  rewrite entryRow_source_url in Esrc.
  rewrite entryRow_landing_path in Eland.
  rewrite entryRow_metadata_json in Emeta.
  destruct (safeParse_fields _ _ Hs) as (_ & _ & Hsource & Hpath & _).
  split; [exact Emeta|]. split; [eauto|]. split; [eauto|]. split.
  - intros Habsent. rewrite Habsent in Hsource. injection Hsource as Hsource.
    rewrite Esrc. unfold stored, resolvedSource. cbn [buildMetadata prop Obj.get].
    unfold resolvedSource. rewrite <- Hsource. split; reflexivity.
  - intros Habsent. rewrite Habsent in Hpath. injection Hpath as Hpath.
    rewrite Eland, <- Hpath. reflexivity.
Qed.

Lemma C10_defaults_witness :
  exists r,
    In r (rows (Sample.submitted (Sample.emptyTable LegacyIpHash) "a@b.com"))
    /\ r !! "source_url" = Some (SqlText (js "https://example.com/api/waitlist"))
    /\ r !! "landing_path" = Some (SqlText (js "/api/waitlist")).
Proof.
  destruct (C10_defaults (Sample.env None) (Sample.signup "a@b.com") Sample.noon
              (Sample.emptyTable LegacyIpHash)
              (Sample.bodyOf (Sample.signup "a@b.com"))
              (Sample.payloadOf (Sample.signup "a@b.com"))
              ltac:(computed) ltac:(computed) ltac:(computed) ltac:(computed))
    as [(r & Hin & Hr) Hall].
  exists r. split; [exact Hin|].
  destruct (Hall r Hin Hr) as (_ & _ & _ & Hsrc & Hland).
  split; [exact (proj1 (Hsrc ltac:(computed))) | exact (Hland ltac:(computed))].
Defined.

(** * Further properties of the code *)

(** ** The language cookie *)

Lemma matchLocaleHere_Some s code :
  matchLocaleHere s = Some code ->
  In code localeCodes /\ startsWith (js "locale=" ++ code) s = true.
Proof.
  unfold matchLocaleHere. intros H. apply find_some in H. exact H.
Qed.

Lemma matchLocaleHere_None s :
  matchLocaleHere s = None ->
  forall code, In code localeCodes -> startsWith (js "locale=" ++ code) s = false.
Proof.
  unfold matchLocaleHere. intros H code Hin.
  exact (find_none _ _ H code Hin).
Qed.

Lemma startsWith_includes needle hay :
  startsWith needle hay = true -> includes needle hay = true.
Proof. intros H. destruct hay; simpl; rewrite H; reflexivity. Qed.

Lemma matchLocale_Some s code :
  matchLocale s = Some code ->
  In code localeCodes /\ includes (js "locale=" ++ code) s = true.
Proof.
  induction s as [|c s IH]; cbn [matchLocale].
  - destruct (matchLocaleHere []) eqn:E; [|discriminate].
    intros [= <-]. apply matchLocaleHere_Some in E as [Hin Hs].
    split; [exact Hin|now apply startsWith_includes].
  - destruct (matchLocaleHere (c :: s)) eqn:E.
    + intros [= <-]. apply matchLocaleHere_Some in E as [Hin Hs].
      split; [exact Hin|now apply startsWith_includes].
    + intros H. destruct (IH H) as [Hin Hinc]. split; [exact Hin|].
      cbn [includes]. rewrite Hinc. apply orb_true_r.
Qed.

Lemma matchLocale_None s code :
  matchLocale s = None -> In code localeCodes ->
  includes (js "locale=" ++ code) s = false.
Proof.
  intros H Hin. induction s as [|c s IH]; cbn [matchLocale] in H.
  - reflexivity.
  - destruct (matchLocaleHere (c :: s)) eqn:E; [discriminate|].
    cbn [includes]. rewrite (matchLocaleHere_None _ E code Hin), (IH H).
    reflexivity.
Qed.

Lemma startsWith_head a needle c hay :
  a <> c -> startsWith (a :: needle) (c :: hay) = false.
Proof. intros H. simpl. apply N.eqb_neq in H. now rewrite H. Qed.

Lemma matchLocale_skips pre rest :
  Forall (fun c => c <> 108%N) pre ->
  matchLocale (pre ++ rest) = matchLocale rest.
Proof.
  induction 1 as [|c pre Hc _ IH]; [reflexivity|].
  rewrite <- app_comm_cons. cbn [matchLocale].
  assert (forall code, startsWith (js "locale=" ++ code) (c :: pre ++ rest) = false)
    as Hs by (intros code; apply (startsWith_head 108%N); congruence).
  assert (matchLocaleHere (c :: pre ++ rest) = None) as ->.
  { unfold matchLocaleHere, localeCodes. cbn [find]. now rewrite !Hs. }
  exact IH.
Qed.

(** X1. [getLangFromCookie] answers with one of the four codes or with
    nothing. It answers with a code only when the cookie text contains
    [locale=] followed by that code, and with nothing exactly when the
    text contains none of the four; the pattern is not anchored, so the
    code is found wherever it stands, and when no [l] precedes the first
    [locale=] the code after it is the answer. *)
Theorem X1_language_cookie (s : jsstring) :
  (forall code, getLangFromCookie (Some s) = Some code ->
     In code localeCodes /\ includes (js "locale=" ++ code) s = true)
  /\ (getLangFromCookie (Some s) = None <->
      forall code, In code localeCodes -> includes (js "locale=" ++ code) s = false)
  /\ (forall pre code post,
        s = pre ++ js "locale=" ++ code ++ post ->
        In code localeCodes -> Forall (fun c => c <> 108%N) pre ->
        getLangFromCookie (Some s) = Some code)
  /\ getLangFromCookie None = None.
Proof.
  assert (Hcode : forall code, In code localeCodes -> nonEmpty code = true).
  { intros code Hin. unfold localeCodes in Hin. simpl in Hin.
    destruct Hin as [<-|[<-|[<-|[<-|[]]]]]; reflexivity. }
  assert (Hget : getLangFromCookie (Some s) = matchLocale s).
  { unfold getLangFromCookie. destruct s as [|c s]; [reflexivity|].
    cbn [nonEmpty negb]. destruct (matchLocale (c :: s)) as [code|] eqn:E;
      [|reflexivity].
    destruct (matchLocale_Some _ _ E) as [Hin _]. now rewrite (Hcode code Hin). }
  rewrite Hget. split; [apply matchLocale_Some|]. split.
  { split.
    - intros H code Hin. now apply matchLocale_None.
    - intros H. destruct (matchLocale s) as [code|] eqn:E; [|reflexivity].
      destruct (matchLocale_Some _ _ E) as [Hin Hinc].
      rewrite (H code Hin) in Hinc. discriminate. }
  split; [|reflexivity].
  intros pre code post -> Hin Hpre.
  rewrite (matchLocale_skips pre _ Hpre).
  unfold localeCodes in Hin. simpl in Hin.
  destruct Hin as [<-|[<-|[<-|[<-|[]]]]]; reflexivity.
Qed.

(** ** The handler against any store *)

Section AnyStore.
Context `{R : Runtime}.

Lemma attempts_writeEntry count answers values ipAddress :
  attempts count answers 0 (writeEntry values ipAddress)
  = match answers 0%nat with
    | inr _ => (inr onWaitlist, [(UpsertEntry, values)])
    | inl error =>
        if isIpHashConstraintError error
        then (match answers 1%nat with
              | inr _ => inr onWaitlist
              | inl error' => inl error'
              end,
              [(UpsertEntry, values);
               (UpsertEntryWithIpHash, upsertValuesWithIpHash values ipAddress)])
        else (inl error, [(UpsertEntry, values)])
    end.
Proof.
  unfold writeEntry. cbn [attempts].
  destruct (answers 0%nat) as [error|[]]; [|reflexivity].
  destruct (isIpHashConstraintError error); cbn [negb attempts]; [|reflexivity].
  destruct (answers 1%nat) as [error'|[]]; reflexivity.
Qed.

Lemma postWaitlist_ending env c now count answers :
  ending c now (attempts count answers 0 (postWaitlist env c now)).
Proof.
  unfold postWaitlist.
  destruct (parseRequestBody c) as [error|raw]; [apply ends_thrown|].
  destruct (safeParse (normalizePayload raw)) as [p|]; [|apply ends_invalid].
  destruct (honeypot p); [apply ends_thanks|].
  unfold submit. cbn [attempts].
  destruct count as [error|rateRow]; [apply ends_thrown|].
  destruct (_ <=? _); [apply ends_limited|].
  rewrite attempts_writeEntry.
  destruct (answers 0%nat) as [error|[]].
  - destruct (isIpHashConstraintError error).
    + apply ends_retried. destruct (answers 1%nat) as [error'|[]]; eauto.
    + apply ends_written. eauto.
  - apply ends_written. now left.
Qed.

End AnyStore.

(** X2. Whatever the store answers, a response of the submission handler
    has status 200, 201, 400 or 429; its body has [ok: true] exactly for
    200 and 201 and carries an [error] code exactly otherwise; the handler
    sets a header of its own, through [c.header], exactly for 429, namely
    [Retry-After] with a whole number of seconds between 1 and 86400. The
    [Content-Type] that [c.json] adds to every answer is not among the
    headers spoken of. *)
Theorem X2_response_envelope `{R : Runtime} env c now count answers response issued :
  attempts count answers 0 (postWaitlist env c now) = (inr response, issued) ->
  In (res_status response) [200; 201; 400; 429]
  /\ (body_ok response = true <->
      res_status response = 200 \/ res_status response = 201)
  /\ (body_error response = None <-> body_ok response = true)
  /\ (res_headers response = [] <-> res_status response <> 429)
  /\ (res_status response = 429 ->
      exists v, 1 <= v <= 86400
                /\ res_headers response = [("Retry-After"%string, decimal v)]).
Proof.
  intros H. pose proof (postWaitlist_ending env c now count answers) as E.
  rewrite H in E.
  assert (response = invalidPayload \/ response = thanks \/ response = onWaitlist
          \/ response = rateLimited (secondsUntilNextUtcDay now)) as Hr.
  { inversion E as [ | | | | p o [Ho|[e Ho]] | p o [Ho|[e Ho]] ]; subst;
      try discriminate; try injection Ho as <-; tauto. }
  pose proof (secondsUntilNextUtcDay_spec now) as [_ Hv].
  destruct Hr as [-> | [-> | [-> | ->]]];
    cbn [res_status body_ok body_error res_headers
         invalidPayload thanks onWaitlist rateLimited In];
    repeat match goal with
           | |- _ /\ _ => split
           | |- _ <-> _ => split
           end;
    intros;
    repeat match goal with H : _ \/ _ |- _ => destruct H end;
    try discriminate; try tauto; try lia; try congruence.
  exists (secondsUntilNextUtcDay now). split; [exact Hv|reflexivity].
Qed.

(** X3. Whatever the store answers, the submission handler issues no
    statement, the first upsert alone, or the first upsert followed by the
    one with [ip_hash]; each statement binds exactly as many values as it
    lists columns; a response other than 201 means no statement was
    issued and 201 means at least one was; and when the count query fails
    nothing is written. *)
Theorem X3_statements_issued `{R : Runtime} env c now count answers :
  let outcome := (attempts count answers 0 (postWaitlist env c now)).1 in
  let issued := (attempts count answers 0 (postWaitlist env c now)).2 in
  In (map fst issued) [[]; [UpsertEntry]; [UpsertEntry; UpsertEntryWithIpHash]]
  /\ Forall (fun sv => length (snd sv) = length (insertColumns (fst sv))) issued
  /\ (forall response, outcome = inr response ->
        (issued <> [] <-> res_status response = 201))
  /\ (forall error, count = inl error -> issued = []).
Proof.
  intros outcome issued.
  assert (count_failed : forall error, count = inl error -> issued = []).
  { intros error Hc. unfold issued, postWaitlist. rewrite Hc.
    destruct (parseRequestBody c) as [e|raw]; [reflexivity|].
    destruct (safeParse (normalizePayload raw)) as [p|]; [|reflexivity].
    destruct (honeypot p); reflexivity. }
  split; [|split; [|split; [|exact count_failed]]]; clear count_failed;
    unfold outcome, issued;
    pose proof (postWaitlist_ending env c now count answers) as E;
    destruct (attempts count answers 0 (postWaitlist env c now)) as [o l];
    cbn [fst snd].
  - inversion E; subst; cbn [map fst In]; tauto.
  - inversion E; subst; repeat constructor.
  - intros response ->.
    inversion E as [ | | | | p o' Ho | p o' Ho ]; subst;
      try (split; [congruence|discriminate]);
      (destruct Ho as [Ho|[e Ho]]; [|discriminate Ho]);
      injection Ho as ->; (split; [reflexivity|discriminate]).
Qed.

Lemma X2_response_envelope_witness :
  exists v, 1 <= v <= 86400
            /\ res_headers (rateLimited (secondsUntilNextUtcDay Sample.noon))
               = [("Retry-After"%string, decimal v)].
Proof.
  exact (proj2 (proj2 (proj2 (proj2
    (X2_response_envelope (Sample.env None) (Sample.signup "k@x.io") Sample.noon
       (inr (Some 10)) Sample.legacyAnswers
       (rateLimited (secondsUntilNextUtcDay Sample.noon)) []
       ltac:(computed))))) ltac:(computed)).
Defined.

(** ** The table under submissions *)

Section TableFacts.
Context `{R : Runtime}.

Lemma exec_table env c now db :
  (exec (postWaitlist env c now) db).2 = db
  \/ exists raw p,
       parseRequestBody c = inr raw
       /\ safeParse (normalizePayload raw) = Some p
       /\ honeypot p = false
       /\ entriesOnUtcDay (getConnectingIp (req_headers c)) (utcDay now) db
          < ceiling env
       /\ (exec (postWaitlist env c now) db).2
          = {| shape := shape db;
               rows := upsertRows (acceptedStatement (shape db))
                         (entryRow (shape db) c p now) (rows db) |}.
Proof.
  destruct (parseRequestBody c) as [error|raw] eqn:Hb.
  { left. unfold postWaitlist. now rewrite Hb. }
  destruct (safeParse (normalizePayload raw)) as [p|] eqn:Hs.
  2:{ left. now rewrite (postWaitlist_invalid env c now raw Hb Hs). }
  rewrite (postWaitlist_parsed env c now raw p Hb Hs).
  destruct (honeypot p) eqn:Hh; [now left|].
  rewrite exec_submit.
  destruct (ceiling env <=? _) eqn:E; [now left|].
  right. exists raw, p. apply Z.leb_gt in E. repeat split; assumption.
Qed.

Lemma filter_map_same {A} (P : A -> bool) (g : A -> A) (l : list A) :
  (forall x, P (g x) = P x) ->
  List.filter P (map g l) = map g (List.filter P l).
Proof.
  intros Hg. induction l as [|x l IH]; [reflexivity|].
  simpl. rewrite Hg. destruct (P x); simpl; now rewrite IH.
Qed.

Lemma hasEmail_other e e0 (excluded : gmap string (sqlvalue num)) :
  rowEmail excluded = Some e0 -> e <> e0 -> hasEmail e excluded = false.
Proof.
  intros He Hne. unfold hasEmail. rewrite He.
  apply bool_decide_eq_false_2. congruence.
Qed.

Lemma upsertRows_unique s (excluded : gmap string (sqlvalue num)) e0 table :
  rowEmail excluded = Some e0 ->
  uniqueEmails table -> uniqueEmails (upsertRows s excluded table).
Proof.
  intros He Hu e. destruct (decide (e = e0)) as [->|Hne].
  - rewrite (upsertRows_email s excluded e0 table He).
    destruct (existsb (hasEmail e0) table); [|simpl; lia].
    rewrite length_map. apply Hu.
  - unfold upsertRows. rewrite He.
    destruct (existsb (hasEmail e0) table).
    + rewrite filter_map_same, length_map; [apply Hu|].
      intros r. destruct (hasEmail e0 r); [apply hasEmail_applyUpdate|reflexivity].
    + rewrite List.filter_app, length_app. simpl.
      rewrite (hasEmail_other e e0 excluded He Hne). simpl.
      specialize (Hu e). lia.
Qed.

Lemma upsertRows_others s (excluded : gmap string (sqlvalue num)) e table :
  rowEmail excluded = Some e ->
  List.filter (fun r => negb (hasEmail e r)) (upsertRows s excluded table)
  = List.filter (fun r => negb (hasEmail e r)) table.
Proof.
  intros He. unfold upsertRows. rewrite He.
  destruct (existsb (hasEmail e) table).
  - induction table as [|r l IH]; [reflexivity|]. simpl.
    destruct (hasEmail e r) eqn:Er.
    + rewrite hasEmail_applyUpdate, Er. exact IH.
    + rewrite Er. simpl. now rewrite IH.
  - rewrite List.filter_app. simpl. unfold hasEmail at 2. rewrite He.
    rewrite bool_decide_eq_true_2 by reflexivity. simpl. apply app_nil_r.
Qed.

Lemma upsertRows_length s (excluded : gmap string (sqlvalue num)) e table :
  rowEmail excluded = Some e ->
  length (upsertRows s excluded table)
  = (length table + (if existsb (hasEmail e) table then 0 else 1))%nat.
Proof.
  intros He. unfold upsertRows. rewrite He.
  destruct (existsb (hasEmail e) table).
  - rewrite length_map. lia.
  - rewrite length_app. reflexivity.
Qed.

End TableFacts.

(** X4. The handler keeps the emails of the table unique: if no email is
    held by two rows before a request, none is after it, whatever the
    request and whichever way it ends. *)
Theorem X4_unique_emails_kept `{R : Runtime} env c now db :
  uniqueEmails (rows db) ->
  uniqueEmails (rows (exec (postWaitlist env c now) db).2).
Proof.
  intros Hu. destruct (exec_table env c now db) as [->|(raw & p & _ & _ & _ & _ & ->)];
    [exact Hu|].
  cbn [rows]. apply (upsertRows_unique _ _ (toLowerCase (email p)));
    [apply entryRow_rowEmail|exact Hu].
Qed.

Lemma X4_unique_emails_kept_witness :
  uniqueEmails (rows (Sample.submitted (Sample.emptyTable LegacyIpHash) "a@b.com")).
Proof.
  apply (X4_unique_emails_kept (Sample.env None) (Sample.signup "a@b.com")
           Sample.noon (Sample.emptyTable LegacyIpHash)).
  intros e. simpl. lia.
Defined.

(** X5. An accepted submission touches the row of its own email only:
    the rows of all other emails stay as they were and in their order,
    the shape of the table stays, and the table grows by one row when the
    email was not stored and by none when it was. *)
Theorem X5_other_rows_untouched `{R : Runtime} env c now db raw p :
  parseRequestBody c = inr raw ->
  safeParse (normalizePayload raw) = Some p ->
  honeypot p = false ->
  entriesOnUtcDay (getConnectingIp (req_headers c)) (utcDay now) db < ceiling env ->
  let db' := (exec (postWaitlist env c now) db).2 in
  let e := toLowerCase (email p) in
  List.filter (fun r => negb (hasEmail e r)) (rows db')
  = List.filter (fun r => negb (hasEmail e r)) (rows db)
  /\ length (rows db')
     = (length (rows db) + (if existsb (hasEmail e) (rows db) then 0 else 1))%nat
  /\ shape db' = shape db.
Proof.
  intros Hb Hs Hh Hlt db' e. unfold db'.
  rewrite (exec_accepted env c now db raw p Hb Hs Hh Hlt). cbn [snd rows shape].
  pose proof (entryRow_rowEmail (shape db) c p now) as He. fold e in He.
  split; [now apply upsertRows_others|]. split; [now apply upsertRows_length|].
  reflexivity.
Qed.

Lemma X5_other_rows_untouched_witness :
  length (rows (exec (postWaitlist (Sample.env (Some "50")) (Sample.signup "a3@x.io")
                        Sample.noon) Sample.tenEntries).2) = 10%nat.
Proof.
  exact (proj1 (proj2
    (X5_other_rows_untouched (Sample.env (Some "50")) (Sample.signup "a3@x.io")
       Sample.noon Sample.tenEntries
       (Sample.bodyOf (Sample.signup "a3@x.io"))
       (Sample.payloadOf (Sample.signup "a3@x.io"))
       ltac:(computed) ltac:(computed) ltac:(computed) ltac:(computed)))).
Defined.

(** ** Slots of the daily count *)

Section Slots.
Context `{R : Runtime}.

Lemma onUtcDay_split ipAddress day (r : gmap string (sqlvalue num)) :
  onUtcDay ipAddress day r = heldBy ipAddress r && createdOn day r.
Proof.
  unfold onUtcDay, heldBy, createdOn.
  destruct (r !! "ip_address") as [[| a | |]|]; try reflexivity.
  destruct (r !! "created_at") as [[| | | t]|]; try reflexivity;
    now rewrite andb_false_r.
Qed.

Lemma entryRow_onUtcDay g c p now ipAddress day :
  onUtcDay ipAddress day (entryRow g c p now)
  = bool_decide (getConnectingIp (req_headers c) = ipAddress)
    && (utcDay now =? day).
Proof.
  unfold onUtcDay. now rewrite entryRow_ip_address, entryRow_created_at.
Qed.

Lemma ip_address_updated s : "ip_address"%string ∈ updateColumns s.
Proof. destruct s; compute_done. Qed.

(** An updated row is held by the submitting address and keeps its day
    of creation. *)
Lemma updated_onUtcDay g c p now (r : gmap string (sqlvalue num)) ipAddress day :
  onUtcDay ipAddress day
    (applyUpdate (updateColumns (acceptedStatement g)) (entryRow g c p now) r)
  = bool_decide (getConnectingIp (req_headers c) = ipAddress) && createdOn day r.
Proof.
  rewrite onUtcDay_split. unfold heldBy, createdOn.
  rewrite (applyUpdate_assigned _ _ _ _ (ip_address_updated _)).
  rewrite (applyUpdate_kept _ _ _ _ (created_at_not_updated _)).
  now rewrite entryRow_ip_address.
Qed.

Lemma count_after_update {A} (P Q : A -> bool) (f : A -> A) (l : list A) :
  (length (List.filter P (map (fun r => if Q r then f r else r) l))
   + length (List.filter P (List.filter Q l))
   = length (List.filter P l)
     + length (List.filter P (map f (List.filter Q l))))%nat.
Proof.
  induction l as [|x l IH]; [reflexivity|]. simpl.
  destruct (Q x) eqn:Eq; simpl.
  - destruct (P (f x)), (P x); simpl; lia.
  - destruct (P x); simpl; lia.
Qed.

End Slots.

(** X6. An accepted submission of an email that is not stored yet takes
    exactly one slot: the count of its connecting address for the day of
    the request rises by one, and the count of every other address or day
    stays. *)
Theorem X6_new_email_takes_a_slot `{R : Runtime} env c now db raw p :
  parseRequestBody c = inr raw ->
  safeParse (normalizePayload raw) = Some p ->
  honeypot p = false ->
  entriesOnUtcDay (getConnectingIp (req_headers c)) (utcDay now) db < ceiling env ->
  existsb (hasEmail (toLowerCase (email p))) (rows db) = false ->
  let db' := (exec (postWaitlist env c now) db).2 in
  forall ipAddress day,
    entriesOnUtcDay ipAddress day db'
    = entriesOnUtcDay ipAddress day db
      + (if bool_decide (getConnectingIp (req_headers c) = ipAddress)
            && (utcDay now =? day) then 1 else 0).
Proof.
  intros Hb Hs Hh Hlt Hnew db' ipAddress day. unfold db'.
  rewrite (exec_accepted env c now db raw p Hb Hs Hh Hlt). cbn [snd].
  unfold entriesOnUtcDay. cbn [rows]. unfold upsertRows.
  rewrite entryRow_rowEmail, Hnew, List.filter_app, length_app. simpl.
  rewrite entryRow_onUtcDay.
  destruct (_ && _); simpl; lia.
Qed.

Lemma X6_new_email_takes_a_slot_witness :
  entriesOnUtcDay (js "1.2.3.4") (utcDay Sample.noon)
    (exec (postWaitlist (Sample.env (Some "50")) (Sample.signup "new@x.io")
             Sample.noon) Sample.tenEntries).2 = 11.
Proof.
  exact (X6_new_email_takes_a_slot (Sample.env (Some "50")) (Sample.signup "new@x.io")
           Sample.noon Sample.tenEntries
           (Sample.bodyOf (Sample.signup "new@x.io"))
           (Sample.payloadOf (Sample.signup "new@x.io"))
           ltac:(computed) ltac:(computed) ltac:(computed) ltac:(computed)
           ltac:(computed) (js "1.2.3.4") (utcDay Sample.noon)).
Defined.

(** X7. An accepted submission of an email that is stored, in the row
    [r0], moves that row to the bucket of the submitting address without
    changing its day: for every address and day the count loses [r0] if it
    counted it and gains one if [r0] was created on that day and the
    address is the submitting one. So a stored email created on another
    day takes no slot of today, and one resubmitted from the address that
    holds it changes no count at all. *)
Theorem X7_stored_email_moves_its_slot `{R : Runtime} env c now db raw p r0 :
  parseRequestBody c = inr raw ->
  safeParse (normalizePayload raw) = Some p ->
  honeypot p = false ->
  entriesOnUtcDay (getConnectingIp (req_headers c)) (utcDay now) db < ceiling env ->
  List.filter (hasEmail (toLowerCase (email p))) (rows db) = [r0] ->
  let db' := (exec (postWaitlist env c now) db).2 in
  let submitter := getConnectingIp (req_headers c) in
  (forall ipAddress day,
     entriesOnUtcDay ipAddress day db'
     = entriesOnUtcDay ipAddress day db
       - Z.b2z (onUtcDay ipAddress day r0)
       + Z.b2z (bool_decide (submitter = ipAddress) && createdOn day r0))
  /\ (forall ipAddress day, createdOn day r0 = false ->
        entriesOnUtcDay ipAddress day db' = entriesOnUtcDay ipAddress day db)
  /\ (heldBy submitter r0 = true ->
        forall ipAddress day,
          entriesOnUtcDay ipAddress day db' = entriesOnUtcDay ipAddress day db).
Proof.
  intros Hb Hs Hh Hlt Hr0 db' submitter.
  assert (Hcount : forall ipAddress day,
     entriesOnUtcDay ipAddress day db'
     = entriesOnUtcDay ipAddress day db
       - Z.b2z (onUtcDay ipAddress day r0)
       + Z.b2z (bool_decide (submitter = ipAddress) && createdOn day r0)).
  { intros ipAddress day. unfold db'.
    rewrite (exec_accepted env c now db raw p Hb Hs Hh Hlt). cbn [snd].
    unfold entriesOnUtcDay. cbn [rows]. unfold upsertRows.
    rewrite entryRow_rowEmail.
    rewrite existsb_of_filter by (rewrite Hr0; discriminate).
    pose proof (count_after_update (onUtcDay ipAddress day)
                  (hasEmail (toLowerCase (email p)))
                  (applyUpdate (updateColumns (acceptedStatement (shape db)))
                     (entryRow (shape db) c p now)) (rows db)) as Hc.
    rewrite Hr0 in Hc. cbn [map List.filter length] in Hc.
    rewrite updated_onUtcDay in Hc. fold submitter in Hc.
    destruct (onUtcDay ipAddress day r0),
             (bool_decide (submitter = ipAddress) && createdOn day r0);
      cbn [length Z.b2z] in *; lia. }
  split; [exact Hcount|]. split.
  - intros ipAddress day Hday. rewrite Hcount, onUtcDay_split, Hday.
    rewrite !andb_false_r. cbn [Z.b2z]. lia.
  - intros Hheld ipAddress day. rewrite Hcount, onUtcDay_split.
    unfold heldBy in *.
    destruct (r0 !! "ip_address") as [[| a | |]|]; try discriminate.
    apply bool_decide_eq_true_1 in Hheld. subst a. lia.
Qed.

Lemma stored_entry_once :
  List.filter
    (hasEmail (toLowerCase (email (Sample.payloadOf (Sample.signup "a@x.io")))))
    (rows Stored.table)
  = [Stored.entry].
Proof.
  unfold Stored.table.
  rewrite (exec_accepted (Sample.env None) Stored.first Stored.yesterday
             (Sample.emptyTable Current) (Sample.bodyOf Stored.first)
             (Sample.payloadOf Stored.first)) by computed.
  cbn [snd rows shape Sample.emptyTable]. unfold upsertRows.
  rewrite entryRow_rowEmail. cbn [existsb app List.filter].
  unfold hasEmail at 1. rewrite entryRow_rowEmail.
  assert (bool_decide
            (Some (toLowerCase (email (Sample.payloadOf Stored.first)))
             = Some (toLowerCase
                       (email (Sample.payloadOf (Sample.signup "a@x.io")))))
          = true) as -> by computed.
  reflexivity.
Qed.

Lemma X7_stored_email_moves_its_slot_witness :
  let db' := (exec (postWaitlist (Sample.env None) (Sample.signup "a@x.io")
                      Sample.noon) Stored.table).2 in
  entriesOnUtcDay (js "9.9.9.9") (utcDay Stored.yesterday) db' = 0
  /\ entriesOnUtcDay (js "1.2.3.4") (utcDay Stored.yesterday) db' = 1
  /\ entriesOnUtcDay (js "1.2.3.4") (utcDay Sample.noon) db' = 0.
Proof.
  pose proof (X7_stored_email_moves_its_slot (Sample.env None)
                (Sample.signup "a@x.io") Sample.noon Stored.table
                (Sample.bodyOf (Sample.signup "a@x.io"))
                (Sample.payloadOf (Sample.signup "a@x.io")) Stored.entry
                ltac:(computed) ltac:(computed) ltac:(computed) ltac:(computed)
                stored_entry_once) as [Hcount _].
  repeat split; rewrite Hcount; computed.
Defined.

(** ** Waiting for the announced time *)

Section Waiting.
Context `{R : Runtime}.

Lemma exec_limited env c now db raw p :
  parseRequestBody c = inr raw ->
  safeParse (normalizePayload raw) = Some p ->
  honeypot p = false ->
  ceiling env <= entriesOnUtcDay (getConnectingIp (req_headers c)) (utcDay now) db ->
  exec (postWaitlist env c now) db
  = (inr (rateLimited (secondsUntilNextUtcDay now)), db).
Proof.
  intros Hb Hs Hh Hge.
  rewrite (postWaitlist_parsed env c now raw p Hb Hs), Hh, exec_submit.
  match goal with |- (if ?b then _ else _) = _ =>
    assert (b = true) as -> by (apply Z.leb_le; lia) end.
  reflexivity.
Qed.

Lemma utcDay_bounds t : utcDay t * msPerDay <= t < (utcDay t + 1) * msPerDay.
Proof.
  unfold utcDay, msPerDay.
  pose proof (Z.div_mod t 86400000 ltac:(lia)).
  pose proof (Z.mod_pos_bound t 86400000 ltac:(lia)). lia.
Qed.

Lemma utcDay_unique t d :
  d * msPerDay <= t < (d + 1) * msPerDay -> utcDay t = d.
Proof.
  intros H. pose proof (utcDay_bounds t) as B. unfold msPerDay in *. nia.
Qed.

(** Before the announced seconds have passed the day is the same and the
    announcement has gone down by the seconds waited; once they have
    passed the day is the next one. *)
Lemma waiting now :
  let v := secondsUntilNextUtcDay now in
  (forall w, 0 <= w < v ->
     utcDay (now + 1000 * w) = utcDay now
     /\ secondsUntilNextUtcDay (now + 1000 * w) = v - w)
  /\ utcDay (now + 1000 * v) = utcDay now + 1.
Proof.
  intros v. pose proof (secondsUntilNextUtcDay_spec now) as [[Hle Hgt] Hv].
  fold v in Hle, Hgt, Hv. pose proof (utcDay_bounds now) as B. split.
  - intros w Hw.
    assert (utcDay (now + 1000 * w) = utcDay now) as Hday
      by (apply utcDay_unique; unfold msPerDay in *; lia).
    split; [exact Hday|].
    pose proof (secondsUntilNextUtcDay_spec (now + 1000 * w)) as [[Hle' Hgt'] _].
    rewrite Hday in Hle', Hgt'. lia.
  - apply utcDay_unique. unfold msPerDay in *. lia.
Qed.

End Waiting.

(** X8. A client that is turned away at the instant [now] with
    [Retry-After: v] and repeats its request after a whole number [w] of
    seconds is turned away again while [w < v], with the announcement gone
    down to [v - w], and is accepted with 201 at [w = v], provided the
    table has not changed and the address is below the ceiling on the next
    day: the announced seconds are the least that reach the next counting
    window, which starts one millisecond after the end of this one. *)
Theorem X8_retry_after_reaches_next_window `{R : Runtime} env c now db raw p :
  parseRequestBody c = inr raw ->
  safeParse (normalizePayload raw) = Some p ->
  honeypot p = false ->
  let ipAddress := getConnectingIp (req_headers c) in
  ceiling env <= entriesOnUtcDay ipAddress (utcDay now) db ->
  entriesOnUtcDay ipAddress (utcDay now + 1) db < ceiling env ->
  let v := secondsUntilNextUtcDay now in
  (forall w, 0 <= w < v ->
     exec (postWaitlist env c (now + 1000 * w)) db = (inr (rateLimited (v - w)), db))
  /\ (exec (postWaitlist env c (now + 1000 * v)) db).1 = inr onWaitlist
  /\ startOfUtcDay (now + 1000 * v) = endOfUtcDay now + 1.
Proof.
  intros Hb Hs Hh ipAddress Hge Hlt v.
  destruct (waiting now) as [Hbefore Hafter]. fold v in Hbefore, Hafter.
  split; [|split].
  - intros w Hw. destruct (Hbefore w Hw) as [Hday Hsec].
    rewrite (exec_limited env c _ db raw p Hb Hs Hh) by (rewrite Hday; exact Hge).
    now rewrite Hsec.
  - rewrite (exec_accepted env c _ db raw p Hb Hs Hh) by (rewrite Hafter; exact Hlt).
    reflexivity.
  - unfold endOfUtcDay, startOfUtcDay. rewrite Hafter. unfold msPerDay. lia.
Qed.

Lemma X8_retry_after_reaches_next_window_witness :
  (exec (postWaitlist (Sample.env None) (Sample.signup "new@x.io")
           (Sample.noon + 1000 * 43200)) Sample.tenEntries).1 = inr onWaitlist.
Proof.
  exact (proj1 (proj2
    (X8_retry_after_reaches_next_window (Sample.env None) (Sample.signup "new@x.io")
       Sample.noon Sample.tenEntries
       (Sample.bodyOf (Sample.signup "new@x.io"))
       (Sample.payloadOf (Sample.signup "new@x.io"))
       ltac:(computed) ltac:(computed) ltac:(computed) ltac:(computed)
       ltac:(computed)))).
Defined.

(** ** The same request again *)

Section Again.
Context `{R : Runtime}.

Lemma stamps_lookup (t : Z) col :
  col <> "created_at"%string -> col <> "updated_at"%string ->
  bindRow ["created_at"; "updated_at"]%string [SqlTime t; SqlTime t] !! col
  = (None : option (sqlvalue num)).
Proof.
  intros H1 H2.
  change (bindRow ["created_at"; "updated_at"]%string [SqlTime t; SqlTime t])
    with (<["created_at"%string := SqlTime t]>
            (<["updated_at"%string := SqlTime t]> (∅ : gmap string (sqlvalue num)))).
  rewrite !lookup_insert_ne by congruence. apply lookup_empty.
Qed.

(** Only the two time stamps of the proposed row depend on the instant. *)
Lemma entryRow_timeless g c p now now' col :
  col <> "created_at"%string -> col <> "updated_at"%string ->
  entryRow g c p now !! col = entryRow g c p now' !! col.
Proof.
  intros H1 H2. unfold entryRow. destruct g.
  - change (insertColumns (acceptedStatement Current))
      with (firstn 45 (insertColumns UpsertEntry)
            ++ ["created_at"; "updated_at"]%string).
    change (entryValues Current c p now)
      with (firstn 45 (upsertValues c p 0) ++ [SqlTime now; SqlTime now]).
    change (entryValues Current c p now')
      with (firstn 45 (upsertValues c p 0) ++ [SqlTime now'; SqlTime now']).
    rewrite !bindRow_app by reflexivity.
    now rewrite !lookup_union, !stamps_lookup.
  - change (insertColumns (acceptedStatement LegacyIpHash))
      with (firstn 46 (insertColumns UpsertEntryWithIpHash)
            ++ ["created_at"; "updated_at"]%string).
    change (entryValues LegacyIpHash c p now)
      with (firstn 46 (upsertValuesWithIpHash (upsertValues c p 0)
                         (getConnectingIp (req_headers c)))
            ++ [SqlTime now; SqlTime now]).
    change (entryValues LegacyIpHash c p now')
      with (firstn 46 (upsertValuesWithIpHash (upsertValues c p 0)
                         (getConnectingIp (req_headers c)))
            ++ [SqlTime now'; SqlTime now']).
    rewrite !bindRow_app by reflexivity.
    now rewrite !lookup_union, !stamps_lookup.
Qed.

Lemma existsb_present {A} (P : A -> bool) (l : list A) r :
  In r l -> P r = true -> existsb P l = true.
Proof. intros Hin Hr. apply existsb_exists. eauto. Qed.

(** On a row written by the upsert of [entryRow g c p now1], the update by
    [entryRow g c p now2] only sets [updated_at]. *)
Lemma update_again g c p now1 now2 (r : gmap string (sqlvalue num)) :
  (forall col, col ∈ updateColumns (acceptedStatement g) ->
     r !! col = entryRow g c p now1 !! col) ->
  applyUpdate (updateColumns (acceptedStatement g)) (entryRow g c p now2) r
  = <["updated_at"%string := SqlTime now2]> r.
Proof.
  intros Hr. apply map_eq. intros col.
  destruct (decide (col = "updated_at"%string)) as [->|Hne].
  - rewrite (applyUpdate_assigned _ _ _ _ (updated_at_updated _)).
    now rewrite entryRow_updated_at, lookup_insert_eq.
  - rewrite lookup_insert_ne by congruence.
    destruct (decide (col ∈ updateColumns (acceptedStatement g))) as [Hin|Hout].
    + rewrite (applyUpdate_assigned _ _ _ _ Hin), (Hr col Hin).
      apply entryRow_timeless; [|exact Hne].
      intros ->. exact (created_at_not_updated _ Hin).
    + now apply applyUpdate_kept.
Qed.

End Again.

(** X9. When an accepted request is sent again and accepted again, the
    second run changes nothing in the table but [updated_at] of the entry
    of that email, which becomes the second instant; sent again at the
    same instant it leaves the table exactly as it was. *)
Theorem X9_same_request_again `{R : Runtime} env1 env2 c now1 now2 db0 raw p :
  parseRequestBody c = inr raw ->
  safeParse (normalizePayload raw) = Some p ->
  honeypot p = false ->
  let ipAddress := getConnectingIp (req_headers c) in
  let db1 := (exec (postWaitlist env1 c now1) db0).2 in
  let db2 := (exec (postWaitlist env2 c now2) db1).2 in
  entriesOnUtcDay ipAddress (utcDay now1) db0 < ceiling env1 ->
  entriesOnUtcDay ipAddress (utcDay now2) db1 < ceiling env2 ->
  rows db2
  = map (fun r => if hasEmail (toLowerCase (email p)) r
                  then <["updated_at"%string := SqlTime now2]> r else r)
      (rows db1)
  /\ shape db2 = shape db1
  /\ (now2 = now1 -> db2 = db1).
Proof.
  intros Hb Hs Hh ipAddress db1 db2 Hlt1 Hlt2.
  set (e := toLowerCase (email p)).
  set (g := shape db0).
  set (s := acceptedStatement g).
  assert (Hdb1 : db1 = {| shape := g;
                          rows := upsertRows s (entryRow g c p now1) (rows db0) |})
    by (unfold db1; now rewrite (exec_accepted env1 c now1 db0 raw p)).
  assert (Hdb2 : db2 = {| shape := shape db1;
                          rows := upsertRows (acceptedStatement (shape db1))
                                    (entryRow (shape db1) c p now2) (rows db1) |})
    by (unfold db2; now rewrite (exec_accepted env2 c now2 db1 raw p)).
  assert (Hshape : shape db1 = g) by now rewrite Hdb1.
  rewrite Hshape in Hdb2. fold s in Hdb2.
  assert (Hwritten : forall r, In r (rows db1) -> hasEmail e r = true ->
            forall col, col ∈ updateColumns s -> r !! col = entryRow g c p now1 !! col).
  { intros r Hin Hr col Hcol. rewrite Hdb1 in Hin. cbn [rows] in Hin.
    exact (upsertRows_written s _ e _ r col (entryRow_rowEmail _ _ _ _) Hin Hr Hcol). }
  assert (Hrows : rows db2
            = map (fun r => if hasEmail e r
                            then <["updated_at"%string := SqlTime now2]> r else r)
                (rows db1)).
  { rewrite Hdb2. cbn [rows]. unfold upsertRows. rewrite entryRow_rowEmail. fold e.
    destruct (upsertRows_present s (entryRow g c p now1) e (rows db0)
                (entryRow_rowEmail _ _ _ _)) as (r & Hin & Hr).
    assert (existsb (hasEmail e) (rows db1) = true) as ->.
    { apply (existsb_present _ _ r); [|exact Hr]. now rewrite Hdb1. }
    apply map_ext_in. intros r' Hin'.
    destruct (hasEmail e r') eqn:Hr'; [|reflexivity].
    apply (update_again g c p now1 now2). exact (Hwritten r' Hin' Hr'). }
  split; [exact Hrows|]. split; [now rewrite Hdb2, Hshape|].
  intros ->.
  assert (rows db2 = rows db1) as Hsame.
  { rewrite Hrows. rewrite <- (map_id (rows db1)) at 2.
    apply map_ext_in. intros r Hin.
    destruct (hasEmail e r) eqn:Hr; [|reflexivity].
    apply insert_id.
    rewrite (Hwritten r Hin Hr _ (updated_at_updated _)).
    apply entryRow_updated_at. }
  rewrite Hdb2. rewrite Hdb2 in Hsame. cbn [rows] in Hsame. rewrite Hsame.
  rewrite <- Hshape. now destruct db1.
Qed.

Lemma X9_same_request_again_witness :
  (exec (postWaitlist (Sample.env None) Stored.first Stored.yesterday)
     Stored.table).2 = Stored.table.
Proof.
  exact (proj2 (proj2
    (X9_same_request_again (Sample.env None) (Sample.env None) Stored.first
       Stored.yesterday Stored.yesterday (Sample.emptyTable Current)
       (Sample.bodyOf Stored.first) (Sample.payloadOf Stored.first)
       ltac:(computed) ltac:(computed) ltac:(computed) ltac:(computed)
       ltac:(computed))) eq_refl).
Defined.

(** ** The second statement *)

(** X10. The second statement proposes the row of the first with
    [ip_hash] set to the hexadecimal digest of the connecting address and
    nothing else changed; its column list and its update clause are those
    of the first with [ip_hash] put before [ip_address]. *)
Theorem X10_second_statement_row `{R : Runtime} c p now :
  entryRow LegacyIpHash c p now
  = <["ip_hash"%string := SqlText (sha256Hex (getConnectingIp (req_headers c)))]>
      (entryRow Current c p now)
  /\ insertColumns UpsertEntryWithIpHash
     = firstn 5 (insertColumns UpsertEntry) ++ ["ip_hash"%string]
       ++ skipn 5 (insertColumns UpsertEntry)
  /\ updateColumns UpsertEntryWithIpHash
     = firstn 4 (updateColumns UpsertEntry) ++ ["ip_hash"%string]
       ++ skipn 4 (updateColumns UpsertEntry)
  /\ nth_error (insertColumns UpsertEntry) 5 = Some "ip_address"%string
  /\ nth_error (updateColumns UpsertEntry) 4 = Some "ip_address"%string.
Proof.
  split; [|repeat split; reflexivity].
  unfold entryRow.
  set (h := SqlText (sha256Hex (getConnectingIp (req_headers c)))).
  change (insertColumns (acceptedStatement LegacyIpHash))
    with (firstn 5 (insertColumns UpsertEntry)
          ++ ["ip_hash"%string] ++ skipn 5 (insertColumns UpsertEntry)).
  change (entryValues LegacyIpHash c p now)
    with (firstn 5 (upsertValues c p now) ++ [h] ++ skipn 5 (upsertValues c p now)).
  change (entryValues Current c p now) with (upsertValues c p now).
  change (insertColumns (acceptedStatement Current)) with (insertColumns UpsertEntry).
  rewrite <- (firstn_skipn 5 (insertColumns UpsertEntry)) at 3.
  rewrite <- (firstn_skipn 5 (upsertValues c p now)) at 3.
  rewrite !bindRow_app by reflexivity.
  rewrite insert_union_r by apply leading_columns_lookup.
  f_equal.
Qed.


(** ** The headers that matter *)

Section HeadersRead.
Context `{R : Runtime}.

Lemma pickHeaders_ext (headers headers' : gmap string jsstring) allowed :
  Forall (fun h => headers' !! h = headers !! h) allowed ->
  pickHeaders headers' allowed = pickHeaders headers allowed.
Proof.
  unfold pickHeaders. intros Hall.
  match goal with |- fold_left _ _ ?o = _ => generalize o end.
  induction Hall as [|h allowed Hh Hall IH]; intros output; [reflexivity|].
  cbn [fold_left]. unfold jsstring in *. rewrite Hh. apply IH.
Qed.

Variables (c c' : Request).
Hypothesis method_same : req_method c' = req_method c.
Hypothesis url_same : req_url c' = req_url c.
Hypothesis cf_same : req_cf c' = req_cf c.
Hypothesis json_same : req_json c' = req_json c.
Hypothesis formData_same : req_formData c' = req_formData c.
Hypothesis headers_same :
  Forall (fun h => req_headers c' !! h = req_headers c !! h) headersRead.
Hypothesis address_same :
  getConnectingIp (req_headers c') = getConnectingIp (req_headers c).

Lemma header_same h : h ∈ headersRead -> req_headers c' !! h = req_headers c !! h.
Proof. revert h. now apply Forall_forall. Qed.

Lemma parseRequestBody_same : parseRequestBody c' = parseRequestBody c.
Proof.
  pose proof (header_same "content-type" ltac:(compute_done)) as Ht.
  unfold parseRequestBody, contentTypeOf. unfold jsstring in *.
  now rewrite Ht, json_same, formData_same.
Qed.

Lemma getCfSnapshot_same : getCfSnapshot c' = getCfSnapshot c.
Proof. unfold getCfSnapshot. now rewrite cf_same. Qed.

Lemma buildMetadata_same p cf : buildMetadata c' p cf = buildMetadata c p cf.
Proof.
  pose proof (header_same "cf-ray" ltac:(compute_done)) as Hray.
  pose proof (header_same "referer" ltac:(compute_done)) as Href.
  assert (pickHeaders (req_headers c') allowedHeaders
          = pickHeaders (req_headers c) allowedHeaders) as Hpick.
  { apply pickHeaders_ext. apply Forall_forall. intros h Hh. apply header_same.
    unfold headersRead. apply elem_of_app. now right. }
  unfold buildMetadata. unfold jsstring in *.
  now rewrite Hpick, Hray, Href, method_same, url_same.
Qed.

Lemma upsertValues_same p now : upsertValues c' p now = upsertValues c p now.
Proof.
  pose proof (header_same "user-agent" ltac:(compute_done)) as H1.
  pose proof (header_same "referer" ltac:(compute_done)) as H2.
  pose proof (header_same "accept-language" ltac:(compute_done)) as H3.
  pose proof (header_same "origin" ltac:(compute_done)) as H4.
  pose proof (header_same "host" ltac:(compute_done)) as H5.
  unfold upsertValues.
  rewrite getCfSnapshot_same, buildMetadata_same, address_same, url_same.
  unfold jsstring in *. now rewrite H1, H2, H3, H4, H5.
Qed.

Lemma postWaitlist_same env now : postWaitlist env c' now = postWaitlist env c now.
Proof.
  unfold postWaitlist. rewrite parseRequestBody_same.
  destruct (parseRequestBody c) as [error|rawPayload]; [reflexivity|].
  destruct (safeParse (normalizePayload rawPayload)) as [payload|]; [|reflexivity].
  destruct (honeypot payload); [reflexivity|].
  unfold submit. now rewrite address_same, upsertValues_same.
Qed.

End HeadersRead.

(** X12. Two requests that differ only in their headers, and not in a
    header that the handler reads, run the same program: the same
    queries with the same values and the same answer. The headers read are
    [content-type], [cf-connecting-ip], [cf-ray], [referer] and the
    fourteen recorded in the metadata; [x-forwarded-for] is read too, but
    only when [cf-connecting-ip] is absent or empty, so a client behind the
    edge cannot choose the address it is counted under. *)
Theorem X12_only_the_headers_read_matter `{R : Runtime} env c c' now :
  req_method c' = req_method c ->
  req_url c' = req_url c ->
  req_cf c' = req_cf c ->
  req_json c' = req_json c ->
  req_formData c' = req_formData c ->
  Forall (fun h => req_headers c' !! h = req_headers c !! h) headersRead ->
  (req_headers c' !! "x-forwarded-for" = req_headers c !! "x-forwarded-for"
   \/ exists ip, req_headers c !! "cf-connecting-ip" = Some ip /\ ip <> []) ->
  postWaitlist env c' now = postWaitlist env c now
  /\ getConnectingIp (req_headers c') = getConnectingIp (req_headers c).
Proof.
  intros Hm Hu Hcf Hj Hf Hh Hx.
  assert (getConnectingIp (req_headers c') = getConnectingIp (req_headers c)) as Hip.
  { pose proof (header_same c c' Hh "cf-connecting-ip" ltac:(compute_done)) as He.
    unfold getConnectingIp. unfold jsstring in *. rewrite He.
    destruct Hx as [Hx|(ip & Hip & Hne)].
    - now rewrite Hx.
    - rewrite Hip. destruct ip; [contradiction|reflexivity]. }
  split; [|exact Hip]. now apply postWaitlist_same.
Qed.

Lemma X12_only_the_headers_read_matter_witness :
  postWaitlist (Sample.env None) (Decorated.signup "a@x.io") Sample.noon
  = postWaitlist (Sample.env None) (Sample.signup "a@x.io") Sample.noon.
Proof.
  refine (proj1 (X12_only_the_headers_read_matter (Sample.env None)
            (Sample.signup "a@x.io") (Decorated.signup "a@x.io") Sample.noon
            eq_refl eq_refl eq_refl eq_refl eq_refl _ _)).
  - compute_done.
  - right. exists (js "1.2.3.4"). split; [reflexivity|discriminate].
Defined.

Lemma js_inj (a b : string) : js a = js b -> a = b.
Proof.
  unfold js. intros H.
  rewrite <- (string_of_list_ascii_of_string a),
          <- (string_of_list_ascii_of_string b).
  f_equal. revert H.
  generalize (list_ascii_of_string a) (list_ascii_of_string b).
  induction l as [|x l IH]; intros [|y l']; cbn [map]; try discriminate;
    [reflexivity|].
  intros [= Hxy Hl]. f_equal; [|now apply IH].
  rewrite <- (ascii_N_embedding x), <- (ascii_N_embedding y). now rewrite Hxy.
Qed.

Section Builders.
Context `{R : Runtime}.

Lemma delete_NoDup {V} k (o : Obj.obj V) :
  NoDup (map fst o) -> NoDup (map fst (Obj.delete k o)).
Proof.
  unfold Obj.delete. induction o as [|[k0 v0] o IH]; cbn [List.filter map fst];
    [trivial|].
  intros Hnd. apply NoDup_cons in Hnd as [Hk0 Hnd].
  destruct (negb (Obj.key_eqb k k0)); cbn [map fst]; [|now apply IH].
  apply NoDup_cons. split; [|now apply IH].
  intros Hin. apply Hk0. apply list_elem_of_In in Hin. apply list_elem_of_In.
  apply in_map_iff in Hin as ([k1 v1] & <- & Hin).
  apply List.filter_In in Hin as [Hin _]. apply in_map_iff. now exists (k1, v1).
Qed.

Lemma sanitizeLoop_NoDup entries output count :
  NoDup (map fst output) -> NoDup (map fst (sanitizeLoop entries output count)).
Proof.
  revert output count.
  induction entries as [|[rawKey rawValue] rest IH]; intros output count Hnd;
    cbn [sanitizeLoop]; [exact Hnd|].
  destruct (24 <=? count)%nat; [exact Hnd|].
  destruct (negb (nonEmpty (slice0 64 (trim rawKey)))); [now apply IH|].
  destruct (toOptionalString (looseString rawValue)) as [valueString|];
    [|now apply IH].
  destruct (negb (nonEmpty valueString)); [now apply IH|].
  apply IH. now apply assign_NoDup.
Qed.

Lemma sanitizeLoop_proto entries output count :
  Obj.get proto_key output = None ->
  Obj.get proto_key (sanitizeLoop entries output count) = None.
Proof.
  revert output count.
  induction entries as [|[rawKey rawValue] rest IH]; intros output count Hp;
    cbn [sanitizeLoop]; [exact Hp|].
  destruct (24 <=? count)%nat; [exact Hp|].
  destruct (negb (nonEmpty (slice0 64 (trim rawKey)))); [now apply IH|].
  destruct (toOptionalString (looseString rawValue)) as [valueString|];
    [|now apply IH].
  destruct (negb (nonEmpty valueString)); [now apply IH|].
  apply IH. now apply assign_proto.
Qed.

(** The header of name [h] when it is present and not empty. *)
Lemma pickHeaders_fold (headers : gmap string jsstring) allowed output h :
  Forall (fun a => js a <> proto_key) allowed ->
  Obj.get (js h)
    (fold_left
       (fun output key =>
          match headers !! key with
          | Some ((_ :: _) as v) => assign (js key) v output
          | _ => output
          end)
       allowed output)
  = match (if bool_decide (h ∈ allowed) then headers !! h else None) with
    | Some ((_ :: _) as v) => Some v
    | _ => Obj.get (js h) output
    end.
Proof.
  intros Hall. revert output.
  induction Hall as [|a allowed Ha Hall IH]; intros output; [reflexivity|].
  cbn [fold_left]. rewrite IH.
  assert (Hstep : Obj.get (js h)
            match headers !! a with
            | Some ((_ :: _) as v) => assign (js a) v output
            | _ => output
            end
          = match (if bool_decide (h = a) then headers !! h else None) with
            | Some ((_ :: _) as v) => Some v
            | _ => Obj.get (js h) output
            end).
  { destruct (decide (h = a)) as [E|E].
    - rewrite (bool_decide_eq_true_2 _ E). subst a.
      destruct (headers !! h) as [[|x v]|]; try reflexivity.
      rewrite get_assign by exact Ha. now rewrite key_eqb_refl.
    - rewrite (bool_decide_eq_false_2 _ E).
      destruct (headers !! a) as [[|x v]|]; try reflexivity.
      rewrite get_assign by exact Ha.
      rewrite key_eqb_neq; [reflexivity|]. intros Heq. apply E. now apply js_inj. }
  rewrite Hstep. clear Hstep IH.
  destruct (decide (h = a)) as [->|Hne].
  - rewrite (bool_decide_eq_true_2 (a ∈ a :: allowed)) by apply list_elem_of_here.
    rewrite (bool_decide_eq_true_2 (a = a)) by reflexivity.
    destruct (bool_decide (a ∈ allowed)); [|reflexivity].
    now destruct (headers !! a) as [[|x v]|].
  - rewrite (bool_decide_eq_false_2 (h = a)) by exact Hne.
    assert (bool_decide (h ∈ a :: allowed) = bool_decide (h ∈ allowed)) as ->.
    { apply bool_decide_ext. rewrite elem_of_cons. tauto. }
    reflexivity.
Qed.

Lemma pickHeaders_In (headers : gmap string jsstring) allowed output k v :
  In (k, v)
    (fold_left
       (fun output key =>
          match headers !! key with
          | Some ((_ :: _) as v) => assign (js key) v output
          | _ => output
          end)
       allowed output) ->
  In (k, v) output
  \/ exists h, h ∈ allowed /\ k = js h /\ headers !! h = Some v /\ v <> [].
Proof.
  revert output. induction allowed as [|a allowed IH]; intros output;
    cbn [fold_left]; [now left|].
  intros Hin. destruct (IH _ Hin) as [Hout|(h & Hh & Hk & Hv)].
  - destruct (headers !! a) as [[|x w]|] eqn:E; try (now left).
    destruct (assign_In _ _ _ _ _ Hout) as [Ho|[-> ->]]; [now left|].
    right. exists a. split; [apply list_elem_of_here|]. now repeat split.
  - right. exists h. split; [now apply list_elem_of_further|]. now split.
Qed.

Lemma pickHeaders_NoDup (headers : gmap string jsstring) allowed
    (output : Obj.obj jsstring) :
  NoDup (map fst output) ->
  NoDup (map fst
    (fold_left
       (fun output key =>
          match headers !! key with
          | Some ((_ :: _) as v) => assign (js key) v output
          | _ => output
          end)
       allowed output)).
Proof.
  revert output. induction allowed as [|a allowed IH]; intros output Hnd;
    cbn [fold_left]; [exact Hnd|].
  apply IH. destruct (headers !! a) as [[|x w]|]; try exact Hnd.
  now apply assign_NoDup.
Qed.

End Builders.

(** X13. [pickHeaders] copies exactly the allowed headers that are present
    and not empty: a name on the list reads its header, any other name
    reads nothing, every property of the result is such a header with its
    value unchanged, and no name occurs twice. In particular no cookie,
    authorization or address header enters the metadata. *)
Theorem X13_picked_headers `{R : Runtime}
    (headers : gmap string jsstring) (allowed : list string) :
  Forall (fun a => js a <> proto_key) allowed ->
  let output := pickHeaders headers allowed in
  (forall h, Obj.get (js h) output
     = match (if bool_decide (h ∈ allowed) then headers !! h else None) with
       | Some ((_ :: _) as v) => Some v
       | _ => None
       end)
  /\ (forall k v, In (k, v) output ->
        exists h, h ∈ allowed /\ k = js h /\ headers !! h = Some v /\ v <> [])
  /\ NoDup (map fst output).
Proof.
  intros Hall output. unfold output, pickHeaders. split; [|split].
  - intros h. now rewrite pickHeaders_fold.
  - intros k v Hin. destruct (pickHeaders_In _ _ _ _ _ Hin) as [[]|H]. exact H.
  - apply pickHeaders_NoDup. constructor.
Qed.

Lemma X13_picked_headers_witness :
  Obj.get (js "x-forwarded-for")
    (pickHeaders (req_headers Sample.formSignup) allowedHeaders) = None
  /\ Obj.get (js "user-agent")
       (pickHeaders (req_headers Sample.formSignup) allowedHeaders)
     = Some (js "curl/8").
Proof.
  split;
    exact (proj1 (X13_picked_headers (req_headers Sample.formSignup) allowedHeaders
                    ltac:(compute_done)) _).
Defined.

(** X14. The [query] object of the metadata, built by
    [Object.fromEntries] from the search parameters: a name that occurs
    more than once reads the value of its last occurrence, a name that does
    not occur reads nothing, no name is listed twice and every property is
    one of the parameters. *)
Theorem X14_query_keeps_last_value (entries : list (jsstring * jsstring)) :
  let query := fromEntries entries in
  (forall k, Obj.get k query = Obj.get k (rev entries))
  /\ NoDup (map fst query)
  /\ (forall k v, In (k, v) query -> In (k, v) entries).
Proof.
  unfold fromEntries.
  induction entries as [|[k0 v0] entries IH] using rev_ind.
  - repeat split; [constructor|intros k v []].
  - destruct IH as (Hget & Hnd & Hin).
    rewrite fold_left_app. cbn [fold_left fst snd]. split; [|split].
    + intros k. rewrite rev_app_distr. cbn [rev app Obj.get].
      now rewrite get_define, Hget.
    + now apply define_NoDup.
    + intros k v H. apply in_or_app.
      unfold Obj.define in H. destruct (Obj.has k0 _).
      * destruct (replace_In _ _ _ _ _ H) as [Ho|[-> ->]];
          [left; now apply Hin | right; now left].
      * destruct (Obj.arrayIndex k0).
        -- destruct (insertIndexed_In _ _ _ _ _ _ H) as [Ho|[-> ->]];
             [left; now apply Hin | right; now left].
        -- apply in_app_or in H as [Ho|[[= <- <-]|[]]];
             [left; now apply Hin | right; now left].
Qed.



(** X16. The sanitised copy of the additional fields is an object without
    the names [__proto__] and [useCase], and with no name listed twice:
    keys that collide after trimming and cutting leave one property. *)
Theorem X16_sanitized_names `{R : Runtime} (p : Payload) :
  let copy := sanitizedAdditionalFields p in
  NoDup (map fst copy)
  /\ Obj.get proto_key copy = None
  /\ Obj.get (js "useCase") copy = None
  /\ NoDup (map fst (sanitizeLooseRecord (additionalFields p)))
  /\ Obj.get proto_key (sanitizeLooseRecord (additionalFields p)) = None.
Proof.
  assert (NoDup (map fst (sanitizeLooseRecord (additionalFields p)))
          /\ Obj.get proto_key (sanitizeLooseRecord (additionalFields p)) = None)
    as [Hnd Hproto].
  { unfold sanitizeLooseRecord. destruct (additionalFields p) as [entries|].
    - split; [apply sanitizeLoop_NoDup; constructor|now apply sanitizeLoop_proto].
    - split; [constructor|reflexivity]. }
  cbn zeta. unfold sanitizedAdditionalFields. repeat split.
  - now apply delete_NoDup.
  - rewrite get_delete, Hproto. now destruct (Obj.key_eqb _ _).
  - apply delete_get.
  - exact Hnd.
  - exact Hproto.
Qed.

(** ** The connecting address *)

Lemma beforeComma_split (s : jsstring) :
  ~ In 44%N (beforeComma s)
  /\ (s = beforeComma s \/ exists rest, s = beforeComma s ++ 44%N :: rest).
Proof.
  induction s as [|c s [IHn IHs]]; cbn [beforeComma].
  - split; [intros []|now left].
  - destruct (N.eqb_spec c 44) as [->|Hne].
    + split; [intros []|]. right. now exists s.
    + split.
      * intros [H|H]; [congruence|contradiction].
      * destruct IHs as [IHs|[rest IHs]]; [left|right; exists rest];
          cbn [app]; congruence.
Qed.

Lemma trimEnd_In (s : jsstring) x : In x (trimEnd s) -> In x s.
Proof.
  intros H. destruct (trimEnd_prefix s) as [suf E]. rewrite E.
  apply in_or_app. now left.
Qed.

Lemma trim_In (s : jsstring) x : In x (trim s) -> In x s.
Proof.
  unfold trim, trimStart. intros H. apply trimEnd_In in H.
  destruct (dropWhile_suffix isWhiteSpace s) as [pre E].
  rewrite E. apply in_or_app. now right.
Qed.

(** X17. Without a [cf-connecting-ip] header that is not empty, the
    address is what the client wrote in [x-forwarded-for]: the text before
    its first comma, trimmed, so an address without comma or surrounding
    white space, and the empty text when nothing but white space stands
    before the comma; without that header too, it is [unknown]. *)
Theorem X17_forwarded_address `{R : Runtime} (headers : gmap string jsstring) :
  (headers !! "cf-connecting-ip" = None \/ headers !! "cf-connecting-ip" = Some []) ->
  let ipAddress := getConnectingIp headers in
  (forall forwardedFor,
     headers !! "x-forwarded-for" = Some forwardedFor -> forwardedFor <> [] ->
     exists first,
       (forwardedFor = first \/ exists rest, forwardedFor = first ++ 44%N :: rest)
       /\ ~ In 44%N first
       /\ ipAddress = trim first
       /\ ~ In 44%N ipAddress
       /\ trim ipAddress = ipAddress
       /\ (forallb isWhiteSpace first = true -> ipAddress = []))
  /\ ((headers !! "x-forwarded-for" = None \/ headers !! "x-forwarded-for" = Some []) ->
      ipAddress = js "unknown").
Proof.
  intros Hcf ipAddress.
  assert (ipAddress
          = match headers !! "x-forwarded-for" with
            | Some ((_ :: _) as forwardedFor) => trim (beforeComma forwardedFor)
            | _ => js "unknown"
            end) as Hip.
  { unfold ipAddress, getConnectingIp. unfold jsstring in *.
    now destruct Hcf as [-> | ->]. }
  split.
  - intros forwardedFor Hx Hne. unfold jsstring in *. rewrite Hx in Hip.
    destruct forwardedFor as [|x f]; [contradiction|].
    destruct (beforeComma_split (x :: f)) as [Hno Hsplit].
    exists (beforeComma (x :: f)).
    split; [exact Hsplit|]. split; [exact Hno|]. split; [exact Hip|].
    rewrite Hip. split; [intros H; apply Hno; now apply trim_In|].
    split; [apply trim_idempotent|apply trim_blank].
  - unfold jsstring in *. now intros [H | H]; rewrite H in Hip.
Qed.

Lemma X17_forwarded_address_witness :
  let ipAddress := getConnectingIp (req_headers Sample.formSignup) in
  exists first,
    (js " 9.9.9.9 , 10.0.0.1" = first
     \/ exists rest, js " 9.9.9.9 , 10.0.0.1" = first ++ 44%N :: rest)
    /\ ~ In 44%N first
    /\ ipAddress = trim first
    /\ ~ In 44%N ipAddress
    /\ trim ipAddress = ipAddress
    /\ (forallb isWhiteSpace first = true -> ipAddress = []).
Proof.
  exact (proj1 (X17_forwarded_address (req_headers Sample.formSignup)
                  ltac:(left; reflexivity))
           (js " 9.9.9.9 , 10.0.0.1") eq_refl ltac:(discriminate)).
Defined.

(** ** The digest in hexadecimal *)

Lemma hexDigit_lower d : (d < 16)%N -> isLowerHex (hexDigit d) = true.
Proof.
  intros H. unfold isLowerHex, hexDigit.
  destruct (N.ltb_spec d 10).
  - apply orb_true_iff. left. apply andb_true_iff. split; apply N.leb_le; lia.
  - apply orb_true_iff. right. apply andb_true_iff. split; apply N.leb_le; lia.
Qed.

Lemma hexDigit_inj a b :
  (a < 16)%N -> (b < 16)%N -> hexDigit a = hexDigit b -> a = b.
Proof.
  unfold hexDigit. intros Ha Hb.
  destruct (N.ltb_spec a 10), (N.ltb_spec b 10); lia.
Qed.

Lemma hexByte_inj a b :
  (a < 256)%N -> (b < 256)%N -> hexByte a = hexByte b -> a = b.
Proof.
  unfold hexByte. intros Ha Hb [= Hhi Hlo].
  assert (a / 16 < 16)%N by (apply N.Div0.div_lt_upper_bound; lia).
  assert (b / 16 < 16)%N by (apply N.Div0.div_lt_upper_bound; lia).
  pose proof (N.mod_upper_bound a 16 ltac:(lia)).
  pose proof (N.mod_upper_bound b 16 ltac:(lia)).
  apply hexDigit_inj in Hhi; [|assumption..].
  apply hexDigit_inj in Hlo; [|assumption..].
  rewrite (N.div_mod a 16), (N.div_mod b 16) by lia. now rewrite Hhi, Hlo.
Qed.

Lemma hex_inj (l l' : list N) :
  Forall (fun b => (b < 256)%N) l -> Forall (fun b => (b < 256)%N) l' ->
  concat (map hexByte l) = concat (map hexByte l') -> l = l'.
Proof.
  intros Hl. revert l'. induction Hl as [|a l Ha Hl IH]; intros l' Hl' H.
  - destruct l'; [reflexivity|discriminate].
  - destruct Hl' as [|b l' Hb Hl']; [discriminate|].
    cbn [map concat hexByte app] in H. injection H as Hhi Hlo Hrest.
    f_equal; [|now apply IH].
    apply hexByte_inj; [assumption..|]. unfold hexByte. now rewrite Hhi, Hlo.
Qed.

(** X18. The digest is written with two lower-case hexadecimal digits for
    each of its bytes, 64 for the 32 bytes of SHA-256, and the writing
    loses nothing: two addresses have the same [ip_hash] only if they have
    the same digest. *)
Theorem X18_digest_in_hexadecimal `{R : Runtime} (input : jsstring) :
  let digest := SHA256 (TextEncoder_encode input) in
  Forall (fun b => (b < 256)%N) digest ->
  length (sha256Hex input) = (2 * length digest)%nat
  /\ forallb isLowerHex (sha256Hex input) = true
  /\ (forall input',
        Forall (fun b => (b < 256)%N) (SHA256 (TextEncoder_encode input')) ->
        sha256Hex input = sha256Hex input' ->
        digest = SHA256 (TextEncoder_encode input')).
Proof.
  intros digest Hbytes. unfold sha256Hex. fold digest. split; [|split].
  - clear Hbytes. induction digest as [|b l IH]; [reflexivity|].
    cbn [map concat hexByte app length]. rewrite IH. lia.
  - induction Hbytes as [|b l Hb Hl IH]; [reflexivity|].
    cbn [map concat hexByte app forallb]. rewrite IH, andb_true_r.
    assert (b / 16 < 16)%N by (apply N.Div0.div_lt_upper_bound; lia).
    pose proof (N.mod_upper_bound b 16 ltac:(lia)).
    now rewrite !hexDigit_lower.
  - intros input' Hbytes' H. now apply hex_inj.
Qed.

Lemma X18_digest_in_hexadecimal_witness :
  length (sha256Hex (js "1.2.3.4")) = 64%nat.
Proof.
  exact (proj1 (X18_digest_in_hexadecimal (js "1.2.3.4") ltac:(compute_done))).
Defined.

(** ** Bodies without an email *)

(** X19. The content type decides how the body is read, by the presence
    of one of three lower-case markers in it. A request whose content type
    holds none of them is answered 400 whatever its body; so is a request
    declared as JSON whose body cannot be parsed, or is [null], a scalar or
    an array, or is an object without a string under [email]. In each case
    the handler ends before any query. *)
Theorem X19_bodies_without_an_email `{R : Runtime} env c now :
  let contentType := contentTypeOf c in
  (includes (js "application/json") contentType = true ->
   match req_json c with
   | Some (JObj props) => forall s, Obj.get (js "email") props <> Some (JStr s)
   | _ => True
   end ->
   postWaitlist env c now = Ret invalidPayload)
  /\ (includes (js "application/json") contentType = false ->
      includes (js "application/x-www-form-urlencoded") contentType = false ->
      includes (js "multipart/form-data") contentType = false ->
      postWaitlist env c now = Ret invalidPayload).
Proof.
  intros contentType. split.
  - intros Hjson Hbody.
    apply (postWaitlist_invalid env c now _ (parseRequestBody_json c Hjson)).
    apply missing_email_rejected.
    destruct (req_json c) as [[| | | |items|props]|]; try reflexivity.
    cbn [prop]. specialize (Hbody).
    destruct (Obj.get (js "email") props) as [[| | |s| |]|]; try reflexivity.
    now destruct (Hbody s).
  - intros H1 H2 H3. apply empty_body_invalid.
    now apply parseRequestBody_other.
Qed.

Lemma X19_bodies_without_an_email_witness :
  postWaitlist (Sample.env None)
    (Sample.jsonRequest (JArr [JStr (js "a@b.com")]) "1.2.3.4") Sample.noon
  = Ret invalidPayload.
Proof.
  exact (proj1 (X19_bodies_without_an_email (Sample.env None)
                  (Sample.jsonRequest (JArr [JStr (js "a@b.com")]) "1.2.3.4")
                  Sample.noon)
           ltac:(computed) I).
Defined.

(** ** What a parsed payload holds *)

Section PayloadBounds.
Context `{R : Runtime}.

Lemma zString_within n v field :
  zString n (toOptionalString v) = Some field -> within n field.
Proof.
  unfold zString. destruct (toOptionalString v) as [s|] eqn:E.
  - destruct (toOptionalString_trimmed v s E) as [Ht Hne]. rewrite Ht.
    destruct (Nat.leb_spec (length s) n); [|discriminate].
    intros [= <-] t [= <-]. split; [|exact Ht].
    destruct s; [congruence|]. cbn [length] in *. lia.
  - intros [= <-] t. discriminate.
Qed.

Lemma zUrl_within v field :
  zUrl (toOptionalString v) = Some field ->
  within 2048 field /\ forall t, field = Some t -> zod_url t = true.
Proof.
  unfold zUrl. destruct (toOptionalString v) as [s|] eqn:E.
  - destruct (toOptionalString_trimmed v s E) as [Ht Hne]. rewrite Ht.
    destruct (zod_url s) eqn:Hu; [|discriminate]. cbn [andb].
    destruct (Nat.leb_spec (length s) 2048); [|discriminate].
    intros [= <-]. split.
    + intros t [= <-]. split; [|exact Ht].
      destruct s; [congruence|]. cbn [length] in *. lia.
    + now intros t [= <-].
  - intros [= <-]. split; intros t; discriminate.
Qed.

Lemma zEmail_within v e :
  zEmail (toOptionalString v) = Some e ->
  within 320 (Some e) /\ zod_email e = true.
Proof.
  unfold zEmail. destruct (toOptionalString v) as [s|] eqn:E; [|discriminate].
  destruct (toOptionalString_trimmed v s E) as [Ht Hne]. rewrite Ht.
  destruct (zod_email s) eqn:Hu; [|discriminate]. cbn [andb].
  destruct (Nat.leb_spec (length s) 320); [|discriminate].
  intros [= <-]. split; [|exact Hu].
  intros t [= <-]. split; [|exact Ht].
  destruct s; [congruence|]. cbn [length] in *. lia.
Qed.

Lemma zEnum_listed literals v field :
  zEnum literals v = Some field ->
  forall t, field = Some t -> existsb (str_eqb t) literals = true.
Proof.
  unfold zEnum. destruct v as [s|]; [|intros [= <-] t; discriminate].
  destruct (existsb (str_eqb s) literals) eqn:E; [|discriminate].
  now intros [= <-] t [= <-].
Qed.

Lemma zInt_between lo hi v field :
  zInt lo hi v = Some field ->
  between lo hi field /\ forall n, field = Some n -> num_isSafeInteger n = true.
Proof.
  unfold zInt. destruct v as [n|].
  - destruct (num_isFinite n); [|discriminate].
    destruct (num_isSafeInteger n) eqn:Hi; [|discriminate].
    destruct (num_leb (num_of_Z lo) n) eqn:Hlo; [|discriminate].
    destruct (num_leb n (num_of_Z hi)) eqn:Hhi; [|discriminate].
    intros [= <-]. split; intros m [= <-]; auto.
  - intros [= <-]. split; intros m; discriminate.
Qed.

Lemma zNumber_between lo hi v field :
  zNumber lo hi v = Some field -> between lo hi field.
Proof.
  unfold zNumber. destruct v as [n|].
  - destruct (num_isFinite n); [|discriminate].
    destruct (num_leb (num_of_Z lo) n) eqn:Hlo; [|discriminate].
    destruct (num_leb n (num_of_Z hi)) eqn:Hhi; [|discriminate].
    intros [= <-] m [= <-]. auto.
  - intros [= <-] m. discriminate.
Qed.

End PayloadBounds.

(** X20. What reaches the table has passed both the normaliser and the
    schema: in every parsed payload the email is a trimmed address of at
    most 320 code units, each text field that is present is trimmed, not
    empty and within its bound, the source is a URL, the two enumerated
    fields hold one of their literals, and each number lies in its
    range. *)
Theorem X20_parsed_payload_bounds `{R : Runtime} raw p :
  safeParse (normalizePayload raw) = Some p ->
  (within 320 (Some (email p)) /\ zod_email (email p) = true)
  /\ within 80 (qualifier p) /\ within 1200 (useCase p)
  /\ within 200 (website p)
  /\ (within 2048 (source p) /\ forall t, source p = Some t -> zod_url t = true)
  /\ within 512 (landingPath p)
  /\ within 120 (utmSource p) /\ within 120 (utmMedium p)
  /\ within 120 (utmCampaign p) /\ within 120 (utmTerm p)
  /\ within 120 (utmContent p)
  /\ within 32 (locale p) /\ within 64 (timezone p)
  /\ within 32 (screen p) /\ within 32 (viewport p) /\ within 120 (platform p)
  /\ within 24 (doNotTrack p)
  /\ (forall t, colorScheme p = Some t ->
        t = js "light" \/ t = js "dark" \/ t = js "no-preference")
  /\ (forall t, reducedMotion p = Some t ->
        t = js "reduce" \/ t = js "no-preference")
  /\ between (-840) 840 (timezoneOffsetMinutes p)
  /\ between 0 128 (deviceMemory p)
  /\ between 1 256 (hardwareConcurrency p)
  /\ between 0 64 (maxTouchPoints p).
Proof.
  unfold safeParse, safeParseOthers. intros H.
  repeat match type of H with
         | (?m ≫= _) = Some _ =>
             let E := fresh "E" in
             destruct m eqn:E; cbn [mbind option_bind] in H; [|discriminate H]
         end.
  injection H as <-. cbn [email qualifier useCase website source landingPath
    utmSource utmMedium utmCampaign utmTerm utmContent locale timezone screen
    viewport platform doNotTrack colorScheme reducedMotion
    timezoneOffsetMinutes deviceMemory hardwareConcurrency maxTouchPoints].
  cbn [normalizePayload n_email n_qualifier n_useCase n_website n_source
    n_landingPath n_utmSource n_utmMedium n_utmCampaign n_utmTerm n_utmContent
    n_locale n_timezone n_screen n_viewport n_platform n_doNotTrack
    n_colorScheme n_reducedMotion n_timezoneOffsetMinutes n_deviceMemory
    n_hardwareConcurrency n_maxTouchPoints] in *.
  repeat match goal with
         | |- _ /\ _ => split
         end;
    try match goal with
        | H : zString _ _ = Some ?o |- within _ ?o => exact (zString_within _ _ _ H)
        | H : zEmail _ = Some ?e |- within _ (Some ?e) =>
            exact (proj1 (zEmail_within _ _ H))
        | H : zEmail _ = Some ?e |- zod_email ?e = true =>
            exact (proj2 (zEmail_within _ _ H))
        | H : zUrl _ = Some ?o |- within _ ?o => exact (proj1 (zUrl_within _ _ H))
        | H : zUrl _ = Some ?o |- forall t, ?o = Some t -> _ =>
            exact (proj2 (zUrl_within _ _ H))
        | H : zNumber _ _ _ = Some ?o |- between _ _ ?o =>
            exact (zNumber_between _ _ _ _ H)
        | H : zInt _ _ _ = Some ?o |- between _ _ ?o =>
            exact (proj1 (zInt_between _ _ _ _ H))
        end.
  - intros t Ht.
    match goal with
    | H : zEnum _ _ = Some ?o, Ht : ?o = Some _ |- _ =>
        pose proof (zEnum_listed _ _ _ H _ Ht) as Hl
    end.
    cbn [existsb] in Hl. unfold str_eqb in Hl.
    repeat (apply orb_true_iff in Hl as [Hl|Hl]);
      try (apply bool_decide_eq_true_1 in Hl); auto; discriminate.
  - intros t Ht.
    match goal with
    | H : zEnum _ _ = Some ?o, Ht : ?o = Some _ |- _ =>
        pose proof (zEnum_listed _ _ _ H _ Ht) as Hl
    end.
    cbn [existsb] in Hl. unfold str_eqb in Hl.
    repeat (apply orb_true_iff in Hl as [Hl|Hl]);
      try (apply bool_decide_eq_true_1 in Hl); auto; discriminate.
Qed.

Lemma X20_parsed_payload_bounds_witness :
  within 512 (landingPath (Sample.payloadOf Sample.formSignup)).
Proof.
  exact (proj1 (proj2 (proj2 (proj2 (proj2 (proj2
    (X20_parsed_payload_bounds (Sample.bodyOf Sample.formSignup)
       (Sample.payloadOf Sample.formSignup) ltac:(computed)))))))).
Defined.

Section SchemaFilter.
Context `{R : Runtime}.

Lemma zString_same n v field :
  zString n (toOptionalString v) = Some field -> field = toOptionalString v.
Proof.
  unfold zString. destruct (toOptionalString v) as [s|] eqn:E.
  - destruct (toOptionalString_trimmed v s E) as [Ht _]. rewrite Ht.
    destruct (length s <=? n)%nat; [|discriminate]. now intros [= <-].
  - now intros [= <-].
Qed.

Lemma zUrl_same v field :
  zUrl (toOptionalString v) = Some field -> field = toOptionalString v.
Proof.
  unfold zUrl. destruct (toOptionalString v) as [s|] eqn:E.
  - destruct (toOptionalString_trimmed v s E) as [Ht _]. rewrite Ht.
    destruct (zod_url s && (length s <=? 2048)%nat); [|discriminate].
    now intros [= <-].
  - now intros [= <-].
Qed.

Lemma zEmail_same v e :
  zEmail (toOptionalString v) = Some e -> toOptionalString v = Some e.
Proof.
  unfold zEmail. destruct (toOptionalString v) as [s|] eqn:E; [|discriminate].
  destruct (toOptionalString_trimmed v s E) as [Ht _]. rewrite Ht.
  destruct (zod_email s && (length s <=? 320)%nat); [|discriminate].
  now intros [= <-].
Qed.

Lemma zEnum_same literals v field : zEnum literals v = Some field -> field = v.
Proof.
  unfold zEnum. destruct v as [s|]; [|now intros [= <-]].
  destruct (existsb (str_eqb s) literals); [|discriminate]. now intros [= <-].
Qed.

Lemma zInt_same lo hi v field : zInt lo hi v = Some field -> field = v.
Proof.
  unfold zInt. destruct v as [n|]; [|now intros [= <-]].
  destruct (_ && _); [|discriminate]. now intros [= <-].
Qed.

Lemma zNumber_same lo hi v field : zNumber lo hi v = Some field -> field = v.
Proof.
  unfold zNumber. destruct v as [n|]; [|now intros [= <-]].
  destruct (_ && _); [|discriminate]. now intros [= <-].
Qed.

Lemma zRecord_same v field :
  zRecord v = Some field ->
  field = match v with
          | Some (JObj props) => Some (Obj.delete proto_key props)
          | _ => None
          end.
Proof.
  unfold zRecord. destruct v as [[| | | | |props]|]; try discriminate;
    now intros [= <-].
Qed.

End SchemaFilter.

(** X21. The schema only filters: when a normalised payload parses, every
    field of the parsed payload is the normalised field itself, the
    trimming of the schema finding nothing left to trim; the two records
    are copied without the name [__proto__]. *)
Theorem X21_schema_only_filters `{R : Runtime} raw p :
  safeParse (normalizePayload raw) = Some p ->
  let n := normalizePayload raw in
  n_email n = Some (email p)
  /\ n_qualifier n = qualifier p /\ n_useCase n = useCase p
  /\ n_website n = website p /\ n_source n = source p
  /\ n_landingPath n = landingPath p
  /\ n_utmSource n = utmSource p /\ n_utmMedium n = utmMedium p
  /\ n_utmCampaign n = utmCampaign p /\ n_utmTerm n = utmTerm p
  /\ n_utmContent n = utmContent p
  /\ n_locale n = locale p /\ n_timezone n = timezone p
  /\ n_timezoneOffsetMinutes n = timezoneOffsetMinutes p
  /\ n_screen n = screen p /\ n_viewport n = viewport p
  /\ n_platform n = platform p
  /\ n_colorScheme n = colorScheme p /\ n_reducedMotion n = reducedMotion p
  /\ n_cookieEnabled n = cookieEnabled p
  /\ n_doNotTrack n = doNotTrack p
  /\ n_deviceMemory n = deviceMemory p
  /\ n_hardwareConcurrency n = hardwareConcurrency p
  /\ n_maxTouchPoints n = maxTouchPoints p
  /\ additionalFields p
     = match n_additionalFields n with
       | Some (JObj props) => Some (Obj.delete proto_key props)
       | _ => None
       end
  /\ metadata p
     = match n_metadata n with
       | Some (JObj props) => Some (Obj.delete proto_key props)
       | _ => None
       end.
Proof.
  unfold safeParse, safeParseOthers. intros H.
  repeat match type of H with
         | (?m ≫= _) = Some _ =>
             let E := fresh "E" in
             destruct m eqn:E; cbn [mbind option_bind] in H; [|discriminate H]
         end.
  injection H as <-. cbn zeta.
  cbn [email qualifier useCase website source landingPath
    utmSource utmMedium utmCampaign utmTerm utmContent locale timezone screen
    viewport platform doNotTrack colorScheme reducedMotion cookieEnabled
    timezoneOffsetMinutes deviceMemory hardwareConcurrency maxTouchPoints
    additionalFields metadata].
  cbn [normalizePayload n_email n_qualifier n_useCase n_website n_source
    n_landingPath n_utmSource n_utmMedium n_utmCampaign n_utmTerm n_utmContent
    n_locale n_timezone n_screen n_viewport n_platform n_doNotTrack
    n_colorScheme n_reducedMotion n_cookieEnabled n_timezoneOffsetMinutes
    n_deviceMemory n_hardwareConcurrency n_maxTouchPoints n_additionalFields
    n_metadata] in *.
  repeat match goal with
         | |- _ /\ _ => split
         end;
    try reflexivity;
    match goal with
    | H : zString _ (toOptionalString _) = Some ?o |- _ = ?o =>
        symmetry; exact (zString_same _ _ _ H)
    | H : zUrl (toOptionalString _) = Some ?o |- _ = ?o =>
        symmetry; exact (zUrl_same _ _ H)
    | H : zEmail (toOptionalString _) = Some ?e |- _ = Some ?e =>
        exact (zEmail_same _ _ H)
    | H : zEnum _ _ = Some ?o |- _ = ?o => symmetry; exact (zEnum_same _ _ _ H)
    | H : zInt _ _ _ = Some ?o |- _ = ?o => symmetry; exact (zInt_same _ _ _ _ H)
    | H : zNumber _ _ _ = Some ?o |- _ = ?o =>
        symmetry; exact (zNumber_same _ _ _ _ H)
    | H : zRecord _ = Some ?o |- ?o = _ => exact (zRecord_same _ _ H)
    end.
Qed.

Lemma X21_schema_only_filters_witness :
  n_email (normalizePayload (Sample.bodyOf Sample.formSignup))
  = Some (email (Sample.payloadOf Sample.formSignup)).
Proof.
  exact (proj1 (X21_schema_only_filters (Sample.bodyOf Sample.formSignup)
                  (Sample.payloadOf Sample.formSignup) ltac:(computed))).
Defined.

(** ** Records and the bot filter *)

Section Records.
Context `{R : Runtime}.

Lemma bad_record_rejected (n : Normalized) :
  zRecord (n_additionalFields n) = None \/ zRecord (n_metadata n) = None ->
  safeParse n = None.
Proof.
  intros H. unfold safeParse, safeParseOthers.
  repeat match goal with
         | |- (zRecord ?v ≫= _) = None =>
             let E := fresh "E" in
             destruct (zRecord v) eqn:E; cbn [mbind option_bind]; [|reflexivity]
         | |- (?m ≫= _) = None =>
             destruct m; cbn [mbind option_bind]; [|reflexivity]
         end.
  destruct H; congruence.
Qed.

Lemma array_is_no_record (v : option (json num)) items :
  parseMetadata v = Some (JArr items) -> zRecord (parseMetadata v) = None.
Proof. now intros ->. Qed.

End Records.

(** X22. Additional fields and metadata are records or nothing. An array
    in either place, given as such or as JSON text, makes the whole
    submission invalid and is answered 400; a number, a boolean, [null], a
    blank text and a text that is not JSON are dropped as if the field were
    absent, and so is JSON text of a scalar. *)
Theorem X22_records_or_nothing `{R : Runtime} env c now raw :
  parseRequestBody c = inr raw ->
  let fields := orElse (prop raw "additionalFields")
                  (orElse (prop raw "additional_fields") (prop raw "fields")) in
  (forall items,
     parseMetadata fields = Some (JArr items)
     \/ parseMetadata (prop raw "metadata") = Some (JArr items) ->
     postWaitlist env c now = Ret invalidPayload)
  /\ (forall items, parseMetadata (Some (JArr items)) = Some (JArr items))
  /\ (forall s items, trim s <> [] -> JSON_parse s = Some (JArr items) ->
        parseMetadata (Some (JStr s)) = Some (JArr items))
  /\ (forall v,
        match v with
        | JNull | JBool _ | JNum _ => True
        | JStr s =>
            trim s = []
            \/ match JSON_parse s with
               | Some (JObj _) | Some (JArr _) => False
               | _ => True
               end
        | _ => False
        end ->
        parseMetadata (Some v) = None).
Proof.
  intros Hb fields. split; [|split; [|split]].
  - intros items H. apply (postWaitlist_invalid env c now raw Hb).
    apply bad_record_rejected. cbn [normalizePayload n_additionalFields n_metadata].
    destruct H as [H|H]; [left|right]; exact (array_is_no_record _ _ H).
  - reflexivity.
  - intros s items Hne Hparse. unfold parseMetadata. cbn [isRecord].
    destruct (trim s) eqn:E; [congruence|]. cbn [length Nat.eqb].
    now rewrite Hparse.
  - intros [| b | n | s | items | props] H; try reflexivity; try contradiction.
    unfold parseMetadata. cbn [isRecord].
    destruct H as [H|H]; [now rewrite H|].
    destruct (length (trim s) =? 0)%nat; [reflexivity|].
    now destruct (JSON_parse s) as [[]|].
Qed.

Lemma X22_records_or_nothing_witness :
  postWaitlist (Sample.env None)
    (Sample.jsonRequest
       (JObj [(js "email", JStr (js "a@b.com")); (js "metadata", JArr [])])
       "1.2.3.4")
    Sample.noon
  = Ret invalidPayload.
Proof.
  exact (proj1 (X22_records_or_nothing (Sample.env None)
                  (Sample.jsonRequest
                     (JObj [(js "email", JStr (js "a@b.com"));
                            (js "metadata", JArr [])]) "1.2.3.4")
                  Sample.noon _ eq_refl) [] (or_intror eq_refl)).
Defined.

(** X23. Which submissions are taken for a bot. A submission that passes
    the schema gets the thanks of the bot filter exactly when the first of
    [website] and [company] that is neither absent nor [null] is a text
    with something other than white space in it. So a blank [website]
    hides a filled [company], and a value that is not a text never counts. *)
Theorem X23_who_is_a_bot `{R : Runtime} env c now raw p :
  parseRequestBody c = inr raw ->
  safeParse (normalizePayload raw) = Some p ->
  let trap := orElse (prop raw "website") (prop raw "company") in
  (postWaitlist env c now = Ret thanks
   <-> exists s, trap = Some (JStr s) /\ trim s <> [])
  /\ (honeypot p = true <-> exists s, trap = Some (JStr s) /\ trim s <> [])
  /\ (forall s, prop raw "website" = Some (JStr s) -> trim s = [] ->
        honeypot p = false).
Proof.
  intros Hb Hs trap.
  assert (website p = toOptionalString trap) as Hw.
  { destruct (safeParse_fields _ _ Hs) as (_ & Hw & _).
    cbn [normalizePayload n_website] in Hw. exact (zString_same _ _ _ Hw). }
  assert (Hhoney : honeypot p = true <-> exists s, trap = Some (JStr s) /\ trim s <> []).
  { unfold honeypot. rewrite Hw. unfold toOptionalString.
    destruct trap as [[| | |s| |]|];
      try (split; [discriminate|intros (s' & [=] & _)]).
    destruct (trim s) as [|x t] eqn:E; cbn [length Nat.ltb Nat.leb].
    - split; [discriminate|]. intros (s' & [= <-] & Hne). congruence.
    - split; [|reflexivity]. intros _. exists s. split; [reflexivity|].
      rewrite E. discriminate. }
  split; [|split; [exact Hhoney|]].
  - rewrite <- Hhoney, (postWaitlist_parsed env c now raw p Hb Hs). clear Hhoney.
    destruct (honeypot p); [tauto|]. split; [|discriminate].
    unfold submit. discriminate.
  - intros s Hweb Hblank. apply not_true_is_false. intros Hh.
    apply Hhoney in Hh as (s' & Htrap & Hne).
    unfold trap in Htrap. rewrite Hweb in Htrap. cbn [orElse] in Htrap.
    congruence.
Qed.

Lemma X23_who_is_a_bot_witness :
  postWaitlist (Sample.env None) Sample.honeypotFilled Sample.noon = Ret thanks.
Proof.
  apply (proj1 (X23_who_is_a_bot (Sample.env None) Sample.honeypotFilled Sample.noon
                  (Sample.bodyOf Sample.honeypotFilled)
                  (Sample.payloadOf Sample.honeypotFilled)
                  ltac:(computed) ltac:(computed))).
  exists (js " Spam Inc "). split; [reflexivity|discriminate].
Defined.

(** ** The model on concrete inputs *)

Example js_literal : js "a@b" = [97; 64; 98]%N.
Proof. reflexivity. Qed.

Example trim_example : trim (js "  3-10 ") = js "3-10".
Proof. reflexivity. Qed.

Example decimal_example : decimal 86400 = js "86400".
Proof. reflexivity. Qed.

Example define_order :
  map fst (Obj.define (js "2") tt (Obj.define (js "b") tt (Obj.define (js "10") tt [])))
  = [js "2"; js "10"; js "b"].
Proof. reflexivity. Qed.

Example parsePositiveInt_default : parsePositiveInt None 10 = 10.
Proof. reflexivity. Qed.

Example parsePositiveInt_25 : parsePositiveInt (Some (js " 25")) 10 = 25.
Proof. reflexivity. Qed.

Example parsePositiveInt_prefix : parsePositiveInt (Some (js "12abc")) 10 = 12.
Proof. reflexivity. Qed.

Example parsePositiveInt_zero : parsePositiveInt (Some (js "0")) 10 = 10.
Proof. reflexivity. Qed.

Example parsePositiveInt_negative : parsePositiveInt (Some (js "-3")) 10 = 10.
Proof. reflexivity. Qed.

Example parsePositiveInt_rounds :
  parsePositiveInt (Some (js "9007199254740993")) 10 = 9007199254740992.
Proof. reflexivity. Qed.

Example secondsUntilNextUtcDay_last_ms :
  secondsUntilNextUtcDay 1704153599999 = 1.
Proof. reflexivity. Qed.

Example secondsUntilNextUtcDay_midnight :
  secondsUntilNextUtcDay 1704153600000 = 86400.
Proof. reflexivity. Qed.

Example hexByte_10 : hexByte 10 = js "0a".
Proof. reflexivity. Qed.

Example sample_created :
  statusOf (exec (postWaitlist (Sample.env None)
                    (Sample.jsonRequest (JObj [(js "email", JStr (js "a@b.com"))]) "1.2.3.4")
                    Sample.noon) (Sample.emptyTable Current))
  = Some 201.
Proof. vm_compute. reflexivity. Qed.

Example getConnectingIp_prefers_edge_header :
  getConnectingIp {[ "cf-connecting-ip"%string := js "1.2.3.4";
                     "x-forwarded-for"%string := js "5.6.7.8" ]} = js "1.2.3.4".
Proof. vm_compute. reflexivity. Qed.

Example getConnectingIp_first_hop :
  getConnectingIp (req_headers Sample.formSignup) = js "9.9.9.9".
Proof. vm_compute. reflexivity. Qed.

Example getConnectingIp_unknown : getConnectingIp ∅ = js "unknown".
Proof. vm_compute. reflexivity. Qed.

Example day_boundary :
  utcDay 1704153599999 = 19723 /\ utcDay 1704153600000 = 19724.
Proof. split; reflexivity. Qed.

Example form_submission_normalised :
  let p := Sample.payloadOf Sample.formSignup in
  email p = js "Jo@Example.COM"
  /\ qualifier p = Some (js "founder_exec")
  /\ cookieEnabled p = Some true
  /\ landingPath p = Some (js "/pricing")
  /\ source p = None.
Proof. vm_compute. repeat split. Qed.

Example form_submission_row :
  let db := (exec (postWaitlist (Sample.env None) Sample.formSignup Sample.noon)
                  (Sample.emptyTable Current)).2 in
  map (fun r => (r !! "email"%string, r !! "ip_address"%string,
                 r !! "source_url"%string, r !! "landing_path"%string,
                 r !! "cf_country"%string, r !! "cf_bot_score"%string,
                 r !! "cookie_enabled"%string, r !! "ip_hash"%string))
      (rows db)
  = [(Some (SqlText (js "jo@example.com")), Some (SqlText (js "9.9.9.9")),
      Some (SqlText (js "https://example.com/api/waitlist?ref=hn")),
      Some (SqlText (js "/pricing")),
      Some (SqlText (js "BE")), Some (SqlNum 30),
      Some (SqlNum 1), None)].
Proof. vm_compute. reflexivity. Qed.

Example legacy_table_takes_the_fallback :
  let run := postWaitlist (Sample.env None) (Sample.signup "a@b.com") Sample.noon in
  statementsRun run (Sample.emptyTable LegacyIpHash)
    = [UpsertEntry; UpsertEntryWithIpHash]
  /\ statementsRun run (Sample.emptyTable Current) = [UpsertEntry]
  /\ statusOf (exec run (Sample.emptyTable LegacyIpHash)) = Some 201
  /\ map (fun r => r !! "ip_hash"%string)
         (rows (exec run (Sample.emptyTable LegacyIpHash)).2)
     = [Some (SqlText (concat (repeat (js "00") 32)))].
Proof. vm_compute. repeat split. Qed.

Example fallback_against_any_store :
  (attempts (inr (Some 0)) Sample.legacyAnswers 0
     (postWaitlist (Sample.env None) (Sample.signup "a@b.com") Sample.noon)).1
  = inr onWaitlist.
Proof. vm_compute. reflexivity. Qed.

Example eleventh_submission_limited :
  let out := exec (postWaitlist (Sample.env None) (Sample.signup "k@x.io") Sample.noon)
                  Sample.tenEntries in
  statusOf out = Some 429 /\ length (rows out.2) = 10%nat.
Proof. vm_compute. split; reflexivity. Qed.

Example next_day_not_limited :
  statusOf (exec (postWaitlist (Sample.env None) (Sample.signup "k@x.io")
                    (Sample.noon + msPerDay)) Sample.tenEntries) = Some 201.
Proof. vm_compute. reflexivity. Qed.

Example other_address_not_limited :
  statusOf (exec (postWaitlist (Sample.env None)
                    (Sample.jsonRequest (JObj [(js "email", JStr (js "k@x.io"))]) "4.3.2.1")
                    Sample.noon) Sample.tenEntries) = Some 201.
Proof. vm_compute. reflexivity. Qed.

Example readme_submission :
  let db := (exec (postWaitlist (Sample.env None) Sample.teamSizeSignup Sample.noon)
                  (Sample.emptyTable Current)).2 in
  sanitizedAdditionalFields (Sample.payloadOf Sample.teamSizeSignup)
    = [(js "teamSize", js "3-10")]
  /\ length (rows db) = 1%nat.
Proof. vm_compute. split; reflexivity. Qed.

Example sanitizer_caps_at_24_writes :
  length (sanitizeLooseRecord
            (Some (map (fun i => (decimal (Z.of_nat i), JNum 7)) (seq 0 30))))
  = 24%nat.
Proof. vm_compute. reflexivity. Qed.

Example sanitizer_drops_and_merges :
  sanitizeLooseRecord
    (Some [(js "  ", JStr (js "x")); (js "b", JBool true); (js "c", JStr (js "  "));
           (js " a ", JStr (js " 1 ")); (js "a", JNum 2); (js "__proto__", JStr (js "p"));
           (js "7", JStr (js "seven"))])
  = [(js "7", js "seven"); (js "a", js "2")].
Proof. vm_compute. reflexivity. Qed.

Example honeypot_blank_is_no_bot :
  statusOf (exec (postWaitlist (Sample.env None)
                    (Sample.jsonRequest (JObj [(js "email", JStr (js "a@b.com"));
                                               (js "website", JStr (js "   "))]) "1.2.3.4")
                    Sample.noon) (Sample.emptyTable Current)) = Some 201.
Proof. vm_compute. reflexivity. Qed.

Example array_body_invalid :
  statusOf (exec (postWaitlist (Sample.env None)
                    (Sample.jsonRequest (JArr [JStr (js "a@b.com")]) "1.2.3.4")
                    Sample.noon) (Sample.emptyTable Current)) = Some 400.
Proof. vm_compute. reflexivity. Qed.

Example array_additional_fields_invalid :
  statusOf (exec (postWaitlist (Sample.env None)
                    (Sample.jsonRequest (JObj [(js "email", JStr (js "a@b.com"));
                                               (js "fields", JArr [])]) "1.2.3.4")
                    Sample.noon) (Sample.emptyTable Current)) = Some 400.
Proof. vm_compute. reflexivity. Qed.
